(** * store-rating: rating aggregation, slugs and the review lifecycle

    A shallow embedding of the parts of the repository that the
    specification talks about:

    - [Slug]: [Store.generateSlug] of [src/models/Store.js];
    - [Num]: the JavaScript number operations used by the two rating
      recomputes (double division, [toFixed], [parseFloat]);
    - [Models]: the Sequelize models [Rating] and [Store] with their
      validators, hooks and instance methods;
    - [Controller]: the Mongoose-based [reviewController.js].

    JavaScript strings are modelled as sequences of Latin-1 code units
    ([string] of the standard library), numbers that are integers in the
    source as [Z], and the double quotient of the average as a binary64
    value ([spec_float] with precision 53 and maximal exponent 1024). *)

From Stdlib Require Import ZArith NArith List String Ascii Bool Lia.
From Stdlib Require Import DecimalString DecimalN.
From Stdlib Require Import Floats.SpecFloat.
From stdpp Require Import gmap strings list fin_maps.

Set Default Proof Using "Type".

Local Open Scope string_scope.

(* ===================================================================== *)
(** ** Store.generateSlug *)
(* ===================================================================== *)

Module Slug.

Definition code (c : ascii) : N := N_of_ascii c.

Definition in_range (lo hi : N) (c : ascii) : bool :=
  ((lo <=? code c) && (code c <=? hi))%N.

(** [String.prototype.toLowerCase] on one Latin-1 code unit: [A-Z] and the
    accented capitals U+00C0..U+00DE (without the multiplication sign
    U+00D7) move up by 32, everything else is kept. *)
Definition lower_char (c : ascii) : ascii :=
  if in_range 65 90 c || (in_range 192 222 c && negb (code c =? 215)%N)
  then ascii_of_N (code c + 32)
  else c.

Fixpoint toLowerCase (s : string) : string :=
  match s with
  | EmptyString => EmptyString
  | String c s' => String (lower_char c) (toLowerCase s')
  end.

Definition is_lower (c : ascii) : bool := in_range 97 122 c.
Definition is_digit (c : ascii) : bool := in_range 48 57 c.
Definition is_hyphen (c : ascii) : bool := (code c =? 45)%N.

(** The character class [[a-z0-9 -]]. *)
Definition keep_char (c : ascii) : bool :=
  is_lower c || is_digit c || (code c =? 32)%N || is_hyphen c.

(** The character class [\s] (and the characters removed by [trim]),
    restricted to Latin-1: TAB, LF, VT, FF, CR, SPACE and NBSP. *)
Definition is_space (c : ascii) : bool :=
  in_range 9 13 c || (code c =? 32)%N || (code c =? 160)%N.

(** [.replace(/[^a-z0-9 -]/g, '')] *)
Fixpoint strip (s : string) : string :=
  match s with
  | EmptyString => EmptyString
  | String c s' => if keep_char c then String c (strip s') else strip s'
  end.

(** [.replace(/p+/g, '-')] for a one-character class [p]: every maximal
    run of [p]-characters becomes one hyphen.  [in_run] tells that the
    previous character belonged to a run already replaced. *)
Fixpoint replace_runs (p : ascii -> bool) (in_run : bool) (s : string) : string :=
  match s with
  | EmptyString => EmptyString
  | String c s' =>
      if p c
      then (if in_run then replace_runs p true s'
            else String "-" (replace_runs p true s'))
      else String c (replace_runs p false s')
  end.

Fixpoint trimStart (s : string) : string :=
  match s with
  | EmptyString => EmptyString
  | String c s' => if is_space c then trimStart s' else s
  end.

Fixpoint trimEnd (s : string) : string :=
  match s with
  | EmptyString => EmptyString
  | String c s' =>
      match trimEnd s' with
      | EmptyString => if is_space c then EmptyString else String c EmptyString
      | t => String c t
      end
  end.

(** [String.prototype.trim]: white space is removed, hyphens are not. *)
Definition trim (s : string) : string := trimEnd (trimStart s).

(** The chain of string methods that computes [baseSlug]. *)
Definition baseSlug (name : string) : string :=
  trim
    (replace_runs is_hyphen false
       (replace_runs is_space false
          (strip (toLowerCase name)))).

(** The template literal [`${counter}`] for a non-negative integer. *)
Definition decimal (n : N) : string := NilEmpty.string_of_uint (N.to_uint n).

(** [`${baseSlug}-${counter}`] *)
Definition candidate (base : string) (counter : N) : string :=
  base ++ "-" ++ decimal counter.

(** The [while] loop of [generateSlug].  [existsFn slug] stands for
    [await this.findOne({ where: { slug } })] being non-null; the loop state
    is the pair [slug], [counter].  [fuel] bounds the number of lookups:
    [None] means that the loop has not ended within [fuel] lookups. *)
Fixpoint probe (fuel : nat) (existsFn : string -> bool)
    (base slug : string) (counter : N) : option string :=
  match fuel with
  | O => None
  | S fuel' =>
      if existsFn slug
      then probe fuel' existsFn base (candidate base counter) (counter + 1)
      else Some slug
  end.

Definition generateSlug (fuel : nat) (existsFn : string -> bool)
    (name : string) : option string :=
  probe fuel existsFn (baseSlug name) (baseSlug name) 1.

(** The [k]-th slug that the loop tries: the base first, then [base-1],
    [base-2], ... *)
Definition attempt (base : string) (k : nat) : string :=
  match k with
  | O => base
  | S _ => candidate base (N.of_nat k)
  end.

(** *** The probes in the words of the specification

    "Probe base-1, base-2, ...": the [k]-th probe is the base, a hyphen
    and [k] in decimal.  The decimal digits are obtained here by repeated
    division by ten, independently of [candidate] and of the conversion
    that the template literal performs. *)

Definition digit_char (d : nat) : ascii := ascii_of_nat (48 + d).

(** The digits of [k] put in front of [acc], the last digit first. *)
Fixpoint spec_digits (fuel k : nat) (acc : string) : string :=
  match fuel with
  | O => acc
  | S fuel' =>
      let acc' := String (digit_char (k mod 10)) acc in
      if (k <? 10)%nat then acc' else spec_digits fuel' (k / 10) acc'
  end.

Definition spec_numeral (k : nat) : string := spec_digits (S k) k "".

(** Probe number [k]: the base for [k = 0], then [base-1], [base-2], ... *)
Definition spec_attempt (base : string) (k : nat) : string :=
  match k with
  | O => base
  | S _ => base ++ "-" ++ spec_numeral k
  end.

(** The same digits as a number of [Decimal], to compare [spec_numeral]
    with the conversion of the library. *)
Definition digit_uint (j : nat) (d : Decimal.uint) : Decimal.uint :=
  match j with
  | 0 => Decimal.D0 d
  | 1 => Decimal.D1 d
  | 2 => Decimal.D2 d
  | 3 => Decimal.D3 d
  | 4 => Decimal.D4 d
  | 5 => Decimal.D5 d
  | 6 => Decimal.D6 d
  | 7 => Decimal.D7 d
  | 8 => Decimal.D8 d
  | _ => Decimal.D9 d
  end%nat.

Fixpoint uint_digits (fuel k : nat) (acc : Decimal.uint) : Decimal.uint :=
  match fuel with
  | O => acc
  | S fuel' =>
      let acc' := digit_uint (k mod 10) acc in
      if (k <? 10)%nat then acc' else uint_digits fuel' (k / 10) acc'
  end.

(** The validator of the [slug] column, [/^[a-z0-9-]+$/]. *)
Definition slug_char (c : ascii) : bool := is_lower c || is_digit c || is_hyphen c.

Fixpoint all_chars (p : ascii -> bool) (s : string) : bool :=
  match s with
  | EmptyString => true
  | String c s' => p c && all_chars p s'
  end.

Definition matches_slug_re (s : string) : bool :=
  match s with
  | EmptyString => false
  | _ => all_chars slug_char s
  end.

Definition starts_with_hyphen (s : string) : bool :=
  match s with
  | String c _ => is_hyphen c
  | EmptyString => false
  end.

Fixpoint ends_with_hyphen (s : string) : bool :=
  match s with
  | EmptyString => false
  | String c EmptyString => is_hyphen c
  | String _ s' => ends_with_hyphen s'
  end.

(** Two hyphens in a row somewhere in [s]. *)
Fixpoint double_hyphen (s : string) : bool :=
  match s with
  | EmptyString => false
  | String c s' => (is_hyphen c && starts_with_hyphen s') || double_hyphen s'
  end.

Fixpoint any_char (p : ascii -> bool) (s : string) : bool :=
  match s with
  | EmptyString => false
  | String c s' => p c || any_char p s'
  end.

(** The characters of a name that survive lower-casing and stripping. *)
Definition survives (c : ascii) : bool := keep_char (lower_char c).

End Slug.

(* ===================================================================== *)
(** ** JavaScript numbers used by the rating recomputes *)
(* ===================================================================== *)

Module Num.

(** IEEE 754 binary64. *)
Definition prec : Z := 53.
Definition emax : Z := 1024.

(** The double that holds the integer [z] (exact for [|z| < 2^53]). *)
Definition of_int (z : Z) : spec_float := binary_normalize prec emax z 0 false.

(** The operator [/] on two numbers. *)
Definition div (x y : spec_float) : spec_float := SFdiv prec emax x y.

(** [x >= 1e21], where [toFixed] gives up fixed notation. *)
Definition ge_1e21 (m : positive) (e : Z) : bool :=
  if (0 <=? e)%Z then (10 ^ 21 <=? Z.pos m * 2 ^ e)%Z
  else (10 ^ 21 * 2 ^ (- e) <=? Z.pos m)%Z.

(** The integer nearest to [m * 2^e * 10^f], the larger one of two. *)
Definition nearest_scaled (f : nat) (m : positive) (e : Z) : Z :=
  let num := (Z.pos m * 10 ^ Z.of_nat f)%Z in
  if (0 <=? e)%Z then (num * 2 ^ e)%Z
  else ((2 * num + 2 ^ (- e)) / (2 * 2 ^ (- e)))%Z.

(** [Number.prototype.toFixed(f)].  [Some n] stands for the decimal string
    of [n / 10^f] with [f] fractional digits: "let n be an integer for which
    n / 10^f - x is as close to zero as possible; if there are two such n,
    pick the larger n", applied to the absolute value and then signed.
    [None] stands for the results that are not in fixed notation (NaN,
    the infinities, and [|x| >= 1e21]). *)
Definition toFixed (f : nat) (x : spec_float) : option Z :=
  match x with
  | S754_zero _ => Some 0%Z
  | S754_finite s m e =>
      if ge_1e21 m e then None
      else Some (if s then (- nearest_scaled f m e)%Z else nearest_scaled f m e)
  | _ => None
  end.

(** [parseFloat(x.toFixed(f))]: the double nearest to the printed decimal;
    a result that is not in fixed notation parses back to [x]. *)
Definition parseFloat_toFixed (f : nat) (x : spec_float) : spec_float :=
  match toFixed f x with
  | Some n => div (of_int n) (of_int (10 ^ Z.of_nat f))
  | None => x
  end.

(** Rounding the exact quotient [s / c] half up to [f] decimals, as an
    integer number of units [10^-f]; used to compare with [toFixed]. *)
Definition round_half_up (f : nat) (s c : Z) : Z :=
  ((2 * s * 10 ^ Z.of_nat f + c) / (2 * c))%Z.

(** The exact quotient [s / c] lies halfway between two neighbouring
    multiples of [10^-f]. *)
Definition tie (f : nat) (s c : Z) : Prop :=
  ((2 * s * 10 ^ Z.of_nat f + c) mod (2 * c) = 0)%Z.

(** The exact quotient [s / c] is a multiple of [1/8]. *)
Definition eighths (s c : Z) : Prop := ((8 * s) mod c = 0)%Z.

(** The mantissa [2^52], the least one of 53 bits. *)
Definition two_52 : positive := 4503599627370496.

(** The record of the rounding of [SFdiv] after one shift to the right of
    a quotient [q] of 54 bits with location [l]: the halved quotient, the
    bit shifted out and the sticky bit. *)
Definition halved (q : positive) (l : location) : shr_record :=
  Build_shr_record (Z.pos q / 2) (Z.odd (Z.pos q))
    (match l with loc_Exact => false | _ => true end).

End Num.

(* ===================================================================== *)
(** ** The Sequelize models: Rating.js and Store.js *)
(* ===================================================================== *)

Module Models.

Local Open Scope Z_scope.

Inductive error : Type :=
| ValidationError (messages : list string)
| UniqueConstraintError (index : string)
| ForeignKeyConstraintError (column : string)
| DatabaseError (message : string).

Inductive result (A : Type) : Type :=
| Ok (a : A)
| Err (e : error).
Arguments Ok {A} a.
Arguments Err {A} e.

Definition is_ok {A} (r : result A) : bool :=
  match r with Ok _ => true | Err _ => false end.

Record Reply : Type := mkReply {
  reply_text : string;
  reply_date : Z;
  reply_author_id : N
}.

Global Instance Reply_eq_dec : EqDecision Reply.
Proof. solve_decision. Defined.

(** A row of table [ratings] (the time stamps are left out). *)
Record Rating : Type := mkRating {
  id : N;
  user_id : N;
  store_id : N;
  rating : Z;
  title : option string;
  comment : option string;
  images : list string;
  helpful_votes : Z;
  reply : option Reply;
  is_verified_purchase : bool;
  is_flagged : bool;
  flag_reason : option string;
  is_approved : bool
}.

(** A row of table [stores], with the columns that the review code reads
    or writes.  [average_rating] is the DECIMAL(3,2) column, held as an
    integer number of hundredths. *)
Record Store : Type := mkStore {
  st_id : N;
  st_name : string;
  st_owner_id : N;
  st_slug : option string;
  average_rating : Z;
  total_reviews : Z
}.

Record DB : Type := mkDB {
  ratings : list Rating;
  stores : gmap N Store
}.

(** *** Validators of Rating *)

Definition strlen (s : string) : Z := Z.of_nat (String.length s).

Definition check (bad : bool) (msg : string) : list string :=
  if bad then [msg] else [].

Definition validate_rating (v : Z) : list string :=
  check (v <? 1) "Rating must be between 1 and 5" ++
  check (5 <? v) "Rating must be between 1 and 5".

Definition validate_title (v : option string) : list string :=
  match v with
  | Some s => check (200 <? strlen s) "Title cannot exceed 200 characters"
  | None => []
  end.

Definition validate_comment (v : option string) : list string :=
  match v with
  | Some s => check (2000 <? strlen s) "Comment cannot exceed 2000 characters"
  | None => []
  end.

(** [isValidImages] *)
Definition isValidImages (v : list string) : list string :=
  if 5 <? Z.of_nat (length v) then ["Maximum 5 images allowed per review"]
  else check (negb (forallb (String.prefix "http") v)) "All images must be valid URLs".

Definition validate_helpful_votes (v : Z) : list string :=
  check (v <? 0) "Helpful votes cannot be negative".

(** [isValidReply]; [reply_date] is always a date, so the third test of the
    source never fires. *)
Definition isValidReply (v : option Reply) : list string :=
  match v with
  | Some r =>
      if String.eqb (reply_text r) "" then ["Reply must have a text field"]
      else check (1000 <? strlen (reply_text r)) "Reply text cannot exceed 1000 characters"
  | None => []
  end.

(** [!value] for a value that is null or a string. *)
Definition falsy_string (v : option string) : bool :=
  match v with
  | None => true
  | Some s => String.eqb s ""
  end.

(** [isValidFlagReason], which reads [this.is_flagged]. *)
Definition isValidFlagReason (this_is_flagged : bool) (v : option string) : list string :=
  check (this_is_flagged && falsy_string v) "Flag reason is required when review is flagged".

Definition validate (r : Rating) : list string :=
  validate_rating (rating r) ++
  validate_title (title r) ++
  validate_comment (comment r) ++
  isValidImages (images r) ++
  validate_helpful_votes (helpful_votes r) ++
  isValidReply (reply r) ++
  isValidFlagReason (is_flagged r) (flag_reason r).

(** The ENUM type of column [flag_reason], checked by the database. *)
Definition flag_reasons : list string :=
  ["spam"; "inappropriate"; "fake"; "offensive"; "other"].

Definition enum_ok (v : option string) : bool :=
  match v with
  | None => true
  | Some s => existsb (String.eqb s) flag_reasons
  end.

(** *** Store.prototype.updateRatingStats *)

(** [this.getRatings()]: the association [Store.hasMany(Rating, as:
    'ratings')], every row with this store's id. *)
Definition getRatings (db : DB) (s : Store) : list Rating :=
  List.filter (fun r => (store_id r =? st_id s)%N) (ratings db).

(** [rating.getStore()] *)
Definition getStore (db : DB) (r : Rating) : option Store :=
  stores db !! store_id r.

(** [ratings.reduce((acc, rating) => acc + rating.rating, 0)] *)
Definition sum_ratings (rs : list Rating) : Z :=
  fold_left (fun acc r => acc + rating r) rs 0.

(** The two assignments of [updateRatingStats]: the new values of
    [average_rating] (in hundredths; [None] when [toFixed] does not
    produce a fixed-notation decimal) and [total_reviews]. *)
Definition ratingStats (rs : list Rating) : option Z * Z :=
  if 0 <? Z.of_nat (length rs) then
    (Num.toFixed 2 (Num.div (Num.of_int (sum_ratings rs))
                            (Num.of_int (Z.of_nat (length rs)))),
     Z.of_nat (length rs))
  else (Some 0, 0).

(** The validators of the two derived columns of Store. *)
Definition validate_store (avg total : Z) : list string :=
  check (avg <? 0) "Rating cannot be negative" ++
  check (500 <? avg) "Rating cannot exceed 5" ++
  check (total <? 0) "Total reviews cannot be negative".

Definition with_stats (s : Store) (avg total : Z) : Store :=
  mkStore (st_id s) (st_name s) (st_owner_id s) (st_slug s) avg total.

(** [UPDATE stores SET ... WHERE id = ...] *)
Definition write_store (db : DB) (s : Store) : DB :=
  mkDB (ratings db) (alter (fun _ => s) (st_id s) (stores db)).

(** [updateRatingStats] on the instance [this]: recompute from all the
    ratings of the store, then [this.save()], which validates the two
    columns and writes them in one UPDATE.  A quotient that is not printed
    in fixed notation ([1e21] or more in absolute value) fails the range
    validators. *)
Definition updateRatingStats (db : DB) (this : Store) : DB * result unit :=
  match ratingStats (getRatings db this) with
  | (Some avg, total) =>
      match validate_store avg total with
      | [] => (write_store db (with_stats this avg total), Ok tt)
      | msgs => (db, Err (ValidationError msgs))
      end
  | (None, _) =>
      (db, Err (ValidationError
                  [if sum_ratings (getRatings db this) <? 0
                   then "Rating cannot be negative" else "Rating cannot exceed 5"]))
  end.

(** The body shared by the three hooks: fetch the store of the rating and,
    if there is one, update its statistics. *)
Definition refresh_store (db : DB) (r : Rating) : DB * result unit :=
  match getStore db r with
  | Some store => updateRatingStats db store
  | None => (db, Ok tt)
  end.

Definition afterCreate (db : DB) (r : Rating) : DB * result unit :=
  refresh_store db r.

(** [afterUpdate]; [previous] holds the values of the row before the
    update, against which [rating.changed(...)] compares. *)
Definition afterUpdate (db : DB) (previous r : Rating) : DB * result unit :=
  if negb (rating r =? rating previous)
     || negb (Bool.eqb (is_approved r) (is_approved previous))
  then refresh_store db r
  else (db, Ok tt).

Definition afterDestroy (db : DB) (r : Rating) : DB * result unit :=
  refresh_store db r.

(** *** Saving, creating and destroying a rating *)

Definition same_pair (a b : Rating) : bool :=
  ((user_id a =? user_id b) && (store_id a =? store_id b))%N.

(** The unique index [unique_user_store_rating] on [(user_id, store_id)]:
    some other row already holds the pair of [r]. *)
Definition pair_taken (db : DB) (r : Rating) : bool :=
  existsb (fun x => negb (id x =? id r)%N && same_pair x r) (ratings db).

Definition id_taken (db : DB) (i : N) : bool :=
  existsb (fun x => (id x =? i)%N) (ratings db).

Definition replace_rating (r : Rating) (rs : list Rating) : list Rating :=
  map (fun x => if (id x =? id r)%N then r else x) rs.

Definition remove_rating (i : N) (rs : list Rating) : list Rating :=
  List.filter (fun x => negb (id x =? i)%N) rs.

Definition with_ratings (db : DB) (rs : list Rating) : DB := mkDB rs (stores db).

(** A column has been given a value that differs from the one read. *)
Definition differs {A} `{EqDecision A} (a b : A) : bool := negb (bool_decide (a = b)).

Definition if_changed (changed : bool) (msgs : list string) : list string :=
  if changed then msgs else [].

(** The validators that the save of a row read from the table runs: those
    of the columns that have changed, since the columns that are not among
    the fields to save are skipped.  [fresh_reply] tells that [this.reply]
    has been assigned a fresh object, which holds a [Date] and so never
    compares equal to a reply read from the table. *)
Definition validate_changed (fresh_reply : bool) (previous this : Rating) : list string :=
  if_changed (differs (rating this) (rating previous)) (validate_rating (rating this)) ++
  if_changed (differs (title this) (title previous)) (validate_title (title this)) ++
  if_changed (differs (comment this) (comment previous)) (validate_comment (comment this)) ++
  if_changed (differs (images this) (images previous)) (isValidImages (images this)) ++
  if_changed (differs (helpful_votes this) (helpful_votes previous))
    (validate_helpful_votes (helpful_votes this)) ++
  if_changed (fresh_reply || differs (reply this) (reply previous))
    (isValidReply (reply this)) ++
  if_changed (differs (flag_reason this) (flag_reason previous))
    (isValidFlagReason (is_flagged this) (flag_reason this)).

(** [this.save()] on an instance read from the table: [previous] holds the
    values that were read, [this] the current ones.  The validators of the
    changed columns run first, then the UPDATE of the changed columns (the
    enum type and the unique index are checked by the database where their
    columns are written), then the [afterUpdate] hook; an error of the hook
    rejects the save after the row has been written. *)
Definition save_with (fresh_reply : bool) (db : DB) (previous this : Rating)
    : DB * result unit :=
  match validate_changed fresh_reply previous this with
  | [] =>
      if differs (flag_reason this) (flag_reason previous)
         && negb (enum_ok (flag_reason this))
      then (db, Err (DatabaseError "invalid input value for enum"))
      else if (differs (user_id this) (user_id previous)
               || differs (store_id this) (store_id previous))
              && pair_taken db this
      then (db, Err (UniqueConstraintError "unique_user_store_rating"))
      else afterUpdate (with_ratings db (replace_rating this (ratings db))) previous this
  | msgs => (db, Err (ValidationError msgs))
  end.

Definition save (db : DB) (previous this : Rating) : DB * result unit :=
  save_with false db previous this.

(** The values given to [Rating.create]; [None] in a column with a default
    means that the caller left it out. *)
Record RatingAttrs : Type := mkAttrs {
  a_user_id : N;
  a_store_id : N;
  a_rating : Z;
  a_title : option string;
  a_comment : option string;
  a_images : option (list string);
  a_helpful_votes : option Z;
  a_reply : option Reply;
  a_is_verified_purchase : option bool;
  a_is_flagged : option bool;
  a_flag_reason : option string;
  a_is_approved : option bool
}.

(** [Rating.build]: the [defaultValue] of each column fills what is left
    out; [new_id] is the UUID drawn for the row. *)
Definition build (new_id : N) (a : RatingAttrs) : Rating :=
  mkRating new_id (a_user_id a) (a_store_id a) (a_rating a)
    (a_title a) (a_comment a)
    (default [] (a_images a))
    (default 0 (a_helpful_votes a))
    (a_reply a)
    (default false (a_is_verified_purchase a))
    (default false (a_is_flagged a))
    (a_flag_reason a)
    (default true (a_is_approved a)).

(** [Rating.create(values)]: build, validate, INSERT (primary key, unique
    pair and the foreign key to [stores] are checked by the database), then
    the [afterCreate] hook. *)
Definition create (db : DB) (new_id : N) (a : RatingAttrs) : DB * result Rating :=
  let this := build new_id a in
  match validate this with
  | [] =>
      if negb (enum_ok (flag_reason this))
      then (db, Err (DatabaseError "invalid input value for enum"))
      else if id_taken db new_id
      then (db, Err (UniqueConstraintError "ratings_pkey"))
      else if pair_taken db this
      then (db, Err (UniqueConstraintError "unique_user_store_rating"))
      else match stores db !! store_id this with
           | None => (db, Err (ForeignKeyConstraintError "store_id"))
           | Some _ =>
               match afterCreate (with_ratings db (ratings db ++ [this])) this with
               | (db', Ok _) => (db', Ok this)
               | (db', Err e) => (db', Err e)
               end
           end
  | msgs => (db, Err (ValidationError msgs))
  end.

(** [this.destroy()]: DELETE, then the [afterDestroy] hook. *)
Definition destroy (db : DB) (this : Rating) : DB * result unit :=
  afterDestroy (with_ratings db (remove_rating (id this) (ratings db))) this.

(** *** Instance methods of Rating

    Each method returns the instance after its assignments (they stay even
    if the save fails), the table contents and the result of the call. *)

Definition set_helpful_votes (r : Rating) (v : Z) : Rating :=
  mkRating (id r) (user_id r) (store_id r) (rating r) (title r) (comment r)
    (images r) v (reply r) (is_verified_purchase r)
    (is_flagged r) (flag_reason r) (is_approved r).

Definition set_reply (r : Rating) (v : option Reply) : Rating :=
  mkRating (id r) (user_id r) (store_id r) (rating r) (title r) (comment r)
    (images r) (helpful_votes r) v (is_verified_purchase r)
    (is_flagged r) (flag_reason r) (is_approved r).

Definition set_moderation (r : Rating) (flagged : bool) (reason : option string)
    (approved : bool) : Rating :=
  mkRating (id r) (user_id r) (store_id r) (rating r) (title r) (comment r)
    (images r) (helpful_votes r) (reply r) (is_verified_purchase r)
    flagged reason approved.

Definition returning {A} (v : A) (r : result unit) : result A :=
  match r with Ok _ => Ok v | Err e => Err e end.

Definition addHelpfulVote (db : DB) (this : Rating) : Rating * DB * result Z :=
  let this' := set_helpful_votes this (helpful_votes this + 1) in
  let '(db', r) := save db this this' in
  (this', db', returning (helpful_votes this') r).

Definition removeHelpfulVote (db : DB) (this : Rating) : Rating * DB * result Z :=
  if 0 <? helpful_votes this then
    let this' := set_helpful_votes this (helpful_votes this - 1) in
    let '(db', r) := save db this this' in
    (this', db', returning (helpful_votes this') r)
  else (this, db, Ok (helpful_votes this)).

(** [now] is the value of [new Date()]. *)
Definition addReply (now : Z) (db : DB) (this : Rating) (replyText : string)
    (authorId : N) : Rating * DB * result Reply :=
  let rep := mkReply replyText now authorId in
  let this' := set_reply this (Some rep) in
  let '(db', r) := save_with true db this this' in
  (this', db', returning rep r).

Definition removeReply (db : DB) (this : Rating) : Rating * DB * result bool :=
  let this' := set_reply this None in
  let '(db', r) := save db this this' in
  (this', db', returning true r).

(** [reason] is a string or [null]. *)
Definition flag (db : DB) (this : Rating) (reason : option string)
    : Rating * DB * result bool :=
  let this' := set_moderation this true reason false in
  let '(db', r) := save db this this' in
  (this', db', returning true r).

Definition unflag (db : DB) (this : Rating) : Rating * DB * result bool :=
  let this' := set_moderation this false None true in
  let '(db', r) := save db this this' in
  (this', db', returning true r).

Definition approve (db : DB) (this : Rating) : Rating * DB * result bool :=
  let this' := set_moderation this (is_flagged this) (flag_reason this) true in
  let '(db', r) := save db this this' in
  (this', db', returning true r).

Definition reject (db : DB) (this : Rating) : Rating * DB * result bool :=
  let this' := set_moderation this (is_flagged this) (flag_reason this) false in
  let '(db', r) := save db this this' in
  (this', db', returning true r).

(** *** Store.generateSlug on the table of stores *)

(** [Store.findOne({ where: { slug } })] finds a row. *)
Definition slug_taken (db : DB) (slug : string) : bool :=
  existsb (fun kv => bool_decide (st_slug (snd kv) = Some slug)) (map_to_list (stores db)).

Definition generateSlug (fuel : nat) (db : DB) (name : string) : option string :=
  Slug.generateSlug fuel (slug_taken db) name.

(** *** What the specification counts *)

Definition valid_stars (v : Z) : Prop := 1 <= v <= 5.

(** The number of rows of [ratings] that hold the pair [(u, s)]. *)
Definition rows_of (db : DB) (u s : N) : nat :=
  length (List.filter (fun r => (user_id r =? u)%N && (store_id r =? s)%N) (ratings db)).

(** The stored statistics of store [sid]. *)
Definition stored_stats (db : DB) (sid : N) : option (Z * Z) :=
  (fun s => (average_rating s, total_reviews s)) <$> (stores db !! sid).

(** The reviews of store [sid] with [is_approved = true]. *)
Definition approved_of (db : DB) (sid : N) : list Rating :=
  List.filter (fun r => (store_id r =? sid)%N && is_approved r) (ratings db).

End Models.

(* ===================================================================== *)
(** ** The controller: reviewController.js *)
(* ===================================================================== *)

Module Controller.

Local Open Scope Z_scope.

(** The values found in a reply object. *)
Inductive jsval : Type :=
| JString (s : string)
| JDate (t : Z)
| JObjectId (i : N).

(** A review document.  [reply] is a plain object, a finite map from
    property names to values. *)
Record Review : Type := mkReview {
  _id : N;
  user : N;
  store : N;
  rating : Z;
  title : option string;
  comment : option string;
  images : list string;
  helpfulVotes : Z;
  reply : option (gmap string jsval)
}.

(** A store document, with the fields that the review controller uses;
    [averageRating] is a number. *)
Record Store : Type := mkStore {
  owner : N;
  averageRating : spec_float;
  totalReviews : Z
}.

Record DB : Type := mkDB {
  reviews : list Review;
  stores : gmap N Store
}.

(** [req.user] *)
Record User : Type := mkUser {
  user_id : N;
  role : string
}.

(** [res.status(...).json({ success, message, ... })] *)
Record Response : Type := mkResponse {
  status : Z;
  message : string
}.

(** How an asynchronous call ends for its caller. *)
Inductive completion (A : Type) : Type :=
| Resolved (a : A)
| Rejected (reason : string).
Arguments Resolved {A} a.
Arguments Rejected {A} reason.

(** Which storage calls throw: [Review.find] and
    [Store.findByIdAndUpdate] of the recompute, and [Store.findById] of
    [addReview]. *)
Record Faults : Type := mkFaults {
  find_throws : bool;
  update_throws : bool;
  store_throws : bool
}.

Definition no_faults : Faults := mkFaults false false false.

(** *** updateStoreRating *)

(** [Review.find({ store: storeId })] *)
Definition find_by_store (db : DB) (storeId : N) : list Review :=
  List.filter (fun r => (store r =? storeId)%N) (reviews db).

(** Modelled from the spec: the store write of the recompute, which must
    "persist both fields onto the Store entity" in an "atomic row write for
    the Store's two derived fields together".  It stands for
    [Store.findByIdAndUpdate(storeId, { averageRating, totalReviews })] of
    the Mongoose model that the calls of the controller presuppose, which is
    not among the sources: models/Store.js is the Sequelize model and
    defines no [findByIdAndUpdate], so that with it the call throws, the
    case [update_throws] below. *)
Definition findByIdAndUpdate (db : DB) (storeId : N) (avg : spec_float) (total : Z) : DB :=
  mkDB (reviews db) (alter (fun s => mkStore (owner s) avg total) storeId (stores db)).

(** [reviews.reduce((sum, review) => sum + review.rating, 0)] *)
Definition totalRating (rs : list Review) : Z :=
  fold_left (fun sum review => sum + rating review) rs 0.

(** The body of the [try] block. *)
Definition updateStoreRating_try (flt : Faults) (db : DB) (storeId : N)
    : DB * completion unit :=
  if find_throws flt then (db, Rejected "find failed")
  else
    let rs := find_by_store db storeId in
    if (length rs =? 0)%nat then
      if update_throws flt then (db, Rejected "update failed")
      else (findByIdAndUpdate db storeId (Num.of_int 0) 0, Resolved tt)
    else
      let averageRating :=
        Num.div (Num.of_int (totalRating rs)) (Num.of_int (Z.of_nat (length rs))) in
      if update_throws flt then (db, Rejected "update failed")
      else (findByIdAndUpdate db storeId
              (Num.parseFloat_toFixed 1 averageRating) (Z.of_nat (length rs)),
            Resolved tt).

(** [updateStoreRating]: the [catch] block writes the error to the console
    and returns; the third component is the console output. *)
Definition updateStoreRating (flt : Faults) (db : DB) (storeId : N)
    : DB * completion unit * list string :=
  match updateStoreRating_try flt db storeId with
  | (db', Resolved _) => (db', Resolved tt, [])
  | (db', Rejected e) => (db', Resolved tt, ["Error updating store rating: " ++ e]%string)
  end.

Section Handlers.

(** The validation of the Mongoose schema of [Review], run by [create] and
    [save]; models/Review.js is not part of the sources at hand. *)
Variable validReview : Review -> bool.

(** *** The storage of reviews *)

(** [Review.findOne({ user, store })] *)
Definition findOne (db : DB) (u s : N) : option Review :=
  List.find (fun r => (user r =? u)%N && (store r =? s)%N) (reviews db).

(** [Review.findById(id)] *)
Definition findById (db : DB) (i : N) : option Review :=
  List.find (fun r => (_id r =? i)%N) (reviews db).

(** A fresh ObjectId. *)
Definition fresh_id (db : DB) : N :=
  N.succ (fold_right N.max 0%N (map _id (reviews db))).

Definition with_id (i : N) (r : Review) : Review :=
  mkReview i (user r) (store r) (rating r) (title r) (comment r) (images r)
    (helpfulVotes r) (reply r).

(** Modelled from the spec: the insert of the review repository, which
    "fails with ConstraintViolation if the unique pair already exists",
    relying on "a storage-level uniqueness constraint" (the unique index
    [unique_user_store_rating] of Rating.js); [Review.create] of the absent
    models/Review.js. *)
Definition Review_create (db : DB) (doc : Review) : completion (DB * Review) :=
  if negb (validReview doc) then Rejected "Review validation failed"
  else match findOne db (user doc) (store doc) with
       | Some _ => Rejected "duplicate key"
       | None =>
           let r := with_id (fresh_id db) doc in
           Resolved (mkDB (reviews db ++ [r]) (stores db), r)
       end.

(** [review.save()] of a document read from the collection. *)
Definition Review_save (db : DB) (doc : Review) : completion DB :=
  if negb (validReview doc) then Rejected "Review validation failed"
  else Resolved (mkDB (map (fun r => if (_id r =? _id doc)%N then doc else r) (reviews db))
                      (stores db)).

(** [review.deleteOne()] *)
Definition Review_deleteOne (db : DB) (doc : Review) : DB :=
  mkDB (List.filter (fun r => negb (_id r =? _id doc)%N) (reviews db)) (stores db).

(** Modelled from the spec: the "store existence checks" that "the Store
    collaborator supplies".  It stands for [Store.findById(storeId)] of the
    Mongoose model that the calls of the controller presuppose, which is not
    among the sources: models/Store.js is the Sequelize model and defines no
    [findById], so that with it the call throws, the case [store_throws]. *)
Definition Store_findById (db : DB) (storeId : N) : option Store :=
  stores db !! storeId.

(** *** addReview, one await at a time *)

Record AddReviewReq : Type := mkAddReviewReq {
  ar_user : User;
  ar_storeId : N;
  ar_errors : list string;
  ar_rating : Z;
  ar_title : option string;
  ar_comment : option string;
  ar_images : list string
}.

(** Where a running [addReview] stands: before each of its awaits, or done
    with the response it has sent. *)
Inductive pc : Type :=
| AtFindStore
| AtFindOne
| AtCreate
| AtRecompute (review : Review)
| AtPopulate (review : Review)
| Done (res : Response).

Definition server_error : Response := mkResponse 500 "Server Error".

Definition new_review (req : AddReviewReq) : Review :=
  mkReview 0%N (user_id (ar_user req)) (ar_storeId req) (ar_rating req)
    (ar_title req) (ar_comment req) (ar_images req) 0 None.

(** One step of a running [addReview]: the code up to and including its
    next storage call. *)
Definition addReview_step (flt : Faults) (db : DB) (req : AddReviewReq) (at_ : pc)
    : DB * pc :=
  match at_ with
  | AtFindStore =>
      match ar_errors req with
      | _ :: _ => (db, Done (mkResponse 400 "Validation errors"))
      | [] =>
          if store_throws flt then (db, Done server_error)
          else
            match Store_findById db (ar_storeId req) with
            | None => (db, Done (mkResponse 404 "Store not found"))
            | Some _ => (db, AtFindOne)
            end
      end
  | AtFindOne =>
      match findOne db (user_id (ar_user req)) (ar_storeId req) with
      | Some _ => (db, Done (mkResponse 400 "You have already reviewed this store"))
      | None => (db, AtCreate)
      end
  | AtCreate =>
      match Review_create db (new_review req) with
      | Rejected _ => (db, Done server_error)
      | Resolved (db', review) => (db', AtRecompute review)
      end
  | AtRecompute review =>
      let '(db', _, _) := updateStoreRating flt db (ar_storeId req) in
      (db', AtPopulate review)
  | AtPopulate review =>
      (db, Done (mkResponse 201 "Review added successfully"))
  | Done res => (db, Done res)
  end.

Fixpoint addReview_run (n : nat) (flt : Faults) (db : DB) (req : AddReviewReq)
    (at_ : pc) : DB * pc :=
  match n with
  | O => (db, at_)
  | S n' =>
      let '(db', at') := addReview_step flt db req at_ in
      addReview_run n' flt db' req at'
  end.

(** [addReview] run alone from start to end: five awaits at most. *)
Definition addReview (flt : Faults) (db : DB) (req : AddReviewReq) : DB * pc :=
  addReview_run 5 flt db req AtFindStore.

(** Several [addReview] calls in flight on one database.  A schedule is
    the order in which the calls are resumed: entry [i] lets call number
    [i] run its next step. *)
Definition World : Type := DB * list (AddReviewReq * pc).

Definition resume (flt : Faults) (w : World) (i : nat) : World :=
  match snd w !! i with
  | Some (req, at_) =>
      let '(db', at') := addReview_step flt (fst w) req at_ in
      (db', <[i := (req, at')]> (snd w))
  | None => w
  end.

Definition run_schedule (flt : Faults) (sched : list nat) (w : World) : World :=
  fold_left (resume flt) sched w.

Definition start (db : DB) (reqs : list AddReviewReq) : World :=
  (db, map (fun req => (req, AtFindStore)) reqs).

Definition is_done (p : AddReviewReq * pc) : bool :=
  match snd p with Done _ => true | _ => false end.

Definition succeeded (p : AddReviewReq * pc) : bool :=
  match snd p with Done res => status res =? 201 | _ => false end.

(** A call that has inserted its review. *)
Definition created (p : AddReviewReq * pc) : bool :=
  match snd p with
  | AtRecompute _ | AtPopulate _ => true
  | Done res => status res =? 201
  | _ => false
  end.

(** A call that has ended without success. *)
Definition failed (p : AddReviewReq * pc) : bool :=
  match snd p with Done res => negb (status res =? 201) | _ => false end.

(** The number of rows that hold the pair [(u, s)]. *)
Definition rows_of (db : DB) (u s : N) : nat :=
  length (List.filter (fun r => (user r =? u)%N && (store r =? s)%N) (reviews db)).

(** The answers that a call of a race can give: success, the
    duplicate-review error of the lookup, or the answer of the [catch]
    block. *)
Definition race_answer (p : AddReviewReq * pc) : Prop :=
  match snd p with
  | Done res =>
      res = mkResponse 201 "Review added successfully"
      \/ res = mkResponse 400 "You have already reviewed this store"
      \/ res = server_error
  | _ => True
  end.

(** The calls under study in a race: all for the pair [(u, s)], all with
    a request that passes the validators and the schema. *)
Definition well_formed (u s : N) (p : AddReviewReq * pc) : Prop :=
  user_id (ar_user (fst p)) = u /\ ar_storeId (fst p) = s
  /\ ar_errors (fst p) = [] /\ validReview (new_review (fst p)) = true.

(** The invariant of such a run: the store is there, the rows of the pair
    are the reviews inserted by the calls, at most one, and a call can only
    have failed when a row was there. *)
Record race_inv (u s : N) (w : World) : Prop := mkRaceInv {
  inv_store : is_Some (stores (fst w) !! s);
  inv_calls : Forall (well_formed u s) (snd w);
  inv_rows : rows_of (fst w) u s = length (List.filter created (snd w));
  inv_unique : (rows_of (fst w) u s <= 1)%nat;
  inv_failed : Forall (fun p => failed p = true -> (0 < rows_of (fst w) u s)%nat) (snd w)
}.

(** *** updateReview *)

Record UpdateReviewReq : Type := mkUpdateReviewReq {
  ur_user : User;
  ur_id : N;
  ur_errors : list string;
  ur_rating : option Z;
  ur_title : option string;
  ur_comment : option string;
  ur_images : option (list string)
}.

(** [a || b] where [a] is a number or undefined. *)
Definition or_number (a : option Z) (b : Z) : Z :=
  match a with
  | Some v => if v =? 0 then b else v
  | None => b
  end.

(** [a || b] where [a] is a string or undefined and [b] a string or
    undefined. *)
Definition or_string (a : option string) (b : option string) : option string :=
  match a with
  | Some v => if String.eqb v "" then b else Some v
  | None => b
  end.

(** [a || b] where [a] is an array or undefined: every array is truthy. *)
Definition or_array (a : option (list string)) (b : list string) : list string :=
  match a with
  | Some v => v
  | None => b
  end.

(** The four assignments [review.f = f || review.f]. *)
Definition assign_fields (review : Review) (req : UpdateReviewReq) : Review :=
  mkReview (_id review) (user review) (store review)
    (or_number (ur_rating req) (rating review))
    (or_string (ur_title req) (title review))
    (or_string (ur_comment req) (comment review))
    (or_array (ur_images req) (images review))
    (helpfulVotes review) (reply review).

Definition updateReview (flt : Faults) (db : DB) (req : UpdateReviewReq)
    : DB * Response :=
  match findById db (ur_id req) with
  | None => (db, mkResponse 404 "Review not found")
  | Some review =>
      if negb (user review =? user_id (ur_user req))%N
      then (db, mkResponse 403 "Access denied. You can only update your own reviews.")
      else match ur_errors req with
           | _ :: _ => (db, mkResponse 400 "Validation errors")
           | [] =>
               match Review_save db (assign_fields review req) with
               | Rejected _ => (db, server_error)
               | Resolved db1 =>
                   let '(db2, _, _) := updateStoreRating flt db1 (store review) in
                   (db2, mkResponse 200 "Review updated successfully")
               end
           end
  end.

(** *** deleteReview *)

Definition deleteReview (flt : Faults) (db : DB) (u : User) (i : N) : DB * Response :=
  match findById db i with
  | None => (db, mkResponse 404 "Review not found")
  | Some review =>
      if negb (user review =? user_id u)%N && negb (String.eqb (role u) "admin")
      then (db, mkResponse 403 "Access denied. You can only delete your own reviews.")
      else
        let storeId := store review in
        let db1 := Review_deleteOne db review in
        let '(db2, _, _) := updateStoreRating flt db1 storeId in
        (db2, mkResponse 200 "Review deleted successfully")
  end.

(** *** addReply *)

Record AddReplyReq : Type := mkAddReplyReq {
  rp_user : User;
  rp_id : N;
  rp_text : option string
}.

(** [!text] *)
Definition falsy_text (t : option string) : bool :=
  match t with
  | None => true
  | Some s => String.eqb s ""
  end.

(** The object literal [{ text, date: new Date() }]. *)
Definition reply_object (text : string) (now : Z) : gmap string jsval :=
  <["text" := JString text]> (<["date" := JDate now]> ∅).

Definition with_reply (r : Review) (v : option (gmap string jsval)) : Review :=
  mkReview (_id r) (user r) (store r) (rating r) (title r) (comment r) (images r)
    (helpfulVotes r) v.

(** [addReply]; [now] is the value of [new Date()].  A review whose store
    is gone is populated with [null], and reading its owner throws. *)
Definition addReply (now : Z) (db : DB) (req : AddReplyReq) : DB * Response :=
  match findById db (rp_id req) with
  | None => (db, mkResponse 404 "Review not found")
  | Some review =>
      match stores db !! store review with
      | None => (db, server_error)
      | Some st =>
          if negb (owner st =? user_id (rp_user req))%N
             && negb (String.eqb (role (rp_user req)) "admin")
          then (db, mkResponse 403 "Access denied. Only store owners can reply to reviews.")
          else
            if falsy_text (rp_text req)
            then (db, mkResponse 400 "Reply text is required")
            else
              let text := default "" (rp_text req) in
              match Review_save db (with_reply review (Some (reply_object text now))) with
              | Rejected _ => (db, server_error)
              | Resolved db' => (db', mkResponse 200 "Reply added successfully")
              end
      end
  end.

End Handlers.

End Controller.

(* ===================================================================== *)
(** ** Concrete tables used in the examples *)
(* ===================================================================== *)

Module Scenario.

Local Open Scope Z_scope.

(** Store 1, owned by user 9. *)
Definition shop (avg total : Z) : Models.Store :=
  Models.mkStore 1 "Joe's Cafe" 9 (Some "joes-cafe") avg total.

(** An approved rating of store 1 with [v] stars, without text. *)
Definition stars (i u : N) (v : Z) : Models.Rating :=
  Models.mkRating i u 1 v None None [] 0 None false false None true.

(** One review with 3 stars. *)
Definition db_one : Models.DB :=
  Models.mkDB [stars 1 7 3] {[ 1%N := shop 300 1 ]}.

(** Two reviews, with 5 and 3 stars. *)
Definition db_two : Models.DB :=
  Models.mkDB [stars 1 7 5; stars 2 8 3] {[ 1%N := shop 400 2 ]}.

(** Forty reviews: one with 2 stars and thirty-nine with 1 star. *)
Definition forty : list Models.Rating :=
  stars 1 1 2 :: map (fun k => stars (N.of_nat k) (N.of_nat k) 1) (seq 2 39).

Definition db_forty : Models.DB :=
  Models.mkDB forty {[ 1%N := shop 0 0 ]}.

(** A new review of store 1 by user 8, with 3 stars and no other value. *)
Definition three_stars : Models.RatingAttrs :=
  Models.mkAttrs 8 1 3 None None None None None None None None None.

(** The same store and reviews as documents of the controller. *)
Definition c_shop : Controller.Store := Controller.mkStore 9 (Num.of_int 0) 0.

Definition c_review (i u : N) (v : Z) : Controller.Review :=
  Controller.mkReview i u 1 v (Some "Good") None [] 0 None.

Definition c_db : Controller.DB :=
  Controller.mkDB [c_review 1 7 5; c_review 2 8 4; c_review 3 6 4] {[ 1%N := c_shop ]}.

Definition c_db_one : Controller.DB :=
  Controller.mkDB [c_review 1 7 5] {[ 1%N := c_shop ]}.

(** Twenty reviews of store 1: three with 2 stars and seventeen with 1
    star, the mean 1.15. *)
Definition c_db_twenty : Controller.DB :=
  Controller.mkDB
    (map (fun k => c_review (N.of_nat k) (N.of_nat k) (if (k <=? 3)%nat then 2 else 1))
       (seq 1 20))
    {[ 1%N := c_shop ]}.

Definition c_empty : Controller.DB :=
  Controller.mkDB [] {[ 1%N := c_shop ]}.

Definition customer (u : N) : Controller.User := Controller.mkUser u "customer".

(** The schema accepts ratings from 1 to 5. *)
Definition stars_1_to_5 (r : Controller.Review) : bool :=
  (1 <=? Controller.rating r) && (Controller.rating r <=? 5).

(** User 7 submits a review of store 1 with [v] stars. *)
Definition submit (v : Z) : Controller.AddReviewReq :=
  Controller.mkAddReviewReq (customer 7) 1 [] v None None [].

(** Three submits in flight.  All three find the store; calls 0 and 1 find
    no review of the pair; call 0 inserts; call 1 tries to insert; call 2
    looks the pair up; call 0 recomputes and answers. *)
Definition three_submits : list Controller.AddReviewReq :=
  [submit 5; submit 4; submit 3].

Definition racing : list nat := [0; 1; 2; 0; 1; 0; 1; 2; 0; 0]%nat.

(** The owner of review 1 sends an empty title and nothing else. *)
Definition clear_title : Controller.UpdateReviewReq :=
  Controller.mkUpdateReviewReq (customer 7) 1 [] None (Some "") None None.

(** The owner of review 1 sends 4 stars and nothing else. *)
Definition four_stars : Controller.UpdateReviewReq :=
  Controller.mkUpdateReviewReq (customer 7) 1 [] (Some 4) None None None.

(** User 9, the owner of store 1, replies to review 1. *)
Definition thanks : Controller.AddReplyReq :=
  Controller.mkAddReplyReq (Controller.mkUser 9 "store_owner") 1 (Some "Thanks").

(** The find of the recompute throws. *)
Definition find_fails : Controller.Faults := Controller.mkFaults true false false.

(** A table with a row of 9 stars, written past the validators. *)
Definition db_bad : Models.DB :=
  Models.mkDB [stars 1 7 9; stars 2 8 3] {[ 1%N := shop 500 2 ]}.

End Scenario.

(* ===================================================================== *)
(** ** More of Store.js: the slug hooks and the opening hours *)
(* ===================================================================== *)

Module StoreHooks.

Definition with_slug (s : Models.Store) (slug : option string) : Models.Store :=
  Models.mkStore (Models.st_id s) (Models.st_name s) (Models.st_owner_id s) slug
    (Models.average_rating s) (Models.total_reviews s).

(** [!store.slug] *)
Definition no_slug (v : option string) : bool :=
  match v with
  | None => true
  | Some s => String.eqb s ""
  end.

Definition same_slug (a b : option string) : bool :=
  match a, b with
  | None, None => true
  | Some x, Some y => String.eqb x y
  | _, _ => false
  end.

(** The hook [beforeCreate]: a store without a slug gets a generated one.
    [None] means that the loop of [generateSlug] has not ended within
    [fuel] lookups. *)
Definition beforeCreate (fuel : nat) (db : Models.DB) (store : Models.Store)
    : option Models.Store :=
  if no_slug (Models.st_slug store) then
    match Models.generateSlug fuel db (Models.st_name store) with
    | Some slug => Some (with_slug store (Some slug))
    | None => None
    end
  else Some store.

(** The hook [beforeUpdate]: [previous] holds the values read from the
    table, against which [store.changed(...)] compares.  A changed name
    with an unchanged slug regenerates the slug. *)
Definition beforeUpdate (fuel : nat) (db : Models.DB) (previous store : Models.Store)
    : option Models.Store :=
  if negb (String.eqb (Models.st_name store) (Models.st_name previous))
     && same_slug (Models.st_slug store) (Models.st_slug previous)
  then
    match Models.generateSlug fuel db (Models.st_name store) with
    | Some slug => Some (with_slug store (Some slug))
    | None => None
    end
  else Some store.

(** One entry of the [hours] object. *)
Record DayHours : Type := mkDayHours {
  open : option string;
  close : option string;
  closed : bool
}.

(** How a call ends: with a value or with an exception. *)
Inductive outcome (A : Type) : Type :=
| Returns (a : A)
| Throws (what : string).
Arguments Returns {A} a.
Arguments Throws {A} what.

(** [a || b] for an argument that is a string or left out, where [b] is
    the result of a call that may throw; [b] is not evaluated when [a] is
    truthy. *)
Definition or_else (a : option string) (b : outcome string) : outcome string :=
  match a with
  | Some s => if String.eqb s "" then b else Returns s
  | None => b
  end.

(** [x >= y] and [x <= y] for a string [x] and a string or undefined [y]:
    strings compare by code units, anything compared with undefined is
    false. *)
Definition str_ge (x : string) (y : option string) : bool :=
  match y with
  | Some s => String.leb s x
  | None => false
  end.

Definition str_le (x : string) (y : option string) : bool :=
  match y with
  | Some s => String.leb x s
  | None => false
  end.

(** [Store.prototype.isOpen(day, time)].  [today] and [clock] stand for the
    results of [now.toLocaleDateString(...)] and [now.toLocaleTimeString(...)],
    which are only evaluated when the argument is left out. *)
Definition isOpen (hours : option (gmap string DayHours))
    (today clock : outcome string) (day time : option string) : outcome bool :=
  match hours with
  | None => Returns false
  | Some h =>
      match or_else day today with
      | Throws e => Throws e
      | Returns currentDay =>
          match or_else time clock with
          | Throws e => Throws e
          | Returns currentTime =>
              match h !! currentDay with
              | None => Returns false
              | Some dayHours =>
                  if closed dayHours then Returns false
                  else Returns (str_ge currentTime (open dayHours)
                                && str_le currentTime (close dayHours))
              end
          end
      end
  end.

(** The default value of column [hours]. *)
Definition default_hours : gmap string DayHours :=
  let weekday := mkDayHours (Some "09:00") (Some "17:00") false in
  <["monday" := weekday]>
  (<["tuesday" := weekday]>
  (<["wednesday" := weekday]>
  (<["thursday" := weekday]>
  (<["friday" := weekday]>
  (<["saturday" := mkDayHours (Some "10:00") (Some "16:00") false]>
  (<["sunday" := mkDayHours (Some "10:00") (Some "16:00") true]> ∅)))))).

(** The two digits of a number below 100, and a time of day ["HH:MM"]. *)
Definition digit (n : nat) : ascii := ascii_of_nat (48 + n).

Definition two_digits (n : nat) : string :=
  String (digit (n / 10)) (String (digit (n mod 10)) EmptyString).

Definition hhmm (h m : nat) : string := two_digits h ++ ":" ++ two_digits m.

End StoreHooks.

(* ===================================================================== *)
(** ** More of Rating.js: the class methods *)
(* ===================================================================== *)

Module RatingQueries.

Local Open Scope Z_scope.

(** The value of a column in a [where] clause. *)
Inductive cell : Type :=
| CId (i : N)
| CNum (z : Z)
| CBool (b : bool).

Global Instance cell_eq_dec : EqDecision cell.
Proof. solve_decision. Defined.

(** The columns of a rating that the queries filter on. *)
Definition column (r : Models.Rating) (name : string) : option cell :=
  if String.eqb name "id" then Some (CId (Models.id r))
  else if String.eqb name "user_id" then Some (CId (Models.user_id r))
  else if String.eqb name "store_id" then Some (CId (Models.store_id r))
  else if String.eqb name "rating" then Some (CNum (Models.rating r))
  else if String.eqb name "helpful_votes" then Some (CNum (Models.helpful_votes r))
  else if String.eqb name "is_verified_purchase"
       then Some (CBool (Models.is_verified_purchase r))
  else if String.eqb name "is_flagged" then Some (CBool (Models.is_flagged r))
  else if String.eqb name "is_approved" then Some (CBool (Models.is_approved r))
  else None.

(** The argument [options] of the class methods, for calls that pass at
    most a [where] property (a [limit], [offset] or [order] is not
    modelled). *)
Record Options : Type := mkOptions {
  o_where : option (gmap string cell)
}.

(** The object literal passed to [findAll]:
    [{ where: { ...base, ...options.where }, order, include, ...options }].
    The properties of [options] are spread last, so an [options.where]
    replaces the [where] built just before. *)
Definition query_where (base : gmap string cell) (options : Options) : gmap string cell :=
  let merged := default ∅ (o_where options) ∪ base in
  match o_where options with
  | Some w => w
  | None => merged
  end.

(** A row satisfies a [where] clause of equalities. *)
Definition matches (w : gmap string cell) (r : Models.Rating) : bool :=
  bool_decide (map_Forall (fun name v => column r name = Some v) w).

(** The rows that [findAll] selects (in the order of the table; the
    [order] clause is left out). *)
Definition selected (db : Models.DB) (w : gmap string cell) : list Models.Rating :=
  List.filter (matches w) (Models.ratings db).

Definition findByStore (db : Models.DB) (storeId : N) (options : Options) : list Models.Rating :=
  selected db
    (query_where (<["store_id" := CId storeId]> (<["is_approved" := CBool true]> ∅)) options).

(** *** getRatingDistribution *)

(** [v] put into a list of distinct values in descending order. *)
Fixpoint insert_desc (v : Z) (l : list Z) : list Z :=
  match l with
  | [] => [v]
  | x :: t =>
      if x <? v then v :: l
      else if x =? v then l
      else x :: insert_desc v t
  end.

(** The groups of [GROUP BY rating ORDER BY rating DESC]. *)
Definition groups (rs : list Models.Rating) : list Z :=
  fold_right insert_desc [] (map Models.rating rs).

Definition count_rating (rs : list Models.Rating) (v : Z) : Z :=
  Z.of_nat (length (List.filter (fun r => Models.rating r =? v) rs)).

(** The raw rows of the query: each rating value of the approved reviews of
    the store with its count. *)
Definition distribution_rows (db : Models.DB) (storeId : N) : list (Z * Z) :=
  map (fun v => (v, count_rating (Models.approved_of db storeId) v))
    (groups (Models.approved_of db storeId)).

(** [{ 5: 0, 4: 0, 3: 0, 2: 0, 1: 0 }] *)
Definition empty_distribution : gmap Z Z :=
  <[5 := 0]> (<[4 := 0]> (<[3 := 0]> (<[2 := 0]> (<[1 := 0]> ∅)))).

(** [result.forEach(item => distribution[item.rating] = parseInt(item.count))] *)
Definition getRatingDistribution (db : Models.DB) (storeId : N) : gmap Z Z :=
  fold_left (fun d item => <[fst item := snd item]> d)
    (distribution_rows db storeId) empty_distribution.

End RatingQueries.

(* ===================================================================== *)
(** ** The model User: the email column *)
(* ===================================================================== *)

Module Users.

(** A row of table [users], with the columns that the lookup by email
    uses. *)
Record User : Type := mkUser {
  u_id : N;
  u_email : string;
  u_is_active : bool
}.

(** [value.toLowerCase().trim()] *)
Definition normalize (value : string) : string := Slug.trim (Slug.toLowerCase value).

(** The setter of column [email]. *)
Definition set_email (u : User) (value : string) : User :=
  mkUser (u_id u) (normalize value) (u_is_active u).

(** [User.findByEmail(email)] *)
Definition findByEmail (users : list User) (email : string) : option User :=
  List.find (fun u => String.eqb (u_email u) (normalize email)) users.

(** A string that does not begin with white space. *)
Definition no_lead (s : string) : Prop :=
  match s with
  | EmptyString => True
  | String c _ => Slug.is_space c = false
  end.

End Users.

(* ===================================================================== *)
(** ** More of reviewController.js: votes and sequences of calls *)
(* ===================================================================== *)

Module Reviews.

Import Controller.

Local Open Scope Z_scope.

Section Handlers.

Variable validReview : Review -> bool.

Definition with_votes (r : Review) (v : Z) : Review :=
  mkReview (_id r) (user r) (store r) (rating r) (title r) (comment r) (images r)
    v (reply r).

(** [voteReview]; [helpfulVotes] is an integer below 2^53 in absolute
    value, where [+= 1] on numbers is exact. *)
Definition voteReview (db : DB) (u : User) (i : N) : DB * Response :=
  match findById db i with
  | None => (db, mkResponse 404 "Review not found")
  | Some review =>
      if (user review =? user_id u)%N
      then (db, mkResponse 400 "You cannot vote on your own review")
      else
        match Review_save validReview db (with_votes review (helpfulVotes review + 1)) with
        | Rejected _ => (db, server_error)
        | Resolved db' => (db', mkResponse 200 "Vote recorded successfully")
        end
  end.

(** A request to one of the handlers that write. *)
Inductive call : Type :=
| AddReview (req : AddReviewReq)
| UpdateReview (req : UpdateReviewReq)
| DeleteReview (u : User) (i : N)
| AddReply (now : Z) (req : AddReplyReq)
| VoteReview (u : User) (i : N).

(** The database after a call has been served, each call running alone. *)
Definition serve (flt : Faults) (db : DB) (c : call) : DB :=
  match c with
  | AddReview req => fst (addReview validReview flt db req)
  | UpdateReview req => fst (updateReview validReview flt db req)
  | DeleteReview u i => fst (deleteReview flt db u i)
  | AddReply now req => fst (addReply validReview now db req)
  | VoteReview u i => fst (voteReview db u i)
  end.

Definition serve_all (flt : Faults) (db : DB) (cs : list call) : DB :=
  fold_left (serve flt) cs db.

(** The same user votes [n] times for review [i]. *)
Fixpoint vote_times (n : nat) (db : DB) (u : User) (i : N) : DB :=
  match n with
  | O => db
  | S n' => vote_times n' (fst (voteReview db u i)) u i
  end.

End Handlers.

(** No two reviews share an id. *)
Definition unique_ids (db : DB) : Prop := NoDup (map _id (reviews db)).

(** The counter of every store is the number of its reviews. *)
Definition counters_right (db : DB) : Prop :=
  forall s st, stores db !! s = Some st ->
    totalReviews st = Z.of_nat (length (find_by_store db s)).

End Reviews.

(* ===================================================================== *)
(** * Properties *)
(* ===================================================================== *)

(** ** Slugs *)

Section SlugFacts.

Import Slug.

Example baseSlug_joes_cafe : baseSlug "Joe's Cafe" = "joes-cafe".
Proof. reflexivity. Qed.

Example baseSlug_runs : baseSlug "A  b -- C_d" = "a-b-cd".
Proof. reflexivity. Qed.

Example baseSlug_accents : baseSlug (String (ascii_of_N 201) "clair") = "clair".
Proof. reflexivity. Qed.

Example candidate_12 : candidate "joes-cafe" 12 = "joes-cafe-12".
Proof. reflexivity. Qed.

(** Facts about single characters, by enumeration of the 256 code units. *)
Ltac by_cases_on_char c :=
  destruct c as [[] [] [] [] [] [] [] []]; vm_compute; try reflexivity; try discriminate.

Lemma slug_char_not_space c : slug_char c = true -> is_space c = false.
Proof. by_cases_on_char c. Qed.

Lemma keep_not_space_slug c : keep_char c = true -> is_space c = false -> slug_char c = true.
Proof. by_cases_on_char c. Qed.

Lemma hyphen_is_slug_char c : is_hyphen c = true -> slug_char c = true.
Proof. by_cases_on_char c. Qed.

Lemma is_hyphen_eq c : is_hyphen c = true -> c = "-"%char.
Proof. by_cases_on_char c. Qed.

Lemma digit_is_slug_char c : is_digit c = true -> slug_char c = true.
Proof. by_cases_on_char c. Qed.

Lemma strip_keeps s : all_chars keep_char (strip s) = true.
Proof.
  induction s as [|c s IH]; simpl; [reflexivity|].
  destruct (keep_char c) eqn:E; simpl; [rewrite E|]; assumption.
Qed.

Lemma replace_spaces_slug s b :
  all_chars keep_char s = true ->
  all_chars slug_char (replace_runs is_space b s) = true.
Proof.
  revert b. induction s as [|c s IH]; intros b H; simpl in *; [reflexivity|].
  apply andb_true_iff in H as [Hc Hs].
  destruct (is_space c) eqn:E.
  - destruct b; simpl; auto.
  - simpl. rewrite (keep_not_space_slug c Hc E). simpl. auto.
Qed.

Lemma replace_hyphens_slug s b :
  all_chars slug_char s = true ->
  all_chars slug_char (replace_runs is_hyphen b s) = true.
Proof.
  revert b. induction s as [|c s IH]; intros b H; simpl in *; [reflexivity|].
  apply andb_true_iff in H as [Hc Hs].
  destruct (is_hyphen c) eqn:E.
  - destruct b; simpl; auto.
  - simpl. rewrite Hc. simpl. auto.
Qed.

(** After a hyphen has been written, the rest of the run writes none. *)
Lemma replace_hyphens_in_run s :
  starts_with_hyphen (replace_runs is_hyphen true s) = false.
Proof.
  induction s as [|c s IH]; simpl; [reflexivity|].
  destruct (is_hyphen c) eqn:E; simpl; [assumption | exact E].
Qed.

Lemma replace_hyphens_single s b :
  double_hyphen (replace_runs is_hyphen b s) = false.
Proof.
  revert b. induction s as [|c s IH]; intros b; simpl; [reflexivity|].
  destruct (is_hyphen c) eqn:E.
  - destruct b; simpl; [apply IH|].
    rewrite replace_hyphens_in_run, IH. reflexivity.
  - simpl. rewrite E, IH. reflexivity.
Qed.

Lemma trimEnd_no_space s : all_chars slug_char s = true -> trimEnd s = s.
Proof.
  induction s as [|c s IH]; simpl; [reflexivity|].
  intros H. apply andb_true_iff in H as [Hc Hs].
  rewrite (IH Hs), (slug_char_not_space c Hc). destruct s; reflexivity.
Qed.

Lemma trimStart_no_space s : all_chars slug_char s = true -> trimStart s = s.
Proof.
  destruct s as [|c s]; simpl; [reflexivity|].
  intros H. apply andb_true_iff in H as [Hc _].
  rewrite (slug_char_not_space c Hc). reflexivity.
Qed.

(** [trim] finds no white space to remove: it is the identity here. *)
Lemma trim_no_space s : all_chars slug_char s = true -> trim s = s.
Proof.
  intros H. unfold trim. rewrite (trimStart_no_space s H). apply trimEnd_no_space, H.
Qed.

Lemma toLowerCase_strip_empty name :
  String.eqb (strip (toLowerCase name)) "" = negb (any_char survives name).
Proof.
  induction name as [|c s IH]; simpl; [reflexivity|].
  unfold survives at 1. destruct (keep_char (lower_char c)); simpl; [reflexivity | exact IH].
Qed.

Lemma replace_runs_empty p s :
  String.eqb (replace_runs p false s) "" = String.eqb s "".
Proof. destruct s as [|c s]; simpl; [reflexivity|]. destruct (p c); reflexivity. Qed.

Lemma baseSlug_unfold name :
  baseSlug name =
  replace_runs is_hyphen false (replace_runs is_space false (strip (toLowerCase name))).
Proof.
  unfold baseSlug. apply trim_no_space, replace_hyphens_slug, replace_spaces_slug, strip_keeps.
Qed.

Lemma all_chars_app p s t :
  all_chars p (s ++ t) = all_chars p s && all_chars p t.
Proof.
  induction s as [|c s IH]; simpl; [reflexivity|]. rewrite IH, andb_assoc. reflexivity.
Qed.

Lemma decimal_digits n : all_chars is_digit (decimal n) = true.
Proof.
  unfold decimal. generalize (N.to_uint n). intros d.
  induction d; simpl; try rewrite IHd; reflexivity.
Qed.

Lemma all_chars_weaken (p q : ascii -> bool) s :
  (forall c, p c = true -> q c = true) -> all_chars p s = true -> all_chars q s = true.
Proof.
  intros Hpq. induction s as [|c s IH]; simpl; [reflexivity|].
  intros H. apply andb_true_iff in H as [Hc Hs]. rewrite (Hpq c Hc), (IH Hs). reflexivity.
Qed.

Lemma candidate_slug base n :
  all_chars slug_char base = true -> all_chars slug_char (candidate base n) = true.
Proof.
  intros H. unfold candidate. rewrite !all_chars_app, H. simpl.
  apply (all_chars_weaken is_digit slug_char), decimal_digits. exact digit_is_slug_char.
Qed.

Lemma probe_slug fuel existsFn base slug n :
  all_chars slug_char base = true ->
  all_chars slug_char slug = true ->
  match probe fuel existsFn base slug n with
  | Some r => all_chars slug_char r = true
  | None => True
  end.
Proof.
  intros Hb. revert slug n. induction fuel as [|fuel IH]; intros slug n Hs; simpl; [exact I|].
  destruct (existsFn slug); [|exact Hs].
  apply IH, candidate_slug, Hb.
Qed.

(** X4. What the chain of string methods computes.  The base slug is the name
    lower-cased, stripped of the characters outside [[a-z0-9 -]], with
    every run of spaces and then every run of hyphens replaced by one
    hyphen: by the time [trim] is called no white space is left for it to
    remove.  The base consists of characters of [[a-z0-9-]] only, never has
    two hyphens in a row, and is empty exactly when no character of the name
    survives; every slug that [generateSlug] returns consists of characters
    of [[a-z0-9-]] only. *)
Lemma generateSlug_shape (name : string) :
  baseSlug name =
    replace_runs is_hyphen false (replace_runs is_space false (strip (toLowerCase name)))
  /\ all_chars slug_char (baseSlug name) = true
  /\ double_hyphen (baseSlug name) = false
  /\ String.eqb (baseSlug name) "" = negb (any_char survives name)
  /\ forall fuel existsFn,
       match generateSlug fuel existsFn name with
       | Some slug => all_chars slug_char slug = true
       | None => True
       end.
Proof.
  assert (Hs : all_chars slug_char (baseSlug name) = true).
  { rewrite baseSlug_unfold. apply replace_hyphens_slug, replace_spaces_slug, strip_keeps. }
  split; [apply baseSlug_unfold|].
  split; [exact Hs|].
  split; [rewrite baseSlug_unfold; apply replace_hyphens_single|].
  split.
  - rewrite baseSlug_unfold, !replace_runs_empty. apply toLowerCase_strip_empty.
  - intros fuel existsFn. unfold generateSlug. apply probe_slug; exact Hs.
Qed.

(** C4 (the code departs from the claim).  With no slug taken, the name
    [" Joe's "] yields ["-joes-"], which begins and ends with a hyphen: the
    edge spaces have become hyphens before [trim] is called, and [trim]
    removes white space only, so that on no name does it remove anything.
    The name ["!!"] yields the empty slug, which the validator of column
    [slug], [/^[a-z0-9-]+$/], refuses. *)
Theorem generateSlug_edge_hyphens :
  generateSlug 1 (fun _ => false) " Joe's " = Some "-joes-"
  /\ starts_with_hyphen "-joes-" = true
  /\ ends_with_hyphen "-joes-" = true
  /\ generateSlug 1 (fun _ => false) "!!" = Some ""
  /\ matches_slug_re "" = false
  /\ (forall name,
       trim (replace_runs is_hyphen false
               (replace_runs is_space false (strip (toLowerCase name))))
       = replace_runs is_hyphen false
           (replace_runs is_space false (strip (toLowerCase name)))).
Proof.
  repeat split. intros name. apply trim_no_space, replace_hyphens_slug,
    replace_spaces_slug, strip_keeps.
Qed.

(** The loop, started at attempt number [i], stops at the first free
    attempt [i + d]. *)
Lemma probe_first_free existsFn base d :
  forall i fuel,
    (forall j, (i <= j < i + d)%nat -> existsFn (attempt base j) = true) ->
    existsFn (attempt base (i + d)) = false ->
    (d < fuel)%nat ->
    probe fuel existsFn base (attempt base i) (N.of_nat (S i)) = Some (attempt base (i + d)).
Proof.
  induction d as [|d IH]; intros i fuel Htaken Hfree Hfuel.
  - destruct fuel as [|fuel]; [lia|]. simpl.
    rewrite Nat.add_0_r in Hfree. rewrite Hfree, Nat.add_0_r. reflexivity.
  - destruct fuel as [|fuel]; [lia|]. simpl.
    rewrite (Htaken i) by lia.
    replace (N.of_nat (S i) + 1)%N with (N.of_nat (S (S i))) by lia.
    change (candidate base (N.of_nat (S i))) with (attempt base (S i)).
    replace (i + S d)%nat with (S i + d)%nat in * by lia.
    apply IH; [intros j Hj; apply Htaken; lia | exact Hfree | lia].
Qed.

(** *** The probes of the loop are the probes of the specification *)

Lemma string_of_digit_uint (j : nat) (d : Decimal.uint) :
  (j < 10)%nat ->
  NilEmpty.string_of_uint (digit_uint j d) = String (digit_char j) (NilEmpty.string_of_uint d).
Proof.
  intros Hj. do 10 (destruct j as [|j]; [reflexivity|]). lia.
Qed.

Lemma string_of_uint_digits (fuel : nat) :
  forall k acc,
    NilEmpty.string_of_uint (uint_digits fuel k acc)
    = spec_digits fuel k (NilEmpty.string_of_uint acc).
Proof.
  induction fuel as [|fuel IH]; intros k acc; [reflexivity|].
  cbn [uint_digits spec_digits].
  destruct (k <? 10)%nat.
  - apply string_of_digit_uint, Nat.mod_upper_bound. lia.
  - rewrite IH, string_of_digit_uint; [reflexivity|]. apply Nat.mod_upper_bound. lia.
Qed.

(** The value of a number of [Decimal] with one more leading digit. *)
Lemma of_uint_digit (j : nat) (d : Decimal.uint) :
  (j < 10)%nat ->
  (N.of_uint (digit_uint j d)
   = N.of_uint d + N.of_nat j * 10 ^ DecimalPos.Unsigned.usize d)%N.
Proof.
  intros Hj. unfold N.of_uint.
  rewrite !DecimalPos.Unsigned.of_uint_alt.
  do 10 (destruct j as [|j];
         [unfold digit_uint, Decimal.rev; simpl Decimal.revapp;
          rewrite DecimalPos.Unsigned.of_lu_revapp; reflexivity|]).
  lia.
Qed.

Lemma usize_digit (j : nat) (d : Decimal.uint) :
  DecimalPos.Unsigned.usize (digit_uint j d) = N.succ (DecimalPos.Unsigned.usize d).
Proof. do 9 (destruct j as [|j]; [reflexivity|]). reflexivity. Qed.

Lemma of_uint_digits (fuel : nat) :
  forall k acc,
    (k < fuel)%nat ->
    (N.of_uint (uint_digits fuel k acc)
     = N.of_uint acc + N.of_nat k * 10 ^ DecimalPos.Unsigned.usize acc)%N.
Proof.
  induction fuel as [|fuel IH]; intros k acc Hk; [lia|]. cbn [uint_digits].
  assert (Hm : (k mod 10 < 10)%nat) by (apply Nat.mod_upper_bound; lia).
  destruct (k <? 10)%nat eqn:E.
  - apply Nat.ltb_lt in E. rewrite of_uint_digit by exact Hm.
    rewrite Nat.mod_small by exact E. reflexivity.
  - apply Nat.ltb_ge in E.
    assert (Hd : (k / 10 < fuel)%nat).
    { apply Nat.Div0.div_lt_upper_bound. lia. }
    rewrite IH by exact Hd. rewrite of_uint_digit by exact Hm.
    rewrite usize_digit, N.pow_succ_r'.
    rewrite (Nat.div_mod_eq k 10) at 3.
    rewrite Nat2N.inj_add, Nat2N.inj_mul. change (N.of_nat 10) with 10%N. lia.
Qed.

Lemma unorm_digit (j : nat) (d : Decimal.uint) :
  (0 < j)%nat -> Decimal.unorm (digit_uint j d) = digit_uint j d.
Proof.
  intros Hj. destruct j as [|j]; [lia|].
  do 8 (destruct j as [|j]; [reflexivity|]). reflexivity.
Qed.

Lemma unorm_digits (fuel : nat) :
  forall k acc,
    (0 < k < fuel)%nat ->
    Decimal.unorm (uint_digits fuel k acc) = uint_digits fuel k acc.
Proof.
  induction fuel as [|fuel IH]; intros k acc Hk; [lia|]. cbn [uint_digits].
  destruct (k <? 10)%nat eqn:E.
  - apply Nat.ltb_lt in E. rewrite Nat.mod_small by exact E. apply unorm_digit. lia.
  - apply Nat.ltb_ge in E. apply IH. split.
    + apply Nat.div_str_pos. lia.
    + apply Nat.Div0.div_lt_upper_bound. lia.
Qed.

(** The template literal prints the counter as the specification writes
    it. *)
Lemma decimal_spec (k : nat) : decimal (N.of_nat k) = spec_numeral k.
Proof.
  unfold decimal, spec_numeral.
  change "" with (NilEmpty.string_of_uint Decimal.Nil).
  rewrite <- string_of_uint_digits. f_equal.
  assert (Hv : N.of_uint (uint_digits (S k) k Decimal.Nil) = N.of_nat k).
  { rewrite of_uint_digits by lia. simpl. lia. }
  rewrite <- Hv, DecimalN.Unsigned.to_of.
  destruct k as [|k]; [reflexivity|]. apply unorm_digits. lia.
Qed.

Lemma attempt_spec (base : string) (k : nat) : attempt base k = spec_attempt base k.
Proof.
  destruct k as [|k]; [reflexivity|].
  unfold attempt, spec_attempt, candidate. rewrite decimal_spec. reflexivity.
Qed.

(** C5. If the base slug is free it is returned ([k = 0]); otherwise the
    loop probes [base-1], [base-2], ... in this order, the number written in
    decimal, and returns the first one that the oracle reports free:
    whenever probes [0 .. k-1] are taken and probe [k] is free,
    [generateSlug] returns probe [k] (given fuel for [k + 1] lookups).  The
    probes are those of the specification, [spec_attempt]. *)
Theorem generateSlug_first_free (name : string) (existsFn : string -> bool) (k fuel : nat) :
  (forall j, (j < k)%nat -> existsFn (spec_attempt (baseSlug name) j) = true) ->
  existsFn (spec_attempt (baseSlug name) k) = false ->
  (k < fuel)%nat ->
  generateSlug fuel existsFn name = Some (spec_attempt (baseSlug name) k).
Proof.
  intros Htaken Hfree Hfuel. unfold generateSlug.
  rewrite <- attempt_spec in *.
  change (baseSlug name) with (attempt (baseSlug name) 0) at 2.
  change 1%N with (N.of_nat 1).
  apply (probe_first_free existsFn (baseSlug name) k 0 fuel); auto.
  intros j Hj. rewrite attempt_spec. apply Htaken. lia.
Qed.

(** "Joe's Cafe" submitted when [joes-cafe] exists yields [joes-cafe-1];
    when [joes-cafe-1] exists as well it yields [joes-cafe-2]; and when the
    base and the first eleven numbered slugs exist it yields
    [joes-cafe-12]. *)
Lemma generateSlug_first_free_witness :
  generateSlug 2 (String.eqb "joes-cafe") "Joe's Cafe" = Some "joes-cafe-1"
  /\ generateSlug 3 (fun s => String.eqb s "joes-cafe" || String.eqb s "joes-cafe-1")
       "Joe's Cafe" = Some "joes-cafe-2"
  /\ generateSlug 13 (fun s => negb (String.eqb s "joes-cafe-12")) "Joe's Cafe"
     = Some "joes-cafe-12".
Proof.
  split; [|split].
  - apply (generateSlug_first_free "Joe's Cafe" (String.eqb "joes-cafe") 1 2).
    + intros j Hj. destruct j as [|j]; [reflexivity | lia].
    + reflexivity.
    + lia.
  - apply (generateSlug_first_free "Joe's Cafe"
             (fun s => String.eqb s "joes-cafe" || String.eqb s "joes-cafe-1") 2 3).
    + intros j Hj. do 2 (destruct j as [|j]; [reflexivity|]). lia.
    + reflexivity.
    + lia.
  - apply (generateSlug_first_free "Joe's Cafe"
             (fun s => negb (String.eqb s "joes-cafe-12")) 12 13).
    + intros j Hj. do 12 (destruct j as [|j]; [reflexivity|]). lia.
    + reflexivity.
    + lia.
Defined.

End SlugFacts.

(** ** The double quotient of two integers

    [SFdiv] of the standard library, followed through its rounding for the
    operands that the recomputes give it: two positive integers below
    [2^53]. *)

Section Doubles.

Import Num.
Local Open Scope Z_scope.

Lemma digits_size p : digits2_pos p = Pos.size p.
Proof. induction p; simpl; congruence. Qed.

Lemma digits_bounds p : 2 ^ (Z.pos (digits2_pos p) - 1) <= Z.pos p < 2 ^ Z.pos (digits2_pos p).
Proof.
  rewrite digits_size. split.
  - pose proof (Pos.size_le p) as H.
    assert (Z.pos (2 ^ Pos.size p) <= Z.pos p~0) by (apply Pos2Z.pos_le_pos; exact H).
    rewrite Pos2Z.inj_pow in H0.
    replace (Z.pos (Pos.size p)) with (Z.succ (Z.pos (Pos.size p) - 1)) in H0 by lia.
    rewrite Z.pow_succ_r in H0 by lia. lia.
  - pose proof (Pos.size_gt p) as H.
    assert (Z.pos p < Z.pos (2 ^ Pos.size p)) by (apply Pos2Z.pos_lt_pos; exact H).
    rewrite Pos2Z.inj_pow in H0. exact H0.
Qed.

Lemma digits_unique p k : 2 ^ (k - 1) <= Z.pos p < 2 ^ k -> Z.pos (digits2_pos p) = k.
Proof.
  intros [H1 H2]. pose proof (digits_bounds p) as [H3 H4].
  assert (0 < k).
  { destruct (Z_lt_le_dec 0 k); [assumption|].
    assert (2 ^ k <= 2 ^ 0) by (destruct (Z.eq_dec k 0); [subst; lia | rewrite Z.pow_neg_r by lia; simpl; lia]).
    simpl in H. lia. }
  destruct (Z.lt_trichotomy (Z.pos (digits2_pos p)) k) as [Hlt|[Heq|Hgt]]; [|assumption|].
  - assert (2 ^ Z.pos (digits2_pos p) <= 2 ^ (k - 1)) by (apply Z.pow_le_mono_r; lia). lia.
  - assert (2 ^ k <= 2 ^ (Z.pos (digits2_pos p) - 1)) by (apply Z.pow_le_mono_r; lia). lia.
Qed.

Lemma iter_xO p d : Z.pos (Pos.iter xO p d) = Z.pos p * 2 ^ Z.pos d.
Proof.
  revert p. induction d using Pos.peano_ind; intros p.
  - simpl. lia.
  - rewrite Pos.iter_succ. rewrite Pos2Z.inj_xO, IHd, Pos2Z.inj_succ, Z.pow_succ_r by lia. lia.
Qed.


Lemma shr_fexp_53 m e l :
  Z.pos (digits2_pos m) = 53 -> -1074 <= e ->
  shr_fexp prec emax (Z.pos m) e l = (shr_record_of_loc (Z.pos m) l, e).
Proof.
  intros Hd He. unfold shr_fexp, fexp, emin, prec, emax. simpl Zdigits2. rewrite Hd.
  replace (Z.max (53 + e - 53) (3 - 1024 - 53) - e) with 0 by lia. reflexivity.
Qed.

Lemma shr_fexp_54 m e l :
  Z.pos (digits2_pos m) = 54 -> -1075 <= e ->
  shr_fexp prec emax (Z.pos m) e l = (shr_1 (shr_record_of_loc (Z.pos m) l), e + 1).
Proof.
  intros Hd He. unfold shr_fexp, fexp, emin, prec, emax. simpl Zdigits2. rewrite Hd.
  replace (Z.max (54 + e - 53) (3 - 1024 - 53) - e) with 1 by lia. reflexivity.
Qed.

Lemma round_aux_exact m e :
  Z.pos (digits2_pos m) = 53 -> -1074 <= e <= 971 ->
  binary_round_aux prec emax false (Z.pos m) e loc_Exact = S754_finite false m e.
Proof.
  intros Hd He. unfold binary_round_aux.
  rewrite (shr_fexp_53 m e loc_Exact Hd) by lia. simpl.
  rewrite (shr_fexp_53 m e loc_Exact Hd) by lia. simpl.
  change (emax - prec) with 971.
  destruct (e <=? 971) eqn:E; [reflexivity|].
  apply Z.leb_gt in E. lia.
Qed.

(** The double of a positive integer below [2^53]: a mantissa of 53 bits
    and the matching exponent, the value kept. *)
Lemma of_int_pos p :
  Z.pos p < 2 ^ 53 ->
  exists m e, of_int (Z.pos p) = S754_finite false m e
    /\ Z.pos (digits2_pos m) = 53 /\ -52 <= e <= 0 /\ Z.pos m = Z.pos p * 2 ^ (- e).
Proof.
  intros Hp. unfold of_int, binary_normalize, binary_round.
  pose proof (digits_bounds p) as Hd.
  set (d := Z.pos (digits2_pos p)) in *.
  assert (Hd53 : 1 <= d <= 53).
  { split; [unfold d; lia|].
    destruct (Z_le_gt_dec d 53); [assumption|].
    assert (2 ^ 53 <= 2 ^ (d - 1)) by (apply Z.pow_le_mono_r; lia). lia. }
  unfold shl_align, fexp, emin, prec, emax.
  replace (Z.max (d + 0 - 53) (3 - 1024 - 53) - 0) with (d - 53) by lia.
  replace (Z.max (d + 0 - 53) (3 - 1024 - 53)) with (d - 53) by lia.
  destruct (d - 53) as [|k|k] eqn:Ek; [|lia|].
  - exists p, 0. split; [apply round_aux_exact; unfold d in *; lia|].
    split; [unfold d in *; lia|]. split; [lia|]. simpl. lia.
  - exists (Pos.iter xO p k), (Z.neg k).
    assert (Hm : Z.pos (Pos.iter xO p k) = Z.pos p * 2 ^ Z.pos k) by apply iter_xO.
    assert (Hdm : Z.pos (digits2_pos (Pos.iter xO p k)) = 53).
    { apply digits_unique. rewrite Hm.
      assert (E1 : 2 ^ (53 - 1) = 2 ^ (d - 1) * 2 ^ Z.pos k)
        by (rewrite <- Z.pow_add_r by lia; f_equal; lia).
      assert (E2 : 2 ^ 53 = 2 ^ d * 2 ^ Z.pos k)
        by (rewrite <- Z.pow_add_r by lia; f_equal; lia).
      rewrite E1, E2.
      assert (0 < 2 ^ Z.pos k) by (apply Z.pow_pos_nonneg; lia).
      destruct Hd as [Hd1 Hd2]. split.
      - apply Z.mul_le_mono_nonneg_r; [lia | exact Hd1].
      - apply Z.mul_lt_mono_pos_r; [lia | exact Hd2]. }
    split; [apply round_aux_exact; [exact Hdm | lia]|].
    split; [exact Hdm|]. split; [lia|].
    rewrite Hm. reflexivity.
Qed.

Lemma loc_roundtrip m l : loc_of_shr_record (shr_record_of_loc m l) = l.
Proof. destruct l as [|[]]; reflexivity. Qed.

Lemma new_location_spec D r :
  0 < D -> 0 <= r < D ->
  new_location D r = if r =? 0 then loc_Exact else loc_Inexact (2 * r ?= D).
Proof.
  intros HD Hr. unfold new_location, new_location_even, new_location_odd.
  destruct (Z.even D) eqn:Ev; [reflexivity|].
  destruct (r =? 0); [reflexivity|]. f_equal.
  assert (Hodd : Z.odd D = true) by (rewrite <- Z.negb_even, Ev; reflexivity).
  apply Z.odd_spec in Hodd as [h Hh].
  destruct (2 * r + 1 ?= D) eqn:C1; destruct (2 * r ?= D) eqn:C2; try reflexivity;
    rewrite ?Z.compare_eq_iff, ?Z.compare_lt_iff, ?Z.compare_gt_iff in *; lia.
Qed.

Lemma second_stage M e :
  2 ^ 52 <= M <= 2 ^ 53 -> -1074 <= e <= 969 ->
  (let '(mrs, e2) := shr_fexp prec emax M e loc_Exact in
   match shr_m mrs with
   | 0 => S754_zero false
   | Z.pos m => if e2 <=? emax - prec then S754_finite false m e2 else S754_infinity false
   | Z.neg _ => S754_nan
   end)
  = if M <? 2 ^ 53 then S754_finite false (Z.to_pos M) e else S754_finite false two_52 (e + 1).
Proof.
  intros HM He. change (emax - prec) with 971.
  destruct M as [|pm|pm]; try (exfalso; simpl in HM; lia).
  destruct (Z.pos pm <? 2 ^ 53) eqn:E.
  - apply Z.ltb_lt in E.
    assert (Hd : Z.pos (digits2_pos pm) = 53) by (apply digits_unique; simpl; lia).
    rewrite (shr_fexp_53 pm e loc_Exact Hd) by lia. simpl shr_m.
    destruct (e <=? 971) eqn:E2; [reflexivity | apply Z.leb_gt in E2; lia].
  - apply Z.ltb_ge in E. assert (Hpm : Z.pos pm = 2 ^ 53) by lia.
    assert (Hd : Z.pos (digits2_pos pm) = 54) by (apply digits_unique; simpl; lia).
    rewrite (shr_fexp_54 pm e loc_Exact Hd) by lia.
    injection Hpm as ->. simpl shr_m.
    destruct (e + 1 <=? 971) eqn:E2; [reflexivity | apply Z.leb_gt in E2; lia].
Qed.

Lemma rne_bounds q l : q <= round_nearest_even q l <= q + 1.
Proof. unfold round_nearest_even. destruct l as [|[]]; try destruct (Z.even q); lia. Qed.

Lemma shr_1_pos pq r0 s0 :
  shr_1 (Build_shr_record (Z.pos pq) r0 s0)
  = Build_shr_record (Z.pos pq / 2) (Z.odd (Z.pos pq)) (r0 || s0).
Proof.
  destruct pq as [p|p|]; simpl shr_1.
  - f_equal. rewrite Pos2Z.inj_xI. apply (Z.div_unique _ 2 _ 1); lia.
  - f_equal. rewrite Pos2Z.inj_xO. apply (Z.div_unique _ 2 _ 0); lia.
  - reflexivity.
Qed.

Lemma round_aux_53 pq e l :
  Z.pos (digits2_pos pq) = 53 -> -1074 <= e <= 969 ->
  binary_round_aux prec emax false (Z.pos pq) e l
  = if round_nearest_even (Z.pos pq) l <? 2 ^ 53
    then S754_finite false (Z.to_pos (round_nearest_even (Z.pos pq) l)) e
    else S754_finite false two_52 (e + 1).
Proof.
  intros Hd He. unfold binary_round_aux.
  rewrite (shr_fexp_53 pq e l Hd) by lia. rewrite loc_roundtrip.
  replace (shr_m (shr_record_of_loc (Z.pos pq) l)) with (Z.pos pq)
    by (destruct l as [|[]]; reflexivity).
  apply second_stage; [|lia].
  pose proof (digits_bounds pq) as Hb. rewrite Hd in Hb.
  pose proof (rne_bounds (Z.pos pq) l). change (53 - 1) with 52 in Hb. lia.
Qed.

Lemma shr_1_loc pq l : shr_1 (shr_record_of_loc (Z.pos pq) l) = halved pq l.
Proof. destruct l as [|[]]; simpl shr_record_of_loc; rewrite shr_1_pos; reflexivity. Qed.

Lemma round_aux_54 pq e l :
  Z.pos (digits2_pos pq) = 54 -> -1075 <= e <= 968 ->
  binary_round_aux prec emax false (Z.pos pq) e l
  = if round_nearest_even (Z.pos pq / 2) (loc_of_shr_record (halved pq l)) <? 2 ^ 53
    then S754_finite false
           (Z.to_pos (round_nearest_even (Z.pos pq / 2) (loc_of_shr_record (halved pq l))))
           (e + 1)
    else S754_finite false two_52 (e + 1 + 1).
Proof.
  intros Hd He. unfold binary_round_aux.
  rewrite (shr_fexp_54 pq e l Hd) by lia. rewrite shr_1_loc.
  change (shr_m (halved pq l)) with (Z.pos pq / 2).
  apply second_stage; [|lia].
  pose proof (digits_bounds pq) as Hb. rewrite Hd in Hb. change (54 - 1) with 53 in Hb.
  pose proof (rne_bounds (Z.pos pq / 2) (loc_of_shr_record (halved pq l))).
  assert (2 ^ 52 <= Z.pos pq / 2) by (apply Z.div_le_lower_bound; lia).
  assert (Z.pos pq / 2 < 2 ^ 53) by (apply Z.div_lt_upper_bound; lia).
  lia.
Qed.

Lemma div_norm m1 e1 m2 e2 :
  Z.pos (digits2_pos m1) = 53 -> Z.pos (digits2_pos m2) = 53 ->
  -52 <= e1 <= 0 -> -52 <= e2 <= 0 ->
  exists m e k,
    div (S754_finite false m1 e1) (S754_finite false m2 e2) = S754_finite false m e
    /\ 2 ^ 52 <= Z.pos m < 2 ^ 53
    /\ 0 <= k <= 2 /\ e = e1 - e2 - 53 + k
    /\ - (2 ^ k * Z.pos m2) <= 2 * (Z.pos m * 2 ^ k * Z.pos m2 - Z.pos m1 * 2 ^ 53)
       <= 2 ^ k * Z.pos m2.
Proof.
  intros Hd1 Hd2 He1 He2.
  pose proof (digits_bounds m1) as Hb1. rewrite Hd1 in Hb1. change (53 - 1) with 52 in Hb1.
  pose proof (digits_bounds m2) as Hb2. rewrite Hd2 in Hb2. change (53 - 1) with 52 in Hb2.
  unfold div, SFdiv, SFdiv_core_binary. simpl Zdigits2. rewrite Hd1, Hd2.
  unfold fexp, emin, prec, emax.
  replace (Z.min (Z.max (53 + e1 - (53 + e2) - 53) (3 - 1024 - 53)) (e1 - e2))
    with (e1 - e2 - 53) by lia.
  replace (e1 - e2 - (e1 - e2 - 53)) with 53 by lia.
  rewrite Z.shiftl_mul_pow2 by lia.
  set (N := Z.pos m1 * 2 ^ 53). set (D := Z.pos m2) in *.
  assert (HD : 0 < D) by (unfold D; lia).
  pose proof (Z_div_mod N D ltac:(lia)) as Hdm.
  destruct (Z.div_eucl N D) as [q r]. destruct Hdm as [HN Hr].
  assert (Hq : 2 ^ 52 <= q < 2 ^ 54).
  { assert (2 ^ 52 * 2 ^ 53 <= N) by (unfold N; apply Z.mul_le_mono_nonneg_r; lia).
    assert (N < 2 ^ 53 * 2 ^ 53) by (unfold N; apply Z.mul_lt_mono_pos_r; lia).
    split.
    - destruct (Z_le_gt_dec (2 ^ 52) q); [assumption|].
      assert (D * (q + 1) <= D * 2 ^ 52) by (apply Z.mul_le_mono_nonneg_l; lia).
      unfold N in *. lia.
    - destruct (Z_lt_le_dec q (2 ^ 54)); [assumption|].
      assert (D * 2 ^ 54 <= D * q) by (apply Z.mul_le_mono_nonneg_l; lia).
      unfold N in *. lia. }
  rewrite (new_location_spec D r HD Hr).
  clearbody N. subst N.
  destruct q as [|pq|pq]; try (exfalso; simpl in Hq; lia).
  destruct (Z_lt_le_dec (Z.pos pq) (2 ^ 53)) as [Hlt|Hge].
  - assert (Hdq : Z.pos (digits2_pos pq) = 53) by (apply digits_unique; simpl; lia).
    rewrite (round_aux_53 pq _ _ Hdq) by lia.
    set (M := round_nearest_even (Z.pos pq)
                (if r =? 0 then loc_Exact else loc_Inexact (2 * r ?= D))).
    assert (HM : Z.pos pq <= M <= Z.pos pq + 1) by apply rne_bounds.
    assert (Herr : - D <= 2 * (M * D - (D * Z.pos pq + r)) <= D).
    { unfold M, round_nearest_even. destruct (r =? 0) eqn:Er.
      - apply Z.eqb_eq in Er. lia.
      - apply Z.eqb_neq in Er. destruct (Z.compare_spec (2 * r) D) as [C|C|C].
        + destruct (Z.even (Z.pos pq)); lia.
        + lia.
        + lia. }
    destruct (M <? 2 ^ 53) eqn:EM.
    + apply Z.ltb_lt in EM. exists (Z.to_pos M), (e1 - e2 - 53), 0.
      rewrite Z2Pos.id by lia. split; [reflexivity|]. split; [lia|]. split; [lia|].
      split; [lia|]. change (2 ^ 0) with 1. lia.
    + apply Z.ltb_ge in EM. exists two_52, (e1 - e2 - 53 + 1), 1.
      assert (M = 2 ^ 53) by lia.
      split; [reflexivity|]. split; [unfold two_52; lia|]. split; [lia|]. split; [lia|].
      change (Z.pos two_52 * 2 ^ 1) with (2 ^ 53). rewrite <- H. change (2 ^ 1) with 2. lia.
  - assert (Hdq : Z.pos (digits2_pos pq) = 54) by (apply digits_unique; simpl; lia).
    rewrite (round_aux_54 pq _ _ Hdq) by lia.
    set (l := if r =? 0 then loc_Exact else loc_Inexact (2 * r ?= D)).
    set (h := Z.pos pq / 2).
    set (M := round_nearest_even h (loc_of_shr_record (halved pq l))).
    assert (HM : h <= M <= h + 1) by apply rne_bounds.
    assert (Hh : 2 ^ 52 <= h < 2 ^ 53).
    { unfold h. split; [apply Z.div_le_lower_bound; lia | apply Z.div_lt_upper_bound; lia]. }
    pose proof (Z.div_mod (Z.pos pq) 2 ltac:(lia)) as Hq2. fold h in Hq2.
    pose proof (Zmod_odd (Z.pos pq)) as Hodd.
    assert (Herr : - D <= 2 * M * D - (D * Z.pos pq + r) <= D).
    { rewrite Hq2 at 2. rewrite Hodd.
      unfold M, halved, l, round_nearest_even, loc_of_shr_record.
      destruct (Z.odd (Z.pos pq)) eqn:Eo; destruct (r =? 0) eqn:Er;
        rewrite ?Z.eqb_eq, ?Z.eqb_neq in Er.
      - destruct (Z.even h); lia.
      - destruct (Z.compare_spec (2 * r) D); lia.
      - lia.
      - destruct (Z.compare_spec (2 * r) D); lia. }
    destruct (M <? 2 ^ 53) eqn:EM.
    + apply Z.ltb_lt in EM. exists (Z.to_pos M), (e1 - e2 - 53 + 1), 1.
      rewrite Z2Pos.id by lia. split; [reflexivity|]. split; [lia|]. split; [lia|].
      split; [lia|]. change (2 ^ 1) with 2. lia.
    + apply Z.ltb_ge in EM. exists two_52, (e1 - e2 - 53 + 1 + 1), 2.
      assert (M = 2 ^ 53) by lia.
      split; [reflexivity|]. split; [unfold two_52; lia|]. split; [lia|]. split; [lia|].
      change (Z.pos two_52 * 2 ^ 2) with (2 * 2 ^ 53). rewrite <- H. change (2 ^ 2) with 4. lia.
Qed.

Lemma div_int_spec (ps pc : positive) :
  Z.pos ps < 2 ^ 53 -> Z.pos pc <= Z.pos ps <= 5 * Z.pos pc ->
  exists m e,
    div (of_int (Z.pos ps)) (of_int (Z.pos pc)) = S754_finite false m e
    /\ 2 ^ 52 <= Z.pos m < 2 ^ 53
    /\ e < 0
    /\ - Z.pos pc <= 2 * (Z.pos m * Z.pos pc - Z.pos ps * 2 ^ (- e)) <= Z.pos pc.
Proof.
  intros Hs Hcs.
  destruct (of_int_pos ps Hs) as (m1 & e1 & E1 & D1 & R1 & V1).
  destruct (of_int_pos pc ltac:(lia)) as (m2 & e2 & E2 & D2 & R2 & V2).
  rewrite E1, E2.
  destruct (div_norm m1 e1 m2 e2 D1 D2 R1 R2) as (m & e & k & Ed & Hm & Hk & He & Hb).
  exists m, e. split; [exact Ed|]. split; [exact Hm|].
  set (s := Z.pos ps) in *. set (c := Z.pos pc) in *.
  assert (Hc : 0 < c) by (unfold c; lia).
  rewrite V1, V2 in Hb.
  set (P := 2 ^ k * 2 ^ (- e2)) in *.
  assert (HP : 0 < P) by (unfold P; apply Z.mul_pos_pos; apply Z.pow_pos_nonneg; lia).
  assert (HPa : P = 2 ^ (k - e2)) by (unfold P; rewrite <- Z.pow_add_r by lia; f_equal; lia).
  assert (HQ : 2 ^ (- e1) * 2 ^ 53 = 2 ^ (53 - e1))
    by (rewrite <- Z.pow_add_r by lia; f_equal; lia).
  assert (Hb' : - (c * P) <= 2 * (Z.pos m * c * P - s * 2 ^ (53 - e1)) <= c * P).
  { replace (c * P) with (2 ^ k * (c * 2 ^ (- e2))) by (unfold P; ring).
    replace (Z.pos m * c * P) with (Z.pos m * 2 ^ k * (c * 2 ^ (- e2))) by (unfold P; ring).
    replace (s * 2 ^ (53 - e1)) with (s * 2 ^ (- e1) * 2 ^ 53) by (rewrite <- HQ; ring).
    exact Hb. }
  clear Hb.
  assert (Hneg : e < 0).
  { destruct (Z_lt_le_dec e 0) as [|Hge]; [assumption|exfalso].
    assert (HQP : 2 ^ (53 - e1) <= P) by (rewrite HPa; apply Z.pow_le_mono_r; lia).
    assert (0 < 2 ^ (53 - e1)) by (apply Z.pow_pos_nonneg; lia).
    assert (s * 2 ^ (53 - e1) <= 5 * c * P).
    { transitivity (5 * c * 2 ^ (53 - e1)).
      - apply Z.mul_le_mono_nonneg_r; lia.
      - apply Z.mul_le_mono_nonneg_l; lia. }
    assert (2 ^ 52 * (c * P) <= Z.pos m * c * P).
    { rewrite <- Z.mul_assoc. apply Z.mul_le_mono_nonneg_r; [|lia].
      apply Z.lt_le_incl, Z.mul_pos_pos; lia. }
    assert (0 < c * P) by (apply Z.mul_pos_pos; lia).
    lia. }
  split; [exact Hneg|].
  assert (HT : 2 ^ (53 - e1) = 2 ^ (- e) * P).
  { rewrite HPa, <- Z.pow_add_r by lia. f_equal. lia. }
  rewrite HT in Hb'.
  assert (HT0 : 0 < 2 ^ (- e)) by (apply Z.pow_pos_nonneg; lia).
  set (T := 2 ^ (- e)) in *.
  replace (Z.pos m * c * P - s * (T * P)) with ((Z.pos m * c - s * T) * P) in Hb' by ring.
  destruct Hb' as [Hb1 Hb2]. split.
  - apply (Z.mul_le_mono_pos_r _ _ P HP).
    replace (- c * P) with (- (c * P)) by ring.
    replace (2 * (Z.pos m * c - s * T) * P) with (2 * ((Z.pos m * c - s * T) * P)) by ring.
    exact Hb1.
  - apply (Z.mul_le_mono_pos_r _ _ P HP).
    replace (2 * (Z.pos m * c - s * T) * P) with (2 * ((Z.pos m * c - s * T) * P)) by ring.
    exact Hb2.
Qed.

(** The arithmetic core.  [m / T] is the double and [s / c] the exact
    quotient, within half a unit in the last place of each other; scaled by
    [t] and rounded to the nearest integer they agree, unless the exact
    quotient is a tie that the double does not hold. *)
Lemma nearest_agree (m c s T t : Z) :
  0 < c -> 0 < t -> 0 <= s -> t * c < T ->
  - c <= 2 * (m * c - s * T) <= c ->
  (2 * s * t + c) mod (2 * c) <> 0 \/ m * c = s * T ->
  (2 * (m * t) + T) / (2 * T) = (2 * s * t + c) / (2 * c).
Proof.
  intros Hc Ht Hs HT [Hlo Hhi] Htie.
  set (n := (2 * s * t + c) / (2 * c)).
  pose proof (Z.mul_div_le (2 * s * t + c) (2 * c) ltac:(lia)) as Hn1. fold n in Hn1.
  pose proof (Z.mul_succ_div_gt (2 * s * t + c) (2 * c) ltac:(lia)) as Hn2. fold n in Hn2.
  assert (HTpos : 0 < T) by nia.
  symmetry. apply (Z.div_unique _ _ _ (2 * (m * t) + T - 2 * T * n)); [left|ring].
  split.
  - apply (Z.mul_le_mono_pos_r _ _ c Hc). rewrite Z.mul_0_l.
    destruct Htie as [Hne|Hex].
    + assert (2 * c * n + 1 <= 2 * s * t + c).
      { destruct (Z.eq_dec (2 * c * n) (2 * s * t + c)) as [E|E]; [|lia].
        exfalso. apply Hne. rewrite <- E. rewrite Z.mul_comm. apply Z.mod_mul. lia. }
      pose proof (Z.mul_le_mono_nonneg_l _ _ T ltac:(lia) H) as H1.
      pose proof (Z.mul_le_mono_nonneg_l _ _ t ltac:(lia) Hlo) as H2.
      nia.
    + pose proof (Z.mul_le_mono_nonneg_l _ _ T ltac:(lia) Hn1) as H1.
      replace ((2 * (m * t) + T - 2 * T * n) * c)
        with (2 * t * (m * c) + T * c - T * (2 * c * n)) by ring.
      rewrite Hex. nia.
  - apply (Z.mul_lt_mono_pos_r c _ _ Hc).
    assert (H : 2 * s * t + c + 1 <= 2 * c * Z.succ n) by lia.
    pose proof (Z.mul_le_mono_nonneg_l _ _ T ltac:(lia) H) as H1.
    pose proof (Z.mul_le_mono_nonneg_l _ _ t ltac:(lia) Hhi) as H2.
    nia.
Qed.

(** What [toFixed] prints for the quotient of two integers, and the facts
    about the double behind it. *)
Lemma toFixed_div_shape (f : nat) (s c : Z) :
  0 < c < 2 ^ 43 -> c <= s <= 5 * c ->
  exists m T,
    toFixed f (div (of_int s) (of_int c)) = Some ((2 * (m * 10 ^ Z.of_nat f) + T) / (2 * T))
    /\ 100 * c < T
    /\ T <= m
    /\ (exists T', T = 8 * T')
    /\ - c <= 2 * (m * c - s * T) <= c.
Proof.
  intros Hc Hs.
  destruct c as [|pc|pc]; try lia. destruct s as [|ps|ps]; try lia.
  destruct (div_int_spec ps pc ltac:(lia) Hs) as (m & e & Ed & Hm & He & Hb).
  set (c := Z.pos pc) in *. set (s := Z.pos ps) in *.
  set (T := 2 ^ (- e)) in *.
  assert (HT0 : 0 < T) by (apply Z.pow_pos_nonneg; lia).
  assert (HT : 2 ^ 53 <= 10 * T + 1).
  { assert (2 ^ 52 * c <= Z.pos m * c) by (apply Z.mul_le_mono_nonneg_r; lia).
    assert (s * T <= 5 * c * T) by (apply Z.mul_le_mono_nonneg_r; lia).
    assert (c * 2 ^ 53 <= c * (10 * T + 1)) by lia.
    apply (Z.mul_le_mono_pos_l _ _ c); lia. }
  assert (HTm : T <= Z.pos m).
  { assert (c * T <= s * T) by (apply Z.mul_le_mono_nonneg_r; lia).
    assert (c * (2 * T - 1) <= c * (2 * Z.pos m)) by lia.
    assert (2 * T - 1 <= 2 * Z.pos m) by (apply (Z.mul_le_mono_pos_l _ _ c); lia).
    lia. }
  exists (Z.pos m), T. rewrite Ed. unfold toFixed, ge_1e21, nearest_scaled.
  destruct (0 <=? e) eqn:E0; [apply Z.leb_le in E0; lia|]. fold T.
  destruct (10 ^ 21 * T <=? Z.pos m) eqn:E1; [apply Z.leb_le in E1; lia|].
  split; [reflexivity|]. split; [lia|]. split; [exact HTm|]. split; [|exact Hb].
  assert (He3 : 3 <= - e).
  { destruct (Z_le_gt_dec 3 (- e)); [assumption|exfalso].
    assert (T <= 2 ^ 2) by (unfold T; apply Z.pow_le_mono_r; lia). lia. }
  exists (2 ^ (- e - 3)). unfold T. change 8 with (2 ^ 3).
  rewrite <- Z.pow_add_r by lia. f_equal. lia.
Qed.

(** Agreement with rounding half up, except at ties that the double does
    not hold. *)
Lemma toFixed_div_exact (f : nat) (s c : Z) :
  0 < c < 2 ^ 43 -> c <= s <= 5 * c -> 10 ^ Z.of_nat f <= 100 ->
  ~ tie f s c \/ eighths s c ->
  toFixed f (div (of_int s) (of_int c)) = Some (round_half_up f s c).
Proof.
  intros Hc Hs Hf Htie. unfold tie, eighths in Htie.
  destruct (toFixed_div_shape f s c Hc Hs) as (m & T & E & HT & HTm & (T' & HT') & Hb).
  rewrite E. f_equal. unfold round_half_up.
  set (t := 10 ^ Z.of_nat f) in *.
  assert (Ht : 0 < t) by (apply Z.pow_pos_nonneg; lia).
  apply nearest_agree; try lia.
  - nia.
  - destruct Htie as [H|H]; [left; exact H|right].
    apply Z.mod_divide in H; [|lia]. destruct H as [j Hj].
    assert (Hz : m * c - s * T = c * (m - j * T')).
    { rewrite HT'. replace (s * (8 * T')) with (8 * s * T') by ring. rewrite Hj. ring. }
    rewrite Hz in Hb.
    assert (m - j * T' = 0) by nia.
    lia.
Qed.

(** In all cases the printed value stays in range and never exceeds the
    exact rounding. *)
Lemma toFixed_div_range (f : nat) (s c : Z) :
  0 < c < 2 ^ 43 -> c <= s <= 5 * c -> 10 ^ Z.of_nat f <= 100 ->
  exists n,
    toFixed f (div (of_int s) (of_int c)) = Some n
    /\ 10 ^ Z.of_nat f <= n
    /\ round_half_up f s c - 1 <= n <= round_half_up f s c.
Proof.
  intros Hc Hs Hf.
  destruct (toFixed_div_shape f s c Hc Hs) as (m & T & E & HT & HTm & _ & Hb).
  rewrite E. eexists. split; [reflexivity|].
  set (t := 10 ^ Z.of_nat f) in *.
  assert (Ht : 0 < t) by (apply Z.pow_pos_nonneg; lia).
  unfold round_half_up. fold t.
  set (n := (2 * s * t + c) / (2 * c)).
  pose proof (Z.mul_div_le (2 * s * t + c) (2 * c) ltac:(lia)) as Hn1. fold n in Hn1.
  pose proof (Z.mul_succ_div_gt (2 * s * t + c) (2 * c) ltac:(lia)) as Hn2. fold n in Hn2.
  destruct Hb as [Hlo Hhi].
  split; [|split].
  - apply Z.div_le_lower_bound; [lia|]. nia.
  - apply Z.div_le_lower_bound; [lia|].
    apply (Z.mul_le_mono_pos_r _ _ c ltac:(lia)).
    pose proof (Z.mul_le_mono_nonneg_l _ _ T ltac:(lia) Hn1) as H1.
    pose proof (Z.mul_le_mono_nonneg_l _ _ t ltac:(lia) Hlo) as H2.
    nia.
  - apply Z.lt_succ_r. apply Z.div_lt_upper_bound; [lia|].
    apply (Z.mul_lt_mono_pos_r c _ _ ltac:(lia)).
    assert (H : 2 * s * t + c + 1 <= 2 * c * Z.succ n) by lia.
    pose proof (Z.mul_le_mono_nonneg_l _ _ T ltac:(lia) H) as H1.
    pose proof (Z.mul_le_mono_nonneg_l _ _ t ltac:(lia) Hhi) as H2.
    nia.
Qed.

End Doubles.

(** ** Rounding of the average *)

Section Rounding.

Local Open Scope Z_scope.

Example toFixed_13_3 : Num.toFixed 2 (Num.div (Num.of_int 13) (Num.of_int 3)) = Some 433.
Proof. reflexivity. Qed.

Example toFixed_9_8 : Num.toFixed 2 (Num.div (Num.of_int 9) (Num.of_int 8)) = Some 113.
Proof. reflexivity. Qed.

Example toFixed_41_40 : Num.toFixed 2 (Num.div (Num.of_int 41) (Num.of_int 40)) = Some 102.
Proof. reflexivity. Qed.

Example toFixed_23_20 : Num.toFixed 1 (Num.div (Num.of_int 23) (Num.of_int 20)) = Some 11.
Proof. reflexivity. Qed.

(** [toFixed] prints the decimal nearest to the double, the larger one of
    two: with [x = m * 2^e] and [e < 0], the printed [n] satisfies
    [x * 10^f - 1/2 < n <= x * 10^f + 1/2]. *)
Lemma toFixed_nearest (f : nat) (m : positive) (e n : Z) :
  e < 0 ->
  Num.toFixed f (S754_finite false m e) = Some n ->
  2 * (Z.pos m * 10 ^ Z.of_nat f) - 2 ^ (- e) < 2 * n * 2 ^ (- e)
  /\ 2 * n * 2 ^ (- e) <= 2 * (Z.pos m * 10 ^ Z.of_nat f) + 2 ^ (- e).
Proof.
  intros He. unfold Num.toFixed. destruct (Num.ge_1e21 m e); [discriminate|].
  intros [= <-]. unfold Num.nearest_scaled.
  destruct (0 <=? e) eqn:E; [apply Z.leb_le in E; lia|].
  set (num := Z.pos m * 10 ^ Z.of_nat f).
  set (d := 2 ^ (- e)).
  assert (Hd : 0 < d) by (apply Z.pow_pos_nonneg; lia).
  pose proof (Z.mul_div_le (2 * num + d) (2 * d) ltac:(lia)) as H1.
  pose proof (Z.mul_succ_div_gt (2 * num + d) (2 * d) ltac:(lia)) as H2.
  split; nia.
Qed.

Lemma round_half_up_range (f : nat) (s c : Z) :
  0 < c -> c <= s <= 5 * c ->
  10 ^ Z.of_nat f <= Num.round_half_up f s c <= 5 * 10 ^ Z.of_nat f.
Proof.
  intros Hc Hs. unfold Num.round_half_up.
  set (t := 10 ^ Z.of_nat f).
  assert (Ht : 0 < t) by (apply Z.pow_pos_nonneg; lia).
  split.
  - apply Z.div_le_lower_bound; nia.
  - apply Z.lt_succ_r. apply Z.div_lt_upper_bound; nia.
Qed.

End Rounding.

(** ** The recompute of the Sequelize model *)

Section ModelFacts.

Import Models.
Local Open Scope Z_scope.

Lemma fold_sum_shift (rs : list Rating) (a : Z) :
  fold_left (fun acc r => acc + rating r) rs a = a + sum_ratings rs.
Proof.
  unfold sum_ratings. revert a. induction rs as [|r rs IH]; intros a; simpl; [lia|].
  rewrite IH, (IH (0 + rating r)). lia.
Qed.

Lemma sum_ratings_cons (r : Rating) (rs : list Rating) :
  sum_ratings (r :: rs) = rating r + sum_ratings rs.
Proof. unfold sum_ratings at 1. simpl. apply fold_sum_shift. Qed.

Lemma sum_ratings_bounds (rs : list Rating) :
  Forall (fun r => valid_stars (rating r)) rs ->
  Z.of_nat (length rs) <= sum_ratings rs <= 5 * Z.of_nat (length rs).
Proof.
  induction 1 as [|r rs Hr _ IH]; [unfold sum_ratings; simpl; lia|].
  rewrite sum_ratings_cons. unfold valid_stars in Hr. simpl length. lia.
Qed.

Lemma validate_store_ok (avg total : Z) :
  0 <= avg <= 500 -> 0 <= total -> validate_store avg total = [].
Proof.
  intros Ha Ht. unfold validate_store, check.
  destruct (avg <? 0) eqn:E1; [apply Z.ltb_lt in E1; lia|].
  destruct (500 <? avg) eqn:E2; [apply Z.ltb_lt in E2; lia|].
  destruct (total <? 0) eqn:E3; [apply Z.ltb_lt in E3; lia|].
  reflexivity.
Qed.

(** With no rating of the store, the recompute writes 0.00 and 0. *)
Lemma updateRatingStats_empty (db : DB) (this : Store) :
  getRatings db this = [] ->
  updateRatingStats db this = (write_store db (with_stats this 0 0), Ok tt).
Proof. intros H. unfold updateRatingStats, ratingStats. rewrite H. reflexivity. Qed.

(** On a non-empty set of valid ratings the recompute succeeds: it stores
    the count and what [toFixed(2)] prints for the double quotient, which is
    the mean rounded half up or, possibly, one hundredth less. *)
Lemma updateRatingStats_valid (db : DB) (this : Store) :
  getRatings db this <> [] ->
  Z.of_nat (length (getRatings db this)) < 2 ^ 43 ->
  Forall (fun r => valid_stars (rating r)) (getRatings db this) ->
  exists avg,
    updateRatingStats db this
      = (write_store db (with_stats this avg (Z.of_nat (length (getRatings db this)))),
         Ok tt)
    /\ Num.toFixed 2
         (Num.div (Num.of_int (sum_ratings (getRatings db this)))
            (Num.of_int (Z.of_nat (length (getRatings db this))))) = Some avg
    /\ 100 <= avg <= 500
    /\ Num.round_half_up 2 (sum_ratings (getRatings db this))
         (Z.of_nat (length (getRatings db this))) - 1 <= avg
       <= Num.round_half_up 2 (sum_ratings (getRatings db this))
            (Z.of_nat (length (getRatings db this))).
Proof.
  intros Hne Hlen Hvalid. unfold updateRatingStats, ratingStats.
  set (rs := getRatings db this) in *.
  assert (Hpos : (0 < length rs)%nat) by (destruct rs; [congruence | simpl; lia]).
  pose proof (sum_ratings_bounds rs Hvalid) as Hsum.
  destruct (0 <? Z.of_nat (length rs)) eqn:E; [|apply Z.ltb_ge in E; lia].
  destruct (toFixed_div_range 2 (sum_ratings rs) (Z.of_nat (length rs))
              ltac:(lia) Hsum ltac:(simpl; lia)) as (avg & Eavg & Hlo & Hnear).
  pose proof (round_half_up_range 2 (sum_ratings rs) (Z.of_nat (length rs)) ltac:(lia) Hsum) as Hr.
  change (10 ^ Z.of_nat 2) with 100 in *.
  exists avg. rewrite Eavg, validate_store_ok by lia.
  split; [reflexivity|]. split; [reflexivity|]. split; lia.
Qed.

(** If moreover the mean is no tie between two hundredths, or is a
    multiple of 1/8, the recompute stores the mean rounded half up to two
    decimals. *)
Lemma updateRatingStats_exact (db : DB) (this : Store) :
  getRatings db this <> [] ->
  Z.of_nat (length (getRatings db this)) < 2 ^ 43 ->
  Forall (fun r => valid_stars (rating r)) (getRatings db this) ->
  ~ Num.tie 2 (sum_ratings (getRatings db this)) (Z.of_nat (length (getRatings db this)))
  \/ Num.eighths (sum_ratings (getRatings db this)) (Z.of_nat (length (getRatings db this))) ->
  updateRatingStats db this =
    (write_store db
       (with_stats this
          (Num.round_half_up 2 (sum_ratings (getRatings db this))
             (Z.of_nat (length (getRatings db this))))
          (Z.of_nat (length (getRatings db this)))),
     Ok tt).
Proof.
  intros Hne Hlen Hvalid Htie.
  destruct (updateRatingStats_valid db this Hne Hlen Hvalid) as (avg & E & Eavg & _).
  rewrite E. set (rs := getRatings db this) in *.
  assert (Hpos : (0 < length rs)%nat) by (destruct rs; [congruence | simpl; lia]).
  pose proof (sum_ratings_bounds rs Hvalid) as Hsum.
  rewrite (toFixed_div_exact 2 (sum_ratings rs) (Z.of_nat (length rs))
             ltac:(lia) Hsum ltac:(simpl; lia) Htie) in Eavg.
  congruence.
Qed.

(** A failed save of the statistics leaves the tables as they were. *)
Lemma updateRatingStats_error (db db' : DB) (this : Store) (e : error) :
  updateRatingStats db this = (db', Err e) -> db' = db.
Proof.
  unfold updateRatingStats.
  destruct (ratingStats (getRatings db this)) as [[avg|] total].
  - destruct (validate_store avg total); intros [= <-]; congruence.
  - intros [= <-]. reflexivity.
Qed.

(** Whenever the recompute succeeds, the stored count is the number of all
    the rows of the store, approved or not. *)
Lemma updateRatingStats_counts_all (db db' : DB) (this : Store) :
  stores db !! st_id this = Some this ->
  updateRatingStats db this = (db', Ok tt) ->
  total_reviews <$> (stores db' !! st_id this)
    = Some (Z.of_nat (length (getRatings db this))).
Proof.
  intros Hin. unfold updateRatingStats, ratingStats.
  destruct (0 <? Z.of_nat (length (getRatings db this))) eqn:E.
  - destruct (Num.toFixed 2 _) as [avg|]; [|discriminate].
    destruct (validate_store _ _); [|discriminate].
    intros [= <-]. unfold write_store. simpl.
    rewrite lookup_alter_eq, Hin. reflexivity.
  - simpl. intros [= <-]. unfold write_store. simpl.
    rewrite lookup_alter_eq, Hin. simpl.
    apply Z.ltb_ge in E. f_equal. lia.
Qed.

End ModelFacts.

(** ** The recompute of the controller *)

Section ControllerRecompute.

Import Controller.
Local Open Scope Z_scope.

Lemma fold_total_shift (rs : list Review) (a : Z) :
  fold_left (fun sum review => sum + rating review) rs a = a + totalRating rs.
Proof.
  unfold totalRating. revert a. induction rs as [|r rs IH]; intros a; simpl; [lia|].
  rewrite IH, (IH (0 + rating r)). lia.
Qed.

Lemma totalRating_bounds (rs : list Review) :
  Forall (fun r => Models.valid_stars (rating r)) rs ->
  Z.of_nat (length rs) <= totalRating rs <= 5 * Z.of_nat (length rs).
Proof.
  induction 1 as [|r rs Hr _ IH]; [unfold totalRating; simpl; lia|].
  unfold totalRating. simpl fold_left. rewrite fold_total_shift.
  unfold Models.valid_stars in Hr. simpl length. lia.
Qed.

Lemma updateStoreRating_empty (db : DB) (storeId : N) :
  find_by_store db storeId = [] ->
  updateStoreRating no_faults db storeId
    = (findByIdAndUpdate db storeId (Num.of_int 0) 0, Resolved tt, []).
Proof.
  intros H. unfold updateStoreRating, updateStoreRating_try. simpl. rewrite H. reflexivity.
Qed.

(** On a non-empty set of reviews rated 1 to 5 whose mean is no tie
    between two tenths, or is a multiple of 1/8, the controller writes the
    double of the mean rounded half up to one decimal. *)
Lemma updateStoreRating_exact (db : DB) (storeId : N) :
  find_by_store db storeId <> [] ->
  Z.of_nat (length (find_by_store db storeId)) < 2 ^ 43 ->
  Forall (fun r => Models.valid_stars (rating r)) (find_by_store db storeId) ->
  ~ Num.tie 1 (totalRating (find_by_store db storeId))
      (Z.of_nat (length (find_by_store db storeId)))
  \/ Num.eighths (totalRating (find_by_store db storeId))
       (Z.of_nat (length (find_by_store db storeId))) ->
  updateStoreRating no_faults db storeId
    = (findByIdAndUpdate db storeId
         (Num.div
            (Num.of_int (Num.round_half_up 1 (totalRating (find_by_store db storeId))
                           (Z.of_nat (length (find_by_store db storeId)))))
            (Num.of_int 10))
         (Z.of_nat (length (find_by_store db storeId))),
       Resolved tt, []).
Proof.
  intros Hne Hlen Hvalid Htie. unfold updateStoreRating, updateStoreRating_try. simpl.
  set (rs := find_by_store db storeId) in *.
  pose proof (totalRating_bounds rs Hvalid) as Hsum.
  destruct rs as [|r rs'] eqn:Ers; [congruence|]. rewrite <- Ers in *.
  replace (length rs =? 0)%nat with false
    by (symmetry; apply Nat.eqb_neq; rewrite Ers; simpl; lia).
  unfold Num.parseFloat_toFixed.
  rewrite (toFixed_div_exact 1 (totalRating rs) (Z.of_nat (length rs)));
    [reflexivity | | exact Hsum | simpl; lia | exact Htie].
  rewrite Ers in *. simpl length in *. lia.
Qed.

(** On every non-empty set of reviews rated 1 to 5, ties included, the
    controller writes the double of [n / 10] for an integer [n] of tenths
    that is the mean rounded half up to one decimal or one tenth below
    it. *)
Lemma updateStoreRating_range (db : DB) (storeId : N) :
  find_by_store db storeId <> [] ->
  Z.of_nat (length (find_by_store db storeId)) < 2 ^ 43 ->
  Forall (fun r => Models.valid_stars (rating r)) (find_by_store db storeId) ->
  exists n,
    updateStoreRating no_faults db storeId
      = (findByIdAndUpdate db storeId (Num.div (Num.of_int n) (Num.of_int 10))
           (Z.of_nat (length (find_by_store db storeId))),
         Resolved tt, [])
    /\ Num.toFixed 1
         (Num.div (Num.of_int (totalRating (find_by_store db storeId)))
            (Num.of_int (Z.of_nat (length (find_by_store db storeId))))) = Some n
    /\ 10 <= n <= 50
    /\ Num.round_half_up 1 (totalRating (find_by_store db storeId))
         (Z.of_nat (length (find_by_store db storeId))) - 1 <= n
       <= Num.round_half_up 1 (totalRating (find_by_store db storeId))
            (Z.of_nat (length (find_by_store db storeId))).
Proof.
  intros Hne Hlen Hvalid. unfold updateStoreRating, updateStoreRating_try. simpl.
  set (rs := find_by_store db storeId) in *.
  pose proof (totalRating_bounds rs Hvalid) as Hsum.
  destruct rs as [|r rs'] eqn:Ers; [congruence|]. rewrite <- Ers in *.
  replace (length rs =? 0)%nat with false
    by (symmetry; apply Nat.eqb_neq; rewrite Ers; simpl; lia).
  assert (Hpos : 0 < Z.of_nat (length rs)) by (rewrite Ers; simpl length; lia).
  destruct (toFixed_div_range 1 (totalRating rs) (Z.of_nat (length rs)))
    as (n & Hn & Hlow & Hnear); [lia | exact Hsum | simpl; lia |].
  pose proof (round_half_up_range 1 (totalRating rs) (Z.of_nat (length rs)) Hpos Hsum)
    as Hrange.
  exists n. unfold Num.parseFloat_toFixed. rewrite Hn.
  change (10 ^ Z.of_nat 1) with 10 in *.
  repeat split; try reflexivity; lia.
Qed.

(** When the update call throws, nothing is written. *)
Lemma updateStoreRating_throws (flt : Faults) (db : DB) (storeId : N) :
  update_throws flt = true ->
  fst (fst (updateStoreRating flt db storeId)) = db.
Proof.
  intros H. unfold updateStoreRating, updateStoreRating_try. rewrite H.
  destruct (find_throws flt); [reflexivity|].
  destruct (length (find_by_store db storeId) =? 0)%nat; reflexivity.
Qed.

End ControllerRecompute.

(** On a non-empty set the controller writes the count and the double
    quotient printed by [toFixed(1)] and parsed back. *)
Lemma updateStoreRating_general (db : Controller.DB) (storeId : N) :
  Controller.find_by_store db storeId <> [] ->
  Controller.updateStoreRating Controller.no_faults db storeId
  = (Controller.findByIdAndUpdate db storeId
       (Num.parseFloat_toFixed 1
          (Num.div (Num.of_int (Controller.totalRating (Controller.find_by_store db storeId)))
             (Num.of_int (Z.of_nat (length (Controller.find_by_store db storeId))))))
       (Z.of_nat (length (Controller.find_by_store db storeId))),
     Controller.Resolved tt, []).
Proof.
  intros Hne. unfold Controller.updateStoreRating, Controller.updateStoreRating_try. simpl.
  destruct (Controller.find_by_store db storeId); [congruence | reflexivity].
Qed.

(** C2 (as amended). What the two recomputes write for the set of reviews
    that they fetch.  (1), (2) An empty set: average 0 and total 0.  (3) A
    non-empty set of reviews rated 1 to 5, in [Store.updateRatingStats]: the
    count, and what [toFixed(2)] prints for the double quotient of sum and
    count, which is the mean rounded half up to two decimals or one
    hundredth less.  (4) It is the mean rounded half up whenever the mean
    is no tie between two hundredths, or is a multiple of 1/8 (which the
    double holds exactly).  (5) A non-empty set, in the controller's
    [updateStoreRating]: the count, and the double quotient printed with one
    decimal and parsed back.  (6) For reviews rated 1 to 5 this is the
    double of the mean rounded half up to one decimal whenever the mean is
    no tie between two tenths, or is a multiple of 1/8.  (7) For reviews
    rated 1 to 5, ties included, the controller writes the double of [n/10]
    where [n] tenths is what [toFixed(1)] prints: the mean rounded half up
    to one decimal or one tenth less.  (8) When the update call of the
    controller throws, nothing is written.  (Sets of fewer than [2^43]
    reviews.) *)
Theorem recompute_writes :
  (forall (db : Models.DB) (this : Models.Store),
      Models.getRatings db this = [] ->
      Models.updateRatingStats db this
        = (Models.write_store db (Models.with_stats this 0 0), Models.Ok tt))
  /\ (forall (db : Controller.DB) (storeId : N),
      Controller.find_by_store db storeId = [] ->
      Controller.updateStoreRating Controller.no_faults db storeId
        = (Controller.findByIdAndUpdate db storeId (Num.of_int 0) 0,
           Controller.Resolved tt, []))
  /\ (forall (db : Models.DB) (this : Models.Store),
      Models.getRatings db this <> [] ->
      (Z.of_nat (length (Models.getRatings db this)) < 2 ^ 43)%Z ->
      Forall (fun r => Models.valid_stars (Models.rating r)) (Models.getRatings db this) ->
      exists avg,
        Models.updateRatingStats db this
          = (Models.write_store db
               (Models.with_stats this avg (Z.of_nat (length (Models.getRatings db this)))),
             Models.Ok tt)
        /\ Num.toFixed 2
             (Num.div (Num.of_int (Models.sum_ratings (Models.getRatings db this)))
                (Num.of_int (Z.of_nat (length (Models.getRatings db this))))) = Some avg
        /\ (100 <= avg <= 500)%Z
        /\ (Num.round_half_up 2 (Models.sum_ratings (Models.getRatings db this))
              (Z.of_nat (length (Models.getRatings db this))) - 1 <= avg
            <= Num.round_half_up 2 (Models.sum_ratings (Models.getRatings db this))
                 (Z.of_nat (length (Models.getRatings db this))))%Z)
  /\ (forall (db : Models.DB) (this : Models.Store),
      Models.getRatings db this <> [] ->
      (Z.of_nat (length (Models.getRatings db this)) < 2 ^ 43)%Z ->
      Forall (fun r => Models.valid_stars (Models.rating r)) (Models.getRatings db this) ->
      ~ Num.tie 2 (Models.sum_ratings (Models.getRatings db this))
          (Z.of_nat (length (Models.getRatings db this)))
      \/ Num.eighths (Models.sum_ratings (Models.getRatings db this))
           (Z.of_nat (length (Models.getRatings db this))) ->
      Models.updateRatingStats db this
        = (Models.write_store db
             (Models.with_stats this
                (Num.round_half_up 2 (Models.sum_ratings (Models.getRatings db this))
                   (Z.of_nat (length (Models.getRatings db this))))
                (Z.of_nat (length (Models.getRatings db this)))),
           Models.Ok tt))
  /\ (forall (db : Controller.DB) (storeId : N),
      Controller.find_by_store db storeId <> [] ->
      Controller.updateStoreRating Controller.no_faults db storeId
      = (Controller.findByIdAndUpdate db storeId
           (Num.parseFloat_toFixed 1
              (Num.div
                 (Num.of_int (Controller.totalRating (Controller.find_by_store db storeId)))
                 (Num.of_int (Z.of_nat (length (Controller.find_by_store db storeId))))))
           (Z.of_nat (length (Controller.find_by_store db storeId))),
         Controller.Resolved tt, []))
  /\ (forall (db : Controller.DB) (storeId : N),
      Controller.find_by_store db storeId <> [] ->
      (Z.of_nat (length (Controller.find_by_store db storeId)) < 2 ^ 43)%Z ->
      Forall (fun r => Models.valid_stars (Controller.rating r))
        (Controller.find_by_store db storeId) ->
      ~ Num.tie 1 (Controller.totalRating (Controller.find_by_store db storeId))
          (Z.of_nat (length (Controller.find_by_store db storeId)))
      \/ Num.eighths (Controller.totalRating (Controller.find_by_store db storeId))
           (Z.of_nat (length (Controller.find_by_store db storeId))) ->
      Controller.updateStoreRating Controller.no_faults db storeId
        = (Controller.findByIdAndUpdate db storeId
             (Num.div
                (Num.of_int
                   (Num.round_half_up 1
                      (Controller.totalRating (Controller.find_by_store db storeId))
                      (Z.of_nat (length (Controller.find_by_store db storeId)))))
                (Num.of_int 10))
             (Z.of_nat (length (Controller.find_by_store db storeId))),
           Controller.Resolved tt, []))
  /\ (forall (db : Controller.DB) (storeId : N),
      Controller.find_by_store db storeId <> [] ->
      (Z.of_nat (length (Controller.find_by_store db storeId)) < 2 ^ 43)%Z ->
      Forall (fun r => Models.valid_stars (Controller.rating r))
        (Controller.find_by_store db storeId) ->
      exists n,
        Controller.updateStoreRating Controller.no_faults db storeId
          = (Controller.findByIdAndUpdate db storeId
               (Num.div (Num.of_int n) (Num.of_int 10))
               (Z.of_nat (length (Controller.find_by_store db storeId))),
             Controller.Resolved tt, [])
        /\ Num.toFixed 1
             (Num.div
                (Num.of_int (Controller.totalRating (Controller.find_by_store db storeId)))
                (Num.of_int (Z.of_nat (length (Controller.find_by_store db storeId)))))
           = Some n
        /\ (10 <= n <= 50)%Z
        /\ (Num.round_half_up 1 (Controller.totalRating (Controller.find_by_store db storeId))
              (Z.of_nat (length (Controller.find_by_store db storeId))) - 1 <= n
            <= Num.round_half_up 1
                 (Controller.totalRating (Controller.find_by_store db storeId))
                 (Z.of_nat (length (Controller.find_by_store db storeId))))%Z)
  /\ (forall (flt : Controller.Faults) (db : Controller.DB) (storeId : N),
      Controller.update_throws flt = true ->
      fst (fst (Controller.updateStoreRating flt db storeId)) = db).
Proof.
  split; [exact updateRatingStats_empty|].
  split; [exact updateStoreRating_empty|].
  split; [exact updateRatingStats_valid|].
  split; [exact updateRatingStats_exact|].
  split; [exact updateStoreRating_general|].
  split; [exact updateStoreRating_exact|].
  split; [exact updateStoreRating_range | exact updateStoreRating_throws].
Qed.

(** Two reviews with 5 and 3 stars: 4.00 and 2.  Three reviews with 5, 4
    and 4 stars in the controller: 4.3 and 3.  Twenty reviews with the mean
    1.15, a tie between two tenths, in the controller: the tenths written
    are 12 or 11. *)
Lemma recompute_writes_witness :
  Models.updateRatingStats Scenario.db_two (Scenario.shop 400 2)
    = (Models.write_store Scenario.db_two (Models.with_stats (Scenario.shop 400 2) 400 2),
       Models.Ok tt)
  /\ Controller.updateStoreRating Controller.no_faults Scenario.c_db 1
    = (Controller.findByIdAndUpdate Scenario.c_db 1
         (Num.div (Num.of_int 43) (Num.of_int 10)) 3,
       Controller.Resolved tt, [])
  /\ exists n,
       Controller.updateStoreRating Controller.no_faults Scenario.c_db_twenty 1
         = (Controller.findByIdAndUpdate Scenario.c_db_twenty 1
              (Num.div (Num.of_int n) (Num.of_int 10)) 20,
            Controller.Resolved tt, [])
       /\ (12 - 1 <= n <= 12)%Z.
Proof.
  split; [|split].
  3: {
    destruct (proj1 (proj2 (proj2 (proj2 (proj2 (proj2 (proj2 recompute_writes))))))
                Scenario.c_db_twenty 1%N) as (n & Hw & _ & _ & Hn).
    - vm_compute. discriminate.
    - vm_compute. reflexivity.
    - vm_compute. repeat (constructor; [split; discriminate|]). constructor.
    - exists n. split.
      + rewrite Hw. repeat f_equal; vm_compute; reflexivity.
      + replace 12%Z
          with (Num.round_half_up 1
                  (Controller.totalRating (Controller.find_by_store Scenario.c_db_twenty 1))
                  (Z.of_nat (length (Controller.find_by_store Scenario.c_db_twenty 1))))
          by (vm_compute; reflexivity).
        exact Hn. }
  - apply (proj1 (proj2 (proj2 (proj2 recompute_writes)))
             Scenario.db_two (Scenario.shop 400 2)).
    + discriminate.
    + reflexivity.
    + repeat constructor; unfold Models.valid_stars; simpl; lia.
    + left. unfold Num.tie. vm_compute. discriminate.
  - apply (proj1 (proj2 (proj2 (proj2 (proj2 (proj2 recompute_writes))))) Scenario.c_db 1%N).
    + discriminate.
    + reflexivity.
    + repeat constructor; unfold Models.valid_stars; simpl; lia.
    + left. unfold Num.tie. vm_compute. discriminate.
Defined.

(** C2, counterexample.  For one review with 2 stars and thirty-nine with
    1 star, the mean is 1.025; [Store.updateRatingStats] computes 1.02
    where rounding half up gives 1.03.  For three reviews with 5, 4 and 4
    stars the controller writes the double 4.3, which is not the double
    4.33 of the mean rounded to two decimals.  For twenty reviews with the
    mean 1.15 the controller writes the double 1.1 where rounding half up
    to one decimal gives 1.2. *)
Lemma recompute_not_half_up :
  Models.ratingStats (Models.getRatings Scenario.db_forty (Scenario.shop 0 0)) = (Some 102%Z, 40%Z)
  /\ Num.round_half_up 2
       (Models.sum_ratings (Models.getRatings Scenario.db_forty (Scenario.shop 0 0))) 40 = 103%Z
  /\ Controller.updateStoreRating Controller.no_faults Scenario.c_db 1
     = (Controller.findByIdAndUpdate Scenario.c_db 1
          (Num.div (Num.of_int 43) (Num.of_int 10)) 3,
        Controller.Resolved tt, [])
  /\ Num.round_half_up 2 (Controller.totalRating (Controller.find_by_store Scenario.c_db 1)) 3
     = 433%Z
  /\ Num.div (Num.of_int 43) (Num.of_int 10) <> Num.div (Num.of_int 433) (Num.of_int 100)
  /\ Controller.updateStoreRating Controller.no_faults Scenario.c_db_twenty 1
     = (Controller.findByIdAndUpdate Scenario.c_db_twenty 1
          (Num.div (Num.of_int 11) (Num.of_int 10)) 20,
        Controller.Resolved tt, [])
  /\ Num.round_half_up 1
       (Controller.totalRating (Controller.find_by_store Scenario.c_db_twenty 1)) 20 = 12%Z.
Proof.
  split; [vm_compute; reflexivity|].
  split; [vm_compute; reflexivity|].
  split; [vm_compute; reflexivity|].
  split; [vm_compute; reflexivity|].
  split; [vm_compute; discriminate|].
  split; vm_compute; reflexivity.
Qed.

(** ** Moderation and the stored statistics *)

Section Moderation.

Import Models.
Local Open Scope list_scope.
Local Open Scope Z_scope.

(** C1, on the failing input.  Store 1 has one approved review with 3
    stars and the statistics 3.00 and 1.  After [reject] on this review the
    store has no approved review, so the specification asks for 0.00 and 0;
    the [afterUpdate] hook has recomputed the statistics from all the rows of
    the store and has stored 3.00 and 1 again. *)
Theorem reject_still_counted :
  let '(this', db', res) := reject Scenario.db_one (Scenario.stars 1 7 3) in
  res = Ok true
  /\ is_approved this' = false
  /\ ratings db' = [this']
  /\ approved_of db' 1 = []
  /\ stored_stats db' 1 = Some (300, 1)
  /\ ratingStats (approved_of db' 1) = (Some 0, 0).
Proof. vm_compute. repeat split. Qed.

(** C3, on the failing input.  Store 1 has two approved reviews with 5 and
    3 stars.  [flag("spam")] on the second one sets [is_flagged] and clears
    [is_approved], and the recompute that follows stores 4.00 and 2: the
    flagged review is still counted, where the approved reviews alone give
    5.00 and 1. *)
Theorem flag_spam_still_counted :
  let '(this', db', res) := flag Scenario.db_two (Scenario.stars 2 8 3) (Some "spam") in
  res = Ok true
  /\ is_flagged this' = true
  /\ is_approved this' = false
  /\ ratings db' = [Scenario.stars 1 7 5; this']
  /\ stored_stats db' 1 = Some (400, 2)
  /\ ratingStats (approved_of db' 1) = (Some 500, 1).
Proof. vm_compute. repeat split. Qed.

(** The new row is among the ratings that the recompute reads. *)
Lemma getRatings_after_insert (db : DB) (st : Store) (r : Rating) :
  store_id r = st_id st ->
  getRatings (with_ratings db (ratings db ++ [r])) st = getRatings db st ++ [r].
Proof.
  intros H. unfold getRatings, with_ratings. simpl.
  rewrite List.filter_app. simpl. rewrite H, N.eqb_refl. reflexivity.
Qed.

Lemma validate_stars (r : Rating) : validate r = [] -> valid_stars (rating r).
Proof.
  unfold validate. intros H. apply app_eq_nil in H as [H _].
  unfold validate_rating, check in H. unfold valid_stars.
  destruct (rating r <? 1) eqn:E1; [discriminate|].
  destruct (5 <? rating r) eqn:E2; [discriminate|].
  apply Z.ltb_ge in E1, E2. lia.
Qed.



End Moderation.

(** ** One review per user and store *)

Section AddReview.

Import Controller.
Local Open Scope list_scope.

Variable validReview : Review -> bool.
Variable flt : Faults.

Lemma find_none_filter {A} (p : A -> bool) (l : list A) :
  List.find p l = None -> List.filter p l = [].
Proof.
  induction l as [|x l IH]; simpl; [reflexivity|].
  destruct (p x); [discriminate | exact IH].
Qed.

Lemma find_some_filter {A} (p : A -> bool) (l : list A) (x : A) :
  List.find p l = Some x -> (0 < length (List.filter p l))%nat.
Proof.
  induction l as [|y l IH]; simpl; [discriminate|].
  destruct (p y); simpl; [lia | exact IH].
Qed.

Lemma findOne_none_rows (db : DB) (u s : N) :
  findOne db u s = None -> rows_of db u s = 0%nat.
Proof. intros H. unfold rows_of. unfold findOne in H. rewrite (find_none_filter _ _ H). reflexivity. Qed.

Lemma findOne_some_rows (db : DB) (u s : N) (r : Review) :
  findOne db u s = Some r -> (0 < rows_of db u s)%nat.
Proof. intros H. unfold rows_of. exact (find_some_filter _ _ _ H). Qed.

(** The recompute touches no review and removes no store. *)
Lemma updateStoreRating_reviews (f : Faults) (db : DB) (sid : N) :
  reviews (fst (fst (updateStoreRating f db sid))) = reviews db.
Proof.
  unfold updateStoreRating, updateStoreRating_try.
  destruct (find_throws f); [reflexivity|].
  destruct (length (find_by_store db sid) =? 0)%nat; destruct (update_throws f); reflexivity.
Qed.

Lemma findByIdAndUpdate_keeps (db : DB) (sid k : N) (avg : spec_float) (total : Z) :
  is_Some (stores db !! k) -> is_Some (stores (findByIdAndUpdate db sid avg total) !! k).
Proof.
  intros [st Hst]. unfold findByIdAndUpdate. simpl.
  destruct (decide (sid = k)) as [->|Hne].
  - rewrite lookup_alter_eq, Hst. simpl. eauto.
  - rewrite lookup_alter_ne by exact Hne. eauto.
Qed.

Lemma updateStoreRating_keeps (f : Faults) (db : DB) (sid k : N) :
  is_Some (stores db !! k) ->
  is_Some (stores (fst (fst (updateStoreRating f db sid))) !! k).
Proof.
  intros H. unfold updateStoreRating, updateStoreRating_try.
  destruct (find_throws f); [exact H|].
  destruct (length (find_by_store db sid) =? 0)%nat; destruct (update_throws f); simpl;
    try exact H; apply findByIdAndUpdate_keeps, H.
Qed.

(** The insert is refused when the pair is present, whatever the caller
    has looked up before. *)
Lemma Review_create_taken (db : DB) (doc existing : Review) :
  findOne db (user doc) (store doc) = Some existing ->
  exists reason, Review_create validReview db doc = Rejected reason.
Proof.
  intros H. unfold Review_create. destruct (negb (validReview doc)); [eauto|].
  rewrite H. eauto.
Qed.

Lemma Review_create_inserts (db db' : DB) (doc r : Review) :
  Review_create validReview db doc = Resolved (db', r) ->
  rows_of db (user doc) (store doc) = 0%nat
  /\ reviews db' = reviews db ++ [r]
  /\ stores db' = stores db
  /\ user r = user doc /\ store r = store doc.
Proof.
  unfold Review_create. destruct (negb (validReview doc)); [discriminate|].
  destruct (findOne db (user doc) (store doc)) eqn:E; [discriminate|].
  intros [= <- <-]. simpl. auto using findOne_none_rows.
Qed.

Lemma rows_of_app (db db' : DB) (r : Review) (u s : N) :
  reviews db' = reviews db ++ [r] ->
  rows_of db' u s
  = (rows_of db u s + if (user r =? u)%N && (store r =? s)%N then 1 else 0)%nat.
Proof.
  intros H. unfold rows_of. rewrite H, List.filter_app, length_app. simpl.
  destruct ((user r =? u)%N && (store r =? s)%N); reflexivity.
Qed.

(** What one step of [addReview] does to the collection of reviews: either
    nothing, or (at [AtCreate]) it adds one review for a pair that had
    none. *)
Lemma addReview_step_effect (db db' : DB) (req : AddReviewReq) (at_ at' : pc) :
  addReview_step validReview flt db req at_ = (db', at') ->
  (reviews db' = reviews db
   /\ created (req, at') = created (req, at_)
   /\ (failed (req, at') = true -> failed (req, at_) = false ->
       (0 < rows_of db (user_id (ar_user req)) (ar_storeId req))%nat
       \/ ar_errors req <> []
       \/ stores db !! ar_storeId req = None
       \/ validReview (new_review req) = false
       \/ store_throws flt = true))
  \/ (exists r,
        at_ = AtCreate /\ at' = AtRecompute r
        /\ reviews db' = reviews db ++ [r]
        /\ user r = user_id (ar_user req) /\ store r = ar_storeId req
        /\ rows_of db (user_id (ar_user req)) (ar_storeId req) = 0%nat).
Proof.
  destruct at_ as [| | |review|review|res]; simpl.
  - destruct (ar_errors req) eqn:Eerr.
    + destruct (store_throws flt) eqn:Ethrow.
      * intros [= <- <-]. left. split; [reflexivity|]. split; [reflexivity|].
        intros _ _. do 4 right. reflexivity.
      * unfold Store_findById.
        destruct (stores db !! ar_storeId req) eqn:Est; intros [= <- <-]; left;
          repeat split; auto; intros; auto.
    + intros [= <- <-]. left. repeat split; auto; intros _ _; right; left; discriminate.
  - destruct (findOne db _ _) eqn:E; intros [= <- <-]; left; repeat split; auto;
      try discriminate.
    intros _ _. left. exact (findOne_some_rows _ _ _ _ E).
  - destruct (Review_create validReview db (new_review req)) as [[db1 r]|reason] eqn:E.
    + intros [= <- <-]. right. exists r.
      apply Review_create_inserts in E as (H0 & Happ & _ & Hu & Hs). simpl in *.
      repeat split; auto.
    + intros [= <- <-]. left. repeat split; auto. intros _ _.
      unfold Review_create in E.
      destruct (validReview (new_review req)); simpl in E; [|auto].
      destruct (findOne db _ _) eqn:E1; [|discriminate].
      left. exact (findOne_some_rows _ _ _ _ E1).
  - pose proof (updateStoreRating_reviews flt db (ar_storeId req)) as Hr.
    destruct (updateStoreRating flt db (ar_storeId req)) as [[db1 c] log]. simpl in Hr.
    intros [= <- <-]. left. repeat split; auto; discriminate.
  - intros [= <- <-]. left. repeat split; auto; discriminate.
  - intros [= <- <-]. left. repeat split; auto; intros H1 H2; congruence.
Qed.

Lemma addReview_step_keeps_store (db db' : DB) (req : AddReviewReq) (at_ at' : pc) (k : N) :
  addReview_step validReview flt db req at_ = (db', at') ->
  is_Some (stores db !! k) -> is_Some (stores db' !! k).
Proof.
  intros H Hk. destruct at_ as [| | |review|review|res]; simpl in H.
  - destruct (ar_errors req);
      [destruct (store_throws flt); [|destruct (Store_findById db (ar_storeId req))]|];
      injection H as <- _; exact Hk.
  - destruct (findOne db _ _); injection H as <- _; exact Hk.
  - destruct (Review_create validReview db (new_review req)) as [[db1 r]|reason] eqn:E.
    + injection H as <- _. apply Review_create_inserts in E as (_ & _ & -> & _). exact Hk.
    + injection H as <- _. exact Hk.
  - pose proof (updateStoreRating_keeps flt db (ar_storeId req) k Hk) as Hr.
    destruct (updateStoreRating flt db (ar_storeId req)) as [[db1 c] log]. simpl in Hr.
    injection H as <- _. exact Hr.
  - injection H as <- _. exact Hk.
  - injection H as <- _. exact Hk.
Qed.

(** The unique pair is kept by every step. *)
Lemma addReview_step_unique (db db' : DB) (req : AddReviewReq) (at_ at' : pc) :
  addReview_step validReview flt db req at_ = (db', at') ->
  (forall u s, (rows_of db u s <= 1)%nat) ->
  forall u s, (rows_of db' u s <= 1)%nat.
Proof.
  intros H Hle u s.
  destruct (addReview_step_effect _ _ _ _ _ H) as [(Hr & _)|(r & _ & _ & Happ & Hu & Hs & H0)].
  - unfold rows_of. rewrite Hr. apply Hle.
  - rewrite (rows_of_app db db' r u s Happ).
    destruct ((user r =? u)%N && (store r =? s)%N) eqn:E.
    + apply andb_true_iff in E as [E1 E2]. apply N.eqb_eq in E1, E2. subst u s.
      rewrite Hu, Hs, H0. lia.
    + specialize (Hle u s). lia.
Qed.

Lemma resume_unique (w : World) (i : nat) :
  (forall u s, (rows_of (fst w) u s <= 1)%nat) ->
  forall u s, (rows_of (fst (resume validReview flt w i)) u s <= 1)%nat.
Proof.
  intros Hle. unfold resume. destruct (snd w !! i) as [[req at_]|]; [|exact Hle].
  destruct (addReview_step validReview flt (fst w) req at_) as [db' at'] eqn:E.
  simpl. exact (addReview_step_unique _ _ _ _ _ E Hle).
Qed.

Lemma run_schedule_unique (sched : list nat) (w : World) :
  (forall u s, (rows_of (fst w) u s <= 1)%nat) ->
  forall u s, (rows_of (fst (run_schedule validReview flt sched w)) u s <= 1)%nat.
Proof.
  unfold run_schedule. revert w. induction sched as [|i sched IH]; intros w Hle; simpl.
  - exact Hle.
  - apply IH, resume_unique, Hle.
Qed.

End AddReview.

(** ** Concurrent submits for one pair *)

Section AddReviewRace.

Import Controller.
Local Open Scope list_scope.

Variable validReview : Review -> bool.
Variable flt : Faults.
Variables u s : N.

Local Abbreviation well_formed := (Controller.well_formed validReview u s).
Local Abbreviation race_inv := (Controller.race_inv validReview u s).

Lemma count_insert {A} (b : A -> bool) (l : list A) (i : nat) (x y : A) :
  l !! i = Some y ->
  (length (List.filter b (<[i := x]> l)) + (if b y then 1 else 0)
   = length (List.filter b l) + (if b x then 1 else 0))%nat.
Proof.
  revert i. induction l as [|z l IH]; intros i H; [discriminate|].
  destruct i as [|i]; simpl in *.
  - injection H as ->. destruct (b x), (b y); simpl; lia.
  - specialize (IH i H). destruct (b z); simpl; lia.
Qed.

Lemma resume_inv (w : World) (i : nat) :
  store_throws flt = false ->
  race_inv w -> race_inv (resume validReview flt w i).
Proof.
  intros Hworks [Hstore Hcalls Hrows Hle Hfailed]. unfold resume.
  destruct (snd w !! i) as [[req at_]|] eqn:Ei; [|constructor; assumption].
  destruct (addReview_step validReview flt (fst w) req at_) as [db' at'] eqn:E.
  pose proof (Forall_lookup_1 _ _ _ _ Hcalls Ei) as (Hu & Hs & Herr & Hvalid).
  pose proof (Forall_lookup_1 _ _ _ _ Hfailed Ei) as Hf.
  simpl in Hu, Hs, Herr, Hvalid.
  pose proof (count_insert created (snd w) i (req, at') (req, at_) Ei) as Hcount.
  destruct (addReview_step_effect validReview flt _ _ _ _ _ E)
    as [(Hr & Hc & Hnew)|(r & -> & -> & Happ & Hur & Hsr & H0)].
  - assert (Hsame : rows_of db' u s = rows_of (fst w) u s)
      by (unfold rows_of; rewrite Hr; reflexivity).
    constructor; simpl.
    + exact (addReview_step_keeps_store validReview flt _ _ _ _ _ s E Hstore).
    + apply Forall_insert; [exact Hcalls | repeat split; assumption].
    + rewrite Hsame, Hrows. rewrite Hc in Hcount. destruct (created (req, at_)); lia.
    + rewrite Hsame. exact Hle.
    + rewrite Hsame. apply Forall_insert; [exact Hfailed|].
      intros Hnow. destruct (failed (req, at_)) eqn:Ewas; [exact (Hf Ewas)|].
      destruct (Hnew Hnow eq_refl) as [H|[H|[H|[H|H]]]].
      * rewrite Hu, Hs in H. exact H.
      * congruence.
      * rewrite Hs in H. destruct Hstore as [st Hst]. congruence.
      * congruence.
      * congruence.
  - rewrite Hu, Hs in H0.
    assert (Hone : rows_of db' u s = 1%nat).
    { rewrite (rows_of_app (fst w) db' r u s Happ), Hur, Hsr, Hu, Hs, !N.eqb_refl, H0.
      reflexivity. }
    constructor; simpl.
    + exact (addReview_step_keeps_store validReview flt _ _ _ _ _ s E Hstore).
    + apply Forall_insert; [exact Hcalls | repeat split; assumption].
    + rewrite Hone. simpl in Hcount. lia.
    + lia.
    + rewrite Hone. apply Forall_insert; [|intros _; lia].
      eapply Forall_impl; [exact Hfailed|]. intros p _ _. lia.
Qed.

Lemma run_schedule_inv (sched : list nat) (w : World) :
  store_throws flt = false ->
  race_inv w -> race_inv (run_schedule validReview flt sched w).
Proof.
  intros Hworks. unfold run_schedule. revert w.
  induction sched as [|i sched IH]; intros w H; simpl.
  - exact H.
  - apply IH, resume_inv; assumption.
Qed.

(** The answers of the calls of a race: a call ends with 201, with the
    duplicate-review error of its lookup, or, when its insert is refused,
    with the answer of the [catch] block. *)
Lemma addReview_step_answer (db db' : DB) (req : AddReviewReq) (at_ at' : pc) :
  store_throws flt = false ->
  is_Some (stores db !! s) ->
  well_formed (req, at_) ->
  race_answer (req, at_) ->
  addReview_step validReview flt db req at_ = (db', at') ->
  race_answer (req, at').
Proof.
  intros Hworks [st Hst] (Hu & Hs & Herr & Hvalid) Hans. simpl in Hu, Hs, Herr, Hvalid.
  unfold race_answer in *. simpl in *.
  destruct at_ as [| | |review|review|res]; simpl.
  - rewrite Herr, Hworks. unfold Store_findById. rewrite Hs, Hst. intros [= _ <-]. exact I.
  - destruct (findOne db _ _); intros [= _ <-]; auto.
  - destruct (Review_create validReview db (new_review req)) as [[db1 r]|reason];
      intros [= _ <-]; auto.
  - destruct (updateStoreRating flt db (ar_storeId req)) as [[db1 c] log].
    intros [= _ <-]. exact I.
  - intros [= _ <-]. auto.
  - intros [= _ <-]. exact Hans.
Qed.

Lemma resume_answers (w : World) (i : nat) :
  store_throws flt = false ->
  race_inv w ->
  Forall race_answer (snd w) ->
  Forall race_answer (snd (resume validReview flt w i)).
Proof.
  intros Hworks [Hstore Hcalls _ _ _] Hans. unfold resume.
  destruct (snd w !! i) as [[req at_]|] eqn:Ei; [|exact Hans].
  destruct (addReview_step validReview flt (fst w) req at_) as [db' at'] eqn:E.
  simpl. apply Forall_insert; [exact Hans|].
  apply (addReview_step_answer (fst w) db' req at_ at' Hworks Hstore); [| |exact E].
  - exact (Forall_lookup_1 _ _ _ _ Hcalls Ei).
  - exact (Forall_lookup_1 _ _ _ _ Hans Ei).
Qed.

Lemma run_schedule_answers (sched : list nat) (w : World) :
  store_throws flt = false ->
  race_inv w ->
  Forall race_answer (snd w) ->
  Forall race_answer (snd (run_schedule validReview flt sched w)).
Proof.
  intros Hworks. unfold run_schedule. revert w.
  induction sched as [|i sched IH]; intros w Hinv Hans; simpl.
  - exact Hans.
  - apply IH; [apply resume_inv | apply resume_answers]; assumption.
Qed.

Lemma start_answers (db : DB) (reqs : list AddReviewReq) :
  Forall race_answer (snd (start db reqs)).
Proof.
  unfold start. simpl. induction reqs as [|r l IH]; simpl; constructor; auto. exact I.
Qed.

Lemma start_inv (db : DB) (reqs : list AddReviewReq) :
  is_Some (stores db !! s) ->
  Forall (fun req => well_formed (req, AtFindStore)) reqs ->
  rows_of db u s = 0%nat ->
  race_inv (start db reqs).
Proof.
  intros Hstore Hreqs H0. unfold start. constructor; simpl.
  - exact Hstore.
  - induction Hreqs; simpl; constructor; auto.
  - rewrite H0. clear. induction reqs as [|r l IH]; simpl; auto.
  - lia.
  - clear. induction reqs as [|r l IH]; simpl; constructor; auto. discriminate.
Qed.

Lemma resume_length (w : World) (i : nat) :
  length (snd (resume validReview flt w i)) = length (snd w).
Proof.
  unfold resume. destruct (snd w !! i) as [[req at_]|]; [|reflexivity].
  destruct (addReview_step validReview flt (fst w) req at_). simpl. apply length_insert.
Qed.

Lemma run_schedule_length (sched : list nat) (w : World) :
  length (snd (run_schedule validReview flt sched w)) = length (snd w).
Proof.
  unfold run_schedule. revert w. induction sched as [|i sched IH]; intros w; simpl.
  - reflexivity.
  - rewrite IH. apply resume_length.
Qed.

Lemma succeeded_created (p : AddReviewReq * pc) :
  is_done p = true -> succeeded p = created p.
Proof. destruct p as [req []]; simpl; try discriminate. reflexivity. Qed.

Lemma filter_done (ps : list (AddReviewReq * pc)) :
  forallb is_done ps = true ->
  List.filter succeeded ps = List.filter created ps.
Proof.
  induction ps as [|p ps IH]; simpl; [reflexivity|].
  intros H. apply andb_true_iff in H as [Hd Hds].
  rewrite (succeeded_created p Hd), (IH Hds). reflexivity.
Qed.

(** When every call has ended, exactly one has answered 201, and the pair
    has exactly one row. *)
Lemma race_one_winner (w : World) :
  race_inv w -> snd w <> [] -> forallb is_done (snd w) = true ->
  length (List.filter succeeded (snd w)) = 1%nat /\ rows_of (fst w) u s = 1%nat.
Proof.
  intros [_ _ Hrows Hle Hfailed] Hne Hdone.
  rewrite (filter_done _ Hdone), <- Hrows.
  enough (0 < rows_of (fst w) u s)%nat by lia.
  destruct (snd w) as [|[req at_] ps] eqn:Eps; [congruence|].
  simpl in Hdone. apply andb_true_iff in Hdone as [Hd _].
  unfold is_done in Hd. simpl in Hd. destruct at_; try discriminate.
  inversion Hfailed as [|? ? Hf _]; subst.
  destruct (status res =? 201)%Z eqn:Est.
  - rewrite Hrows. simpl. unfold created at 1. simpl. rewrite Est. simpl. lia.
  - apply Hf. unfold failed. simpl. rewrite Est. reflexivity.
Qed.

End AddReviewRace.

(** ** The unique index of table ratings *)

Section UniqueIndex.

Import Models.
Local Open Scope list_scope.

Lemma updateRatingStats_ratings (db : DB) (st : Store) :
  ratings (fst (updateRatingStats db st)) = ratings db.
Proof.
  unfold updateRatingStats. destruct (ratingStats _) as [[avg|] total]; [|reflexivity].
  destruct (validate_store avg total); reflexivity.
Qed.

Lemma refresh_store_ratings (db : DB) (r : Rating) :
  ratings (fst (refresh_store db r)) = ratings db.
Proof.
  unfold refresh_store. destruct (getStore db r); [apply updateRatingStats_ratings | reflexivity].
Qed.

(** With a free id and no other row for the pair, no row at all holds the
    pair. *)
Lemma pair_free (db : DB) (this : Rating) :
  id_taken db (id this) = false ->
  pair_taken db this = false ->
  rows_of db (user_id this) (store_id this) = 0%nat.
Proof.
  unfold id_taken, pair_taken, rows_of, same_pair.
  induction (ratings db) as [|x l IH]; simpl; [reflexivity|].
  intros Hid Hpair.
  apply orb_false_iff in Hid as [Hx Hid]. apply orb_false_iff in Hpair as [Hp Hpair].
  rewrite Hx in Hp. simpl in Hp. rewrite Hp. apply IH; assumption.
Qed.

Lemma pair_present (db : DB) (this : Rating) :
  (0 < rows_of db (user_id this) (store_id this))%nat ->
  id_taken db (id this) = false ->
  pair_taken db this = true.
Proof.
  intros Hrows Hid. destruct (pair_taken db this) eqn:E; [reflexivity|].
  rewrite (pair_free db this Hid E) in Hrows. lia.
Qed.

(** [Rating.create] for a pair that has a row fails and stores nothing. *)
Lemma create_pair_present (db : DB) (new_id : N) (a : RatingAttrs) :
  (0 < rows_of db (a_user_id a) (a_store_id a))%nat ->
  exists e, create db new_id a = (db, Err e).
Proof.
  intros Hrows. unfold create.
  destruct (validate (build new_id a)); [|eauto].
  destruct (negb (enum_ok _)); [eauto|].
  destruct (id_taken db new_id) eqn:Eid; [eauto|].
  rewrite (pair_present db (build new_id a) Hrows Eid). eauto.
Qed.

(** [Rating.create] never gives a pair a second row. *)
Lemma create_unique (db : DB) (new_id : N) (a : RatingAttrs) :
  (forall u s, (rows_of db u s <= 1)%nat) ->
  forall u s, (rows_of (fst (create db new_id a)) u s <= 1)%nat.
Proof.
  intros Hle u s. unfold create.
  destruct (validate (build new_id a)); [|apply Hle].
  destruct (negb (enum_ok _)); [apply Hle|].
  destruct (id_taken db new_id) eqn:Eid; [apply Hle|].
  destruct (pair_taken db (build new_id a)) eqn:Epair; [apply Hle|].
  destruct (stores db !! store_id (build new_id a)); [|apply Hle].
  unfold afterCreate.
  pose proof (refresh_store_ratings
                (with_ratings db (ratings db ++ [build new_id a])) (build new_id a)) as Hr.
  destruct (refresh_store _ _) as [db' [x|e]]; simpl in *;
    unfold rows_of; rewrite Hr, List.filter_app, length_app; simpl;
    pose proof (pair_free db (build new_id a) Eid Epair) as H0;
    (destruct ((a_user_id a =? u)%N && (a_store_id a =? s)%N) eqn:E;
     [apply andb_true_iff in E as [E1 E2]; apply N.eqb_eq in E1, E2; subst u s;
      unfold rows_of in H0; simpl in *; rewrite H0; simpl; lia
     | specialize (Hle u s); unfold rows_of in Hle; simpl; lia]).
Qed.

End UniqueIndex.

Section OneReviewPerPair.

Import Controller.
Local Open Scope list_scope.

Lemma addReview_duplicate (validReview : Review -> bool) (flt : Faults)
    (db : DB) (req : AddReviewReq) (existing : Review) :
  findOne db (user_id (ar_user req)) (ar_storeId req) = Some existing ->
  exists res,
    addReview validReview flt db req = (db, Done res)
    /\ status res <> 201%Z
    /\ (ar_errors req = [] -> store_throws flt = false ->
        is_Some (stores db !! ar_storeId req) ->
        res = mkResponse 400 "You have already reviewed this store").
Proof.
  intros Hex. unfold addReview. simpl.
  destruct (ar_errors req) eqn:Eerr.
  - destruct (store_throws flt) eqn:Ethrow; simpl.
    + eexists. split; [reflexivity|]. split; [discriminate|]. intros _ H. discriminate.
    + unfold Store_findById. destruct (stores db !! ar_storeId req) eqn:Est; simpl.
      * rewrite Hex. simpl. eexists. split; [reflexivity|]. split; [discriminate|]. auto.
      * eexists. split; [reflexivity|]. split; [discriminate|].
        intros _ _ [st Hst]. discriminate.
  - simpl. eexists. split; [reflexivity|]. split; [discriminate|]. intros H. discriminate.
Qed.

(** A call whose insert finds the pair taken, whatever it has looked up
    before, is answered by the [catch] block: 500 and "Server Error". *)
Lemma addReview_insert_refused (validReview : Review -> bool) (flt : Faults)
    (db : DB) (req : AddReviewReq) (existing : Review) :
  findOne db (user_id (ar_user req)) (ar_storeId req) = Some existing ->
  addReview_step validReview flt db req AtCreate = (db, Done server_error).
Proof.
  intros Hex. simpl.
  destruct (Review_create_taken validReview db (new_review req) existing Hex) as [reason ->].
  reflexivity.
Qed.

(** When the lookup of the store throws, a submit is answered 500 and
    stores nothing. *)
Lemma addReview_store_throws (validReview : Review -> bool) (flt : Faults)
    (db : DB) (req : AddReviewReq) :
  store_throws flt = true -> ar_errors req = [] ->
  addReview validReview flt db req = (db, Done server_error).
Proof.
  intros Hthrow Herr. unfold addReview. simpl. rewrite Herr, Hthrow. reflexivity.
Qed.




End OneReviewPerPair.

(** ** Editing a review and replying to it *)

Section EditAndReply.

Import Controller.
Local Open Scope list_scope.

Variable validReview : Review -> bool.

Lemma findById_id (db : DB) (i : N) (r : Review) :
  findById db i = Some r -> _id r = i.
Proof.
  unfold findById. intros H. apply find_some in H as [_ H]. apply N.eqb_eq, H.
Qed.

(** Reading back a document that has just been saved. *)
Lemma find_saved (l : list Review) (doc r : Review) :
  List.find (fun x => (_id x =? _id doc)%N) l = Some r ->
  List.find (fun x => (_id x =? _id doc)%N)
    (map (fun x => if (_id x =? _id doc)%N then doc else x) l) = Some doc.
Proof.
  induction l as [|x l IH]; simpl; [discriminate|].
  destruct (_id x =? _id doc)%N eqn:E; simpl.
  - intros _. rewrite N.eqb_refl. reflexivity.
  - rewrite E. exact IH.
Qed.

Lemma find_other (l : list Review) (doc : Review) (j : N) :
  j <> _id doc ->
  List.find (fun x => (_id x =? j)%N)
    (map (fun x => if (_id x =? _id doc)%N then doc else x) l)
  = List.find (fun x => (_id x =? j)%N) l.
Proof.
  intros Hj. induction l as [|x l IH]; simpl; [reflexivity|].
  destruct (_id x =? _id doc)%N eqn:E; simpl.
  - apply N.eqb_eq in E.
    replace (_id doc =? j)%N with false by (symmetry; apply N.eqb_neq; congruence).
    replace (_id x =? j)%N with false by (symmetry; apply N.eqb_neq; congruence).
    exact IH.
  - destruct (_id x =? j)%N; [reflexivity | exact IH].
Qed.

Lemma Review_save_read (db db' : DB) (doc r : Review) :
  findById db (_id doc) = Some r ->
  Review_save validReview db doc = Resolved db' ->
  findById db' (_id doc) = Some doc
  /\ (forall j, j <> _id doc -> findById db' j = findById db j)
  /\ stores db' = stores db.
Proof.
  unfold Review_save. intros Hr. destruct (negb (validReview doc)); [discriminate|].
  intros [= <-]. unfold findById in *. simpl.
  split; [exact (find_saved _ _ _ Hr)|]. split; [|reflexivity].
  intros j Hj. apply find_other, Hj.
Qed.

Lemma findById_after_recompute (flt : Faults) (db : DB) (sid i : N) :
  findById (fst (fst (updateStoreRating flt db sid))) i = findById db i.
Proof. unfold findById. rewrite updateStoreRating_reviews. reflexivity. Qed.

(** C7 (as amended). An edit by the owner of the review assigns
    [f || review.f] to each of rating, title, comment and images: a field
    that is left out keeps its value, and so does a field that is sent
    with a falsy value (the number 0, the empty string); a field sent with
    any other value gets that value.  The other fields of the review and
    all the other reviews stay as they are. *)
Theorem updateReview_partial (flt : Faults) (db : DB) (req : UpdateReviewReq)
    (review : Review) :
  findById db (ur_id req) = Some review ->
  user review = user_id (ur_user req) ->
  ur_errors req = [] ->
  validReview (assign_fields review req) = true ->
  (exists db',
      updateReview validReview flt db req
        = (db', mkResponse 200 "Review updated successfully")
      /\ findById db' (ur_id req) = Some (assign_fields review req)
      /\ forall j, j <> ur_id req -> findById db' j = findById db j)
  /\ (ur_rating req = None -> rating (assign_fields review req) = rating review)
  /\ (ur_title req = None -> title (assign_fields review req) = title review)
  /\ (ur_comment req = None -> comment (assign_fields review req) = comment review)
  /\ (ur_images req = None -> images (assign_fields review req) = images review)
  /\ (ur_rating req = Some 0%Z -> rating (assign_fields review req) = rating review)
  /\ (ur_title req = Some "" -> title (assign_fields review req) = title review)
  /\ (ur_comment req = Some "" -> comment (assign_fields review req) = comment review)
  /\ (forall v, ur_rating req = Some v -> v <> 0%Z -> rating (assign_fields review req) = v)
  /\ (forall v, ur_title req = Some v -> v <> "" -> title (assign_fields review req) = Some v)
  /\ (forall v, ur_comment req = Some v -> v <> "" ->
      comment (assign_fields review req) = Some v)
  /\ (forall v, ur_images req = Some v -> images (assign_fields review req) = v)
  /\ (_id (assign_fields review req), user (assign_fields review req),
      store (assign_fields review req), helpfulVotes (assign_fields review req),
      reply (assign_fields review req))
     = (_id review, user review, store review, helpfulVotes review, reply review).
Proof.
  intros Hfind Howner Herr Hvalid.
  pose proof (findById_id db _ _ Hfind) as Hid.
  split.
  - unfold updateReview. rewrite Hfind, Howner, N.eqb_refl, Herr. simpl negb. cbv iota.
    destruct (Review_save validReview db (assign_fields review req)) as [db1|reason] eqn:Es.
    + assert (Hid' : _id (assign_fields review req) = ur_id req) by exact Hid.
      rewrite <- Hid' in Hfind.
      destruct (Review_save_read db db1 _ _ Hfind Es) as (Hread & Hothers & _).
      rewrite Hid' in Hread, Hothers.
      pose proof (findById_after_recompute flt db1 (store review)) as Hrec.
      destruct (updateStoreRating flt db1 (store review)) as [[db2 c] log]. simpl in Hrec.
      exists db2. split; [reflexivity|]. split.
      * rewrite Hrec. exact Hread.
      * intros j Hj. rewrite Hrec. apply Hothers, Hj.
    + unfold Review_save in Es. rewrite Hvalid in Es. discriminate.
  - unfold assign_fields. simpl.
    repeat split.
    + intros ->. reflexivity.
    + intros ->. reflexivity.
    + intros ->. reflexivity.
    + intros ->. reflexivity.
    + intros ->. reflexivity.
    + intros ->. reflexivity.
    + intros ->. reflexivity.
    + intros v -> Hv. simpl. destruct (v =? 0)%Z eqn:E; [apply Z.eqb_eq in E; congruence|].
      reflexivity.
    + intros v -> Hv. simpl. destruct (String.eqb v "") eqn:E;
        [apply String.eqb_eq in E; congruence|]. reflexivity.
    + intros v -> Hv. simpl. destruct (String.eqb v "") eqn:E;
        [apply String.eqb_eq in E; congruence|]. reflexivity.
    + intros v ->. reflexivity.
Qed.

End EditAndReply.

(** The owner of review 1 sends 4 stars only: the rating becomes 4 and the
    title stays. *)
Lemma updateReview_partial_witness :
  exists db',
    Controller.updateReview Scenario.stars_1_to_5 Controller.no_faults
      Scenario.c_db_one Scenario.four_stars
      = (db', Controller.mkResponse 200 "Review updated successfully")
    /\ Controller.findById db' 1
       = Some (Controller.mkReview 1 7 1 4 (Some "Good") None [] 0 None).
Proof.
  destruct (updateReview_partial Scenario.stars_1_to_5 Controller.no_faults
              Scenario.c_db_one Scenario.four_stars (Scenario.c_review 1 7 5)
              eq_refl eq_refl eq_refl eq_refl) as [(db' & H1 & H2 & _) _].
  exists db'. split; [exact H1 | exact H2].
Defined.

(** C7, counterexample.  The owner of review 1, whose title is "Good",
    sends the empty title: the edit succeeds and the title is still
    "Good". *)
Lemma updateReview_empty_title_ignored :
  let '(db', res) :=
    Controller.updateReview Scenario.stars_1_to_5 Controller.no_faults
      Scenario.c_db_one Scenario.clear_title in
  Controller.ur_title Scenario.clear_title = Some ""
  /\ Controller.status res = 200%Z
  /\ Controller.title <$> Controller.findById db' 1 = Some (Some "Good").
Proof. vm_compute. repeat split. Qed.

Section Replies.

Local Open Scope list_scope.

Variable validReview : Controller.Review -> bool.

Lemma reply_object_keys (text : string) (now : Z) :
  Controller.reply_object text now !! "text" = Some (Controller.JString text)
  /\ Controller.reply_object text now !! "date" = Some (Controller.JDate now)
  /\ forall k, k <> "text" -> k <> "date" -> Controller.reply_object text now !! k = None.
Proof.
  unfold Controller.reply_object. split; [|split].
  - apply lookup_insert_eq.
  - rewrite lookup_insert_ne by discriminate. apply lookup_insert_eq.
  - intros k H1 H2. rewrite !lookup_insert_ne by congruence. apply lookup_empty.
Qed.

Lemma validate_reply_rejected (this : Models.Rating) (rep : Models.Reply) :
  Models.reply_text rep = "" \/ (1000 < Models.strlen (Models.reply_text rep))%Z ->
  Models.validate (Models.set_reply this (Some rep)) <> [].
Proof.
  intros H Hnil. unfold Models.validate in Hnil.
  do 5 (apply app_eq_nil in Hnil as [_ Hnil]).
  apply app_eq_nil in Hnil as [Hnil _]. simpl in Hnil. revert Hnil.
  destruct (String.eqb (Models.reply_text rep) "") eqn:E; [discriminate|].
  destruct H as [H|H]; [rewrite H in E; discriminate|].
  apply Z.ltb_lt in H. unfold Models.check. rewrite H. discriminate.
Qed.

(** The same for the validators that the save of [addReply] runs. *)
Lemma reply_validator_rejects (this : Models.Rating) (rep : Models.Reply) :
  Models.reply_text rep = "" \/ (1000 < Models.strlen (Models.reply_text rep))%Z ->
  Models.validate_changed true this (Models.set_reply this (Some rep)) <> [].
Proof.
  intros H Hnil. unfold Models.validate_changed in Hnil.
  do 5 (apply app_eq_nil in Hnil as [_ Hnil]).
  apply app_eq_nil in Hnil as [Hnil _]. simpl in Hnil. revert Hnil.
  destruct (String.eqb (Models.reply_text rep) "") eqn:E; [discriminate|].
  destruct H as [H|H]; [rewrite H in E; discriminate|].
  apply Z.ltb_lt in H. unfold Models.check. rewrite H. discriminate.
Qed.

(** The validators of the changed columns are among the validators of the
    row. *)
Lemma validate_changed_nil (fresh_reply : bool) (previous this : Models.Rating) :
  Models.validate this = [] -> Models.validate_changed fresh_reply previous this = [].
Proof.
  unfold Models.validate, Models.validate_changed, Models.if_changed. intros H.
  repeat (apply app_eq_nil in H as [-> H]). rewrite H.
  repeat match goal with |- context [if ?b then _ else _] => destruct b end; reflexivity.
Qed.

(** The save that a method runs after it has assigned a valid value to
    one column whose change affects neither the enum nor the pair. *)
Lemma save_with_valid (fresh_reply : bool) (db : Models.DB) (previous this : Models.Rating) :
  Models.validate this = [] ->
  Models.enum_ok (Models.flag_reason this) = true ->
  Models.pair_taken db this = false ->
  Models.save_with fresh_reply db previous this
  = Models.afterUpdate
      (Models.with_ratings db (Models.replace_rating this (Models.ratings db))) previous this.
Proof.
  intros Hv Henum Hpair. unfold Models.save_with.
  rewrite (validate_changed_nil _ _ _ Hv), Henum, Hpair, !andb_false_r. reflexivity.
Qed.

(** A save that changes neither the stars nor the approval runs no
    recompute. *)
Lemma afterUpdate_unchanged (db : Models.DB) (previous this : Models.Rating) :
  Models.rating this = Models.rating previous ->
  Models.is_approved this = Models.is_approved previous ->
  Models.afterUpdate db previous this = (db, Models.Ok tt).
Proof.
  intros H1 H2. unfold Models.afterUpdate. rewrite H1, H2, Z.eqb_refl, eqb_reflx. reflexivity.
Qed.


End Replies.



(** ** Errors of the recompute *)

Section RecomputeErrors.

Local Open Scope list_scope.

Lemma updateStoreRating_resolves (flt : Controller.Faults) (db : Controller.DB) (sid : N) :
  snd (fst (Controller.updateStoreRating flt db sid)) = Controller.Resolved tt.
Proof.
  unfold Controller.updateStoreRating.
  destruct (Controller.updateStoreRating_try flt db sid) as [db' [[]|reason]]; reflexivity.
Qed.

Lemma updateStoreRating_fault (flt : Controller.Faults) (db : Controller.DB) (sid : N) :
  Controller.find_throws flt || Controller.update_throws flt = true ->
  fst (fst (Controller.updateStoreRating flt db sid)) = db
  /\ snd (Controller.updateStoreRating flt db sid) <> [].
Proof.
  intros H. unfold Controller.updateStoreRating, Controller.updateStoreRating_try.
  destruct (Controller.find_throws flt); simpl in *; [split; [reflexivity | discriminate]|].
  rewrite H.
  destruct (length (Controller.find_by_store db sid) =? 0)%nat; simpl;
    split; first [reflexivity | discriminate].
Qed.

Lemma refresh_store_error (db db' : Models.DB) (r : Models.Rating) (e : Models.error) :
  Models.refresh_store db r = (db', Models.Err e) -> db' = db.
Proof.
  unfold Models.refresh_store. destruct (Models.getStore db r) as [st|].
  - apply updateRatingStats_error.
  - discriminate.
Qed.

(** C9 (as amended). An error raised inside the controller's
    [updateStoreRating] is caught there and written to the console: the call
    resolves all the same, [addReview] goes on to its answer, and the store
    is as it was.  An error of [Store.updateRatingStats], whose save of the
    statistics is rejected, is passed on: the hook and with it the save of
    the rating are rejected with this error, and the statistics of the
    stores are as they were. *)
Theorem recompute_failures :
  (forall flt db sid,
      snd (fst (Controller.updateStoreRating flt db sid)) = Controller.Resolved tt)
  /\ (forall flt db sid,
      Controller.find_throws flt || Controller.update_throws flt = true ->
      fst (fst (Controller.updateStoreRating flt db sid)) = db
      /\ snd (Controller.updateStoreRating flt db sid) <> [])
  /\ (forall validReview flt db req review,
      snd (Controller.addReview_step validReview flt db req (Controller.AtRecompute review))
        = Controller.AtPopulate review)
  /\ (forall db this db' e,
      Models.updateRatingStats db this = (db', Models.Err e) -> db' = db)
  /\ (forall db previous this db' e,
      Models.validate this = [] ->
      Models.enum_ok (Models.flag_reason this) = true ->
      Models.pair_taken db this = false ->
      Models.afterUpdate
        (Models.with_ratings db (Models.replace_rating this (Models.ratings db)))
        previous this = (db', Models.Err e) ->
      Models.save db previous this = (db', Models.Err e)
      /\ Models.stores db' = Models.stores db).
Proof.
  split; [exact updateStoreRating_resolves|].
  split; [exact updateStoreRating_fault|].
  split.
  { intros validReview flt db req review. simpl.
    destruct (Controller.updateStoreRating flt db (Controller.ar_storeId req)) as [[db' c] log].
    reflexivity. }
  split; [intros db this db' e; apply updateRatingStats_error|].
  intros db previous this db' e Hv Henum Hpair Hhook.
  split.
  - unfold Models.save. rewrite (save_with_valid false db previous this Hv Henum Hpair).
    exact Hhook.
  - unfold Models.afterUpdate in Hhook.
    destruct (_ || _) in Hhook; [|discriminate].
    apply refresh_store_error in Hhook. rewrite Hhook. reflexivity.
Qed.

(** The find of the recompute throws: the store keeps its values.  A
    table with a row of 9 stars: rejecting the other review makes the
    recompute fail, and [reject] fails with its error. *)
Lemma recompute_failures_witness :
  fst (fst (Controller.updateStoreRating Scenario.find_fails Scenario.c_db 1)) = Scenario.c_db
  /\ Models.save Scenario.db_bad (Scenario.stars 2 8 3)
       (Models.set_moderation (Scenario.stars 2 8 3) false None false)
     = (Models.with_ratings Scenario.db_bad
          (Models.replace_rating (Models.set_moderation (Scenario.stars 2 8 3) false None false)
             (Models.ratings Scenario.db_bad)),
        Models.Err (Models.ValidationError ["Rating cannot exceed 5"])).
Proof.
  split.
  - apply (proj1 (proj2 recompute_failures) Scenario.find_fails Scenario.c_db 1%N).
    reflexivity.
  - apply (proj2 (proj2 (proj2 (proj2 recompute_failures)))
             Scenario.db_bad (Scenario.stars 2 8 3)
             (Models.set_moderation (Scenario.stars 2 8 3) false None false)).
    + reflexivity.
    + reflexivity.
    + reflexivity.
    + vm_compute. reflexivity.
Defined.

(** C9, counterexample.  The find of the recompute throws: the error is
    raised in the [try] block, and the caller of [updateStoreRating] sees the
    call resolve; [addReview] answers 201. *)
Lemma recompute_error_swallowed :
  Controller.updateStoreRating_try Scenario.find_fails Scenario.c_db 1
    = (Scenario.c_db, Controller.Rejected "find failed")
  /\ Controller.updateStoreRating Scenario.find_fails Scenario.c_db 1
    = (Scenario.c_db, Controller.Resolved tt, ["Error updating store rating: find failed"])
  /\ snd (Controller.addReview Scenario.stars_1_to_5 Scenario.find_fails Scenario.c_empty
            (Scenario.submit 5))
    = Controller.Done (Controller.mkResponse 201 "Review added successfully").
Proof. vm_compute. repeat split. Qed.

End RecomputeErrors.

(** ** Termination of the slug loop on a table of stores *)

Section SlugTermination.

Import Slug.
Local Open Scope list_scope.

Lemma append_inj_l (p s t : string) : (p ++ s)%string = (p ++ t)%string -> s = t.
Proof. induction p as [|c p IH]; simpl; [auto|]. intros [= H]. auto. Qed.

Lemma decimal_inj (n m : N) : decimal n = decimal m -> n = m.
Proof.
  unfold decimal. intros H. apply DecimalN.Unsigned.to_uint_inj.
  pose proof (NilEmpty.usu (N.to_uint n)) as Hn. rewrite H, NilEmpty.usu in Hn.
  congruence.
Qed.

Lemma candidate_inj (base : string) (n m : N) :
  candidate base n = candidate base m -> n = m.
Proof.
  unfold candidate. intros H. apply append_inj_l in H. simpl in H.
  injection H as H. apply decimal_inj, H.
Qed.

(** If the attempts up to number [n] are all taken, then [n] different
    candidates are among the taken slugs. *)
Lemma taken_candidates (existsFn : string -> bool) (taken : list string) (base : string) (n : nat) :
  (forall x, existsFn x = true -> x ∈ taken) ->
  (forall j, (j <= n)%nat -> existsFn (attempt base j) = true) ->
  (n <= length taken)%nat.
Proof.
  intros Hin Hall.
  set (cs := (fun k => candidate base (N.of_nat k)) <$> seq 1 n).
  assert (Hnd : NoDup cs).
  { apply NoDup_fmap_2_strong; [|apply NoDup_seq].
    intros a b _ _ H. apply candidate_inj in H. lia. }
  assert (Hincl : forall x, x ∈ cs -> x ∈ taken).
  { intros x Hx. apply list_elem_of_fmap in Hx as (k & -> & Hk).
    apply elem_of_seq in Hk. apply Hin.
    specialize (Hall k ltac:(lia)). destruct k; [lia|]. exact Hall. }
  pose proof (submseteq_length _ _ (NoDup_submseteq _ _ Hnd Hincl)) as Hlen.
  unfold cs in Hlen. rewrite length_fmap, length_seq in Hlen. exact Hlen.
Qed.

Lemma length_omap_le {A B} (f : A -> option B) (l : list A) :
  (length (omap f l) <= length l)%nat.
Proof. induction l as [|x l IH]; csimpl; [lia|]. destruct (f x); simpl; lia. Qed.

(** Some attempt among the first [n + 1] is free, when those before it are
    taken. *)
Lemma first_free_exists (existsFn : string -> bool) (base : string) (n : nat) :
  (forall j, (j <= n)%nat -> existsFn (attempt base j) = true)
  \/ exists k, (k <= n)%nat
       /\ (forall j, (j < k)%nat -> existsFn (attempt base j) = true)
       /\ existsFn (attempt base k) = false.
Proof.
  induction n as [|n IH].
  - destruct (existsFn (attempt base 0)) eqn:E.
    + left. intros j Hj. replace j with 0%nat by lia. exact E.
    + right. exists 0%nat. split; [lia|]. split; [intros j Hj; lia | exact E].
  - destruct IH as [Hall|(k & Hk & Hlt & Hfree)].
    + destruct (existsFn (attempt base (S n))) eqn:E.
      * left. intros j Hj. destruct (Nat.eq_dec j (S n)) as [->|Hne]; [exact E|].
        apply Hall. lia.
      * right. exists (S n). split; [lia|]. split; [|exact E].
        intros j Hj. apply Hall. lia.
    + right. exists k. split; [lia|]. split; assumption.
Qed.

Lemma slug_taken_in (db : Models.DB) (x : string) :
  Models.slug_taken db x = true ->
  x ∈ omap (fun kv : N * Models.Store => Models.st_slug (snd kv))
        (map_to_list (Models.stores db)).
Proof.
  unfold Models.slug_taken. intros H. apply existsb_exists in H as (kv & Hkv & Hx).
  apply bool_decide_eq_true in Hx.
  apply list_elem_of_omap. exists kv. split; [|exact Hx].
  apply list_elem_of_In, Hkv.
Qed.

(** On a table of stores the loop of [generateSlug] ends: with fuel for two
    lookups more than there are stores it returns the first free attempt. *)
Lemma generateSlug_terminates (db : Models.DB) (name : string) :
  exists k,
    (k <= S (size (Models.stores db)))%nat
    /\ Models.generateSlug (S (S (size (Models.stores db)))) db name
       = Some (attempt (baseSlug name) k).
Proof.
  set (taken := omap (fun kv : N * Models.Store => Models.st_slug (snd kv))
                  (map_to_list (Models.stores db))).
  assert (Hlen : (length taken <= size (Models.stores db))%nat).
  { unfold taken. etransitivity; [apply length_omap_le|].
    rewrite length_map_to_list. reflexivity. }
  destruct (first_free_exists (Models.slug_taken db) (baseSlug name)
              (S (size (Models.stores db)))) as [Hall|(k & Hk & Hlt & Hfree)].
  - pose proof (taken_candidates (Models.slug_taken db) taken (baseSlug name) _
                  (slug_taken_in db) Hall). lia.
  - exists k. split; [exact Hk|].
    unfold Models.generateSlug, generateSlug.
    change (baseSlug name) with (attempt (baseSlug name) 0) at 2.
    change 1%N with (N.of_nat 1).
    apply (probe_first_free (Models.slug_taken db) (baseSlug name) k 0); [|exact Hfree | lia].
    intros j Hj. apply Hlt. lia.
Qed.

End SlugTermination.

(** ** More on the slugs *)

Section SlugMore.

Import Slug.

Lemma probe_free fuel existsFn base :
  forall slug n r, probe fuel existsFn base slug n = Some r -> existsFn r = false.
Proof.
  induction fuel as [|fuel IH]; intros slug n r; simpl; [discriminate|].
  destruct (existsFn slug) eqn:E.
  - apply IH.
  - intros [= <-]. exact E.
Qed.

(** X1. Whatever the oracle and however many lookups are allowed, a slug
    that [generateSlug] returns is one that the oracle has reported
    free. *)
Theorem generateSlug_free (fuel : nat) (existsFn : string -> bool) (name slug : string) :
  generateSlug fuel existsFn name = Some slug -> existsFn slug = false.
Proof. unfold generateSlug. apply probe_free. Qed.

Lemma generateSlug_free_witness :
  (fun s => String.eqb s "joes-cafe" || String.eqb s "joes-cafe-1") "joes-cafe-2" = false.
Proof.
  apply (generateSlug_free 3 (fun s => String.eqb s "joes-cafe" || String.eqb s "joes-cafe-1")
           "Joe's Cafe" "joes-cafe-2").
  reflexivity.
Defined.

Lemma slug_char_lower c : slug_char c = true -> lower_char c = c.
Proof.
  destruct c as [[] [] [] [] [] [] [] []]; vm_compute; intros; congruence.
Qed.

Lemma slug_char_keep c : slug_char c = true -> keep_char c = true.
Proof.
  unfold slug_char, keep_char. intros H.
  destruct (is_lower c), (is_digit c), (is_hyphen c); simpl in *; try discriminate;
    rewrite ?orb_true_r; reflexivity.
Qed.

Lemma toLowerCase_slug s : all_chars slug_char s = true -> toLowerCase s = s.
Proof.
  induction s as [|c s IH]; simpl; [reflexivity|].
  intros [Hc Hs]%andb_prop. rewrite (slug_char_lower c Hc), IH by assumption. reflexivity.
Qed.

Lemma strip_slug s : all_chars slug_char s = true -> strip s = s.
Proof.
  induction s as [|c s IH]; simpl; [reflexivity|].
  intros [Hc Hs]%andb_prop. rewrite (slug_char_keep c Hc), IH by assumption. reflexivity.
Qed.

Lemma replace_spaces_none s b : all_chars slug_char s = true -> replace_runs is_space b s = s.
Proof.
  revert b. induction s as [|c s IH]; intros b; simpl; [reflexivity|].
  intros [Hc Hs]%andb_prop. rewrite (slug_char_not_space c Hc), IH by assumption. reflexivity.
Qed.

Lemma replace_hyphens_none s :
  double_hyphen s = false ->
  forall b, (b = true -> starts_with_hyphen s = false) ->
  replace_runs is_hyphen b s = s.
Proof.
  induction s as [|c s IH]; simpl; [reflexivity|].
  intros [H1 H2]%orb_false_elim b Hb.
  destruct (is_hyphen c) eqn:Ec.
  - simpl in H1. destruct b; [specialize (Hb eq_refl); discriminate|].
    rewrite (is_hyphen_eq c Ec). f_equal. apply IH; auto.
  - f_equal. apply IH; auto. discriminate.
Qed.

(** X3. The base slug of a base slug is that base slug: a store that is
    named after its own slug keeps it as base. *)
Theorem baseSlug_idempotent (name : string) : baseSlug (baseSlug name) = baseSlug name.
Proof.
  assert (Hs : all_chars slug_char (baseSlug name) = true).
  { rewrite baseSlug_unfold. apply replace_hyphens_slug, replace_spaces_slug, strip_keeps. }
  assert (Hd : double_hyphen (baseSlug name) = false).
  { rewrite baseSlug_unfold. apply replace_hyphens_single. }
  rewrite (baseSlug_unfold (baseSlug name)).
  rewrite toLowerCase_slug, strip_slug, replace_spaces_none by exact Hs.
  apply replace_hyphens_none; [exact Hd | discriminate].
Qed.

Lemma slug_free_in (db : Models.DB) (x : string) :
  Models.slug_taken db x = false ->
  forall k st, Models.stores db !! k = Some st -> Models.st_slug st <> Some x.
Proof.
  unfold Models.slug_taken. intros H k st Hk Hx.
  apply not_true_iff_false in H. apply H.
  apply existsb_exists. exists (k, st). split.
  - apply list_elem_of_In, elem_of_map_to_list. exact Hk.
  - simpl. apply bool_decide_eq_true. exact Hx.
Qed.

(** The slug that [generateSlug] finds on a table of stores. *)
Lemma generateSlug_fresh (db : Models.DB) (name : string) :
  exists k,
    (k <= S (size (Models.stores db)))%nat
    /\ Models.generateSlug (S (S (size (Models.stores db)))) db name
       = Some (spec_attempt (baseSlug name) k)
    /\ forall i st, Models.stores db !! i = Some st ->
         Models.st_slug st <> Some (spec_attempt (baseSlug name) k).
Proof.
  destruct (generateSlug_terminates db name) as (k & Hk & Hgen).
  exists k. rewrite <- attempt_spec.
  split; [exact Hk|]. split; [exact Hgen|].
  apply slug_free_in. exact (probe_free _ _ _ _ _ _ Hgen).
Qed.

(** X2. On a table of [n] stores the loop of [generateSlug] ends within
    [n + 2] lookups, and it returns one of the probes [base], [base-1], ...,
    [base-(n+1)], one that is the slug of no store. *)
Theorem generateSlug_table (db : Models.DB) (name : string) :
  exists k slug,
    (k <= S (size (Models.stores db)))%nat
    /\ slug = spec_attempt (baseSlug name) k
    /\ Models.generateSlug (S (S (size (Models.stores db)))) db name = Some slug
    /\ forall i st, Models.stores db !! i = Some st -> Models.st_slug st <> Some slug.
Proof.
  destruct (generateSlug_fresh db name) as (k & Hk & Hgen & Hfree).
  exists k, (spec_attempt (baseSlug name) k). auto.
Qed.

End SlugMore.

(** ** The slug hooks and the opening hours of Store.js *)

Section Hooks.

Import Slug StoreHooks.

(** X5. [beforeCreate] changes nothing but the slug.  A store that comes
    with a slug keeps it; a store without one gets a probe of its name that
    is the slug of no store in the table. *)
Theorem beforeCreate_slug (db : Models.DB) (store : Models.Store) :
  exists store',
    beforeCreate (S (S (size (Models.stores db)))) db store = Some store'
    /\ with_slug store' (Models.st_slug store) = store
    /\ (no_slug (Models.st_slug store) = false -> store' = store)
    /\ (no_slug (Models.st_slug store) = true ->
        exists k,
          (k <= S (size (Models.stores db)))%nat
          /\ Models.st_slug store' = Some (spec_attempt (baseSlug (Models.st_name store)) k)
          /\ forall i st, Models.stores db !! i = Some st ->
               Models.st_slug st <> Models.st_slug store').
Proof.
  unfold beforeCreate. destruct (no_slug (Models.st_slug store)) eqn:E.
  - destruct (generateSlug_fresh db (Models.st_name store)) as (k & Hk & Hgen & Hfree).
    rewrite Hgen. eexists. split; [reflexivity|].
    split; [destruct store; reflexivity|]. split; [discriminate|].
    intros _. exists k. simpl. auto.
  - exists store. split; [reflexivity|]. split; [destruct store; reflexivity|].
    split; [reflexivity | discriminate].
Qed.

(** X6. [beforeUpdate].  (1) When the name of a stored store changes and
    its slug is left as it was, the store gets a new slug, a probe of the
    new name that no store of the table has: since the row of the store
    itself is in the table, the new slug always differs from the old one,
    also when the new name has the same base.  (2) When the name is
    unchanged, or the slug has been changed as well, the hook changes
    nothing. *)
Theorem beforeUpdate_slug (db : Models.DB) (previous store : Models.Store) :
  (Models.stores db !! Models.st_id previous = Some previous ->
   Models.st_name store <> Models.st_name previous ->
   Models.st_slug store = Models.st_slug previous ->
   exists k,
     (k <= S (size (Models.stores db)))%nat
     /\ beforeUpdate (S (S (size (Models.stores db)))) db previous store
        = Some (with_slug store (Some (spec_attempt (baseSlug (Models.st_name store)) k)))
     /\ Models.st_slug previous <> Some (spec_attempt (baseSlug (Models.st_name store)) k)
     /\ forall i st, Models.stores db !! i = Some st ->
          Models.st_slug st <> Some (spec_attempt (baseSlug (Models.st_name store)) k))
  /\ (Models.st_name store = Models.st_name previous
      \/ Models.st_slug store <> Models.st_slug previous ->
      forall fuel, beforeUpdate fuel db previous store = Some store).
Proof.
  split.
  - intros Hrow Hname Hslug. unfold beforeUpdate.
    apply String.eqb_neq in Hname. rewrite Hname. simpl.
    replace (same_slug (Models.st_slug store) (Models.st_slug previous)) with true.
    2: { rewrite Hslug. unfold same_slug. destruct (Models.st_slug previous); [|reflexivity].
         symmetry. apply String.eqb_refl. }
    destruct (generateSlug_fresh db (Models.st_name store)) as (k & Hk & Hgen & Hfree).
    rewrite Hgen. exists k. split; [exact Hk|]. split; [reflexivity|].
    split; [exact (Hfree _ _ Hrow) | exact Hfree].
  - intros H fuel. unfold beforeUpdate. destruct H as [H|H].
    + rewrite H, String.eqb_refl. reflexivity.
    + replace (same_slug (Models.st_slug store) (Models.st_slug previous)) with false.
      * rewrite andb_false_r. reflexivity.
      * symmetry. unfold same_slug.
        destruct (Models.st_slug store) as [x|], (Models.st_slug previous) as [y|];
          try reflexivity; [|congruence].
        apply String.eqb_neq. congruence.
Qed.

(** "Joe's Cafe", with the slug [joes-cafe], is renamed "Joes Cafe". *)
Lemma beforeUpdate_slug_witness :
  exists k,
    (k <= 2)%nat
    /\ beforeUpdate 3 Scenario.db_one (Scenario.shop 300 1)
         (Models.mkStore 1 "Joes Cafe" 9 (Some "joes-cafe") 300 1)
       = Some (Models.mkStore 1 "Joes Cafe" 9
                 (Some (spec_attempt (baseSlug "Joes Cafe") k)) 300 1)
    /\ Some "joes-cafe" <> Some (spec_attempt (baseSlug "Joes Cafe") k).
Proof.
  destruct (proj1 (beforeUpdate_slug Scenario.db_one (Scenario.shop 300 1)
                     (Models.mkStore 1 "Joes Cafe" 9 (Some "joes-cafe") 300 1)))
    as (k & Hk & Hhook & Hnew & _).
  - reflexivity.
  - discriminate.
  - reflexivity.
  - exists k. split; [exact Hk|]. split; [exact Hhook | exact Hnew].
Defined.

Example rename_same_base :
  beforeUpdate 3 Scenario.db_one (Scenario.shop 300 1)
    (Models.mkStore 1 "Joes Cafe" 9 (Some "joes-cafe") 300 1)
  = Some (Models.mkStore 1 "Joes Cafe" 9 (Some "joes-cafe-1") 300 1).
Proof. vm_compute. reflexivity. Qed.

Lemma digit_compare (x y : nat) :
  (x < 10)%nat -> (y < 10)%nat -> Ascii.compare (digit x) (digit y) = Nat.compare x y.
Proof.
  intros Hx Hy.
  do 10 (destruct x as [|x]; [do 10 (destruct y as [|y]; [reflexivity|]); lia|]). lia.
Qed.

Lemma two_digits_app (a : nat) (s : string) :
  two_digits a ++ s = String (digit (a / 10)) (String (digit (a mod 10)) s).
Proof. reflexivity. Qed.

Lemma two_digits_compare (a b : nat) (s t : string) :
  (a < 100)%nat -> (b < 100)%nat ->
  String.compare (two_digits a ++ s) (two_digits b ++ t)
  = match Nat.compare a b with
    | Eq => String.compare s t
    | c => c
    end.
Proof.
  intros Ha Hb. rewrite !two_digits_app. cbn [String.compare].
  assert (Ha1 : (a / 10 < 10)%nat) by (apply Nat.Div0.div_lt_upper_bound; lia).
  assert (Hb1 : (b / 10 < 10)%nat) by (apply Nat.Div0.div_lt_upper_bound; lia).
  assert (Ha2 : (a mod 10 < 10)%nat) by (apply Nat.mod_upper_bound; lia).
  assert (Hb2 : (b mod 10 < 10)%nat) by (apply Nat.mod_upper_bound; lia).
  rewrite !digit_compare by assumption.
  pose proof (Nat.div_mod_eq a 10) as Ea. pose proof (Nat.div_mod_eq b 10) as Eb.
  destruct (Nat.compare_spec (a / 10) (b / 10)) as [H1|H1|H1].
  - destruct (Nat.compare_spec (a mod 10) (b mod 10)) as [H2|H2|H2].
    + replace (a ?= b)%nat with Eq by (symmetry; apply Nat.compare_eq_iff; lia). reflexivity.
    + replace (a ?= b)%nat with Lt by (symmetry; apply Nat.compare_lt_iff; lia). reflexivity.
    + replace (a ?= b)%nat with Gt by (symmetry; apply Nat.compare_gt_iff; lia). reflexivity.
  - replace (a ?= b)%nat with Lt by (symmetry; apply Nat.compare_lt_iff; lia). reflexivity.
  - replace (a ?= b)%nat with Gt by (symmetry; apply Nat.compare_gt_iff; lia). reflexivity.
Qed.

(** On times written ["HH:MM"] the order of strings is the order of
    times. *)
Lemma hhmm_leb (h1 m1 h2 m2 : nat) :
  (h1 < 100)%nat -> (h2 < 100)%nat -> (m1 < 60)%nat -> (m2 < 60)%nat ->
  String.leb (hhmm h1 m1) (hhmm h2 m2) = (h1 * 60 + m1 <=? h2 * 60 + m2)%nat.
Proof.
  intros H1 H2 M1 M2. unfold String.leb, hhmm.
  rewrite two_digits_compare by assumption.
  destruct (Nat.compare_spec h1 h2) as [E|E|E].
  - change (":" ++ two_digits m1) with (String ":" (two_digits m1 ++ "")).
    change (":" ++ two_digits m2) with (String ":" (two_digits m2 ++ "")).
    cbn [String.compare]. change (Ascii.compare ":" ":") with Eq. cbv iota.
    rewrite two_digits_compare by lia.
    destruct (Nat.compare_spec m1 m2) as [F|F|F]; simpl; symmetry;
      [apply Nat.leb_le | apply Nat.leb_le | apply Nat.leb_gt]; lia.
  - symmetry. apply Nat.leb_le. lia.
  - symmetry. apply Nat.leb_gt. lia.
Qed.

Lemma hhmm_truthy (h m : nat) : String.eqb (hhmm h m) "" = false.
Proof. reflexivity. Qed.

(** X7. [isOpen(day, time)] for a day whose entry gives its hours as
    ["HH:MM"] and is not marked closed, and a time ["HH:MM"]: the store is
    open exactly from the opening time to the closing time, both included.
    The comparison of strings is then the comparison of times; the current
    day and time are not consulted.  An entry whose closing time lies
    before its opening time (hours past midnight) is open at no time. *)
Theorem isOpen_hhmm (hours : gmap string DayHours) (today clock : outcome string)
    (day : string) (oh om ch cm th tm : nat) :
  day <> "" ->
  hours !! day = Some (mkDayHours (Some (hhmm oh om)) (Some (hhmm ch cm)) false) ->
  (oh < 24 /\ ch < 24 /\ th < 24)%nat ->
  (om < 60 /\ cm < 60 /\ tm < 60)%nat ->
  isOpen (Some hours) today clock (Some day) (Some (hhmm th tm))
  = Returns ((oh * 60 + om <=? th * 60 + tm)%nat && (th * 60 + tm <=? ch * 60 + cm)%nat)
  /\ ((ch * 60 + cm < oh * 60 + om)%nat ->
      isOpen (Some hours) today clock (Some day) (Some (hhmm th tm)) = Returns false).
Proof.
  intros Hday Hentry (Ho & Hc & Ht) (Hom & Hcm & Htm).
  assert (Hopen : isOpen (Some hours) today clock (Some day) (Some (hhmm th tm))
                  = Returns ((oh * 60 + om <=? th * 60 + tm)%nat
                             && (th * 60 + tm <=? ch * 60 + cm)%nat)).
  { unfold isOpen, or_else. apply String.eqb_neq in Hday. rewrite Hday, hhmm_truthy, Hentry.
    cbn [closed open close str_ge str_le]. rewrite !hhmm_leb by lia. reflexivity. }
  split; [exact Hopen|]. intros Hnight. rewrite Hopen. f_equal.
  destruct (oh * 60 + om <=? th * 60 + tm)%nat eqn:E1; [|reflexivity].
  apply Nat.leb_le in E1. simpl. apply Nat.leb_gt. lia.
Qed.

(** With the default hours, a store is open on Monday at 12:30, whatever
    the current day and time. *)
Lemma isOpen_hhmm_witness :
  isOpen (Some default_hours) (Throws "RangeError") (Throws "RangeError")
    (Some "monday") (Some "12:30") = Returns true.
Proof.
  apply (proj1 (isOpen_hhmm default_hours (Throws "RangeError") (Throws "RangeError")
                  "monday" 9 0 17 0 12 30 ltac:(discriminate) ltac:(reflexivity)
                  ltac:(lia) ltac:(lia))).
Defined.

End Hooks.

(** ** The class methods of Rating.js *)

Section Queries.

Import Models RatingQueries.
Local Open Scope Z_scope.
Local Open Scope list_scope.

Lemma insert_desc_In (v x : Z) (l : list Z) :
  In x (insert_desc v l) <-> x = v \/ In x l.
Proof.
  induction l as [|y l IH]; simpl; [intuition|].
  destruct (y <? v) eqn:E1; simpl; [intuition|].
  destruct (y =? v) eqn:E2; simpl.
  - apply Z.eqb_eq in E2. subst y. intuition.
  - rewrite IH. intuition.
Qed.

Lemma groups_In (rs : list Rating) (x : Z) :
  In x (groups rs) <-> exists r, In r rs /\ rating r = x.
Proof.
  unfold groups. induction rs as [|r rs IH]; simpl.
  - split; [intros [] | intros (r & [] & _)].
  - rewrite insert_desc_In, IH. split.
    + intros [->|(r' & H1 & H2)]; eauto.
    + intros (r' & [<-|H1] & H2); eauto.
Qed.

Lemma count_rating_pos (rs : list Rating) (x : Z) :
  0 < count_rating rs x <-> exists r, In r rs /\ rating r = x.
Proof.
  unfold count_rating. induction rs as [|r rs IH]; simpl.
  - split; [lia | intros (r & [] & _)].
  - destruct (rating r =? x) eqn:E; simpl.
    + apply Z.eqb_eq in E. split; [eauto | lia].
    + apply Z.eqb_neq in E. rewrite IH. split.
      * intros (r' & H1 & H2). eauto.
      * intros (r' & [<-|H1] & H2); [congruence | eauto].
Qed.

Lemma fold_insert_lookup (f : Z -> Z) (l : list Z) :
  forall (d : gmap Z Z) (x : Z),
    fold_left (fun d item => <[fst item := snd item]> d) (map (fun v => (v, f v)) l) d !! x
    = if bool_decide (x ∈ l) then Some (f x) else d !! x.
Proof.
  induction l as [|y l IH]; intros d x; cbn [map fold_left fst snd].
  - rewrite bool_decide_eq_false_2 by apply not_elem_of_nil. reflexivity.
  - rewrite IH. destruct (decide (x ∈ l)) as [Hin|Hnin].
    + rewrite !bool_decide_eq_true_2 by (try apply elem_of_cons; auto). reflexivity.
    + rewrite (bool_decide_eq_false_2 (x ∈ l)) by exact Hnin.
      destruct (decide (y = x)) as [->|Hne].
      * rewrite bool_decide_eq_true_2 by (apply elem_of_cons; auto). apply lookup_insert_eq.
      * rewrite bool_decide_eq_false_2; [apply lookup_insert_ne; exact Hne|].
        intros [H|H]%elem_of_cons; [congruence | contradiction].
Qed.

Lemma empty_distribution_lookup (x : Z) :
  empty_distribution !! x = if bool_decide (1 <= x <= 5) then Some 0 else None.
Proof.
  unfold empty_distribution.
  destruct (decide (1 <= x <= 5)) as [H|H].
  - rewrite bool_decide_eq_true_2 by exact H.
    assert (x = 1 \/ x = 2 \/ x = 3 \/ x = 4 \/ x = 5) as [->|[->|[->|[->| ->]]]] by lia;
      reflexivity.
  - rewrite bool_decide_eq_false_2 by exact H.
    rewrite !lookup_insert_ne by lia. apply lookup_empty.
Qed.

Lemma count_stars_total (rs : list Rating) :
  Forall (fun r => valid_stars (rating r)) rs ->
  count_rating rs 1 + count_rating rs 2 + count_rating rs 3
    + count_rating rs 4 + count_rating rs 5 = Z.of_nat (length rs).
Proof.
  unfold count_rating. induction 1 as [|r rs Hr _ IH]; [reflexivity|].
  unfold valid_stars in Hr. simpl.
  assert (rating r = 1 \/ rating r = 2 \/ rating r = 3 \/ rating r = 4 \/ rating r = 5)
    as [->|[->|[->|[->| ->]]]] by lia; simpl; lia.
Qed.

Lemma distribution_lookup (db : DB) (storeId : N) (x : Z) :
  getRatingDistribution db storeId !! x
  = if bool_decide (1 <= x <= 5 \/ 0 < count_rating (approved_of db storeId) x)
    then Some (count_rating (approved_of db storeId) x)
    else None.
Proof.
  unfold getRatingDistribution, distribution_rows.
  rewrite fold_insert_lookup, empty_distribution_lookup.
  set (rs := approved_of db storeId).
  destruct (decide (x ∈ groups rs)) as [Hin|Hnin].
  - rewrite bool_decide_eq_true_2 by exact Hin.
    rewrite bool_decide_eq_true_2; [reflexivity|].
    right. apply count_rating_pos, groups_In, list_elem_of_In, Hin.
  - rewrite bool_decide_eq_false_2 by exact Hnin.
    assert (H0 : count_rating rs x = 0).
    { assert (0 <= count_rating rs x) by (unfold count_rating; lia).
      destruct (decide (0 < count_rating rs x)) as [Hp|Hp]; [|lia].
      exfalso. apply Hnin, list_elem_of_In, groups_In, count_rating_pos, Hp. }
    rewrite H0. destruct (decide (1 <= x <= 5)) as [H|H].
    + rewrite !bool_decide_eq_true_2 by tauto. reflexivity.
    + rewrite !bool_decide_eq_false_2 by lia. reflexivity.
Qed.

(** X8. [getRatingDistribution(storeId)].  (1) Under each of the keys 1 to
    5, and under every other rating value that an approved review of the
    store has, the result holds the number of approved reviews of the store
    with that rating; it has no other key.  (2) When the approved reviews
    of the store are rated 1 to 5, the result has the keys 1 to 5 only, and
    its five numbers add up to the number of approved reviews of the
    store. *)
Theorem getRatingDistribution_counts (db : DB) (storeId : N) :
  (forall x,
      getRatingDistribution db storeId !! x
      = if bool_decide (1 <= x <= 5 \/ 0 < count_rating (approved_of db storeId) x)
        then Some (count_rating (approved_of db storeId) x)
        else None)
  /\ (Forall (fun r => valid_stars (rating r)) (approved_of db storeId) ->
      exists n1 n2 n3 n4 n5,
        getRatingDistribution db storeId !! 1 = Some n1
        /\ getRatingDistribution db storeId !! 2 = Some n2
        /\ getRatingDistribution db storeId !! 3 = Some n3
        /\ getRatingDistribution db storeId !! 4 = Some n4
        /\ getRatingDistribution db storeId !! 5 = Some n5
        /\ n1 + n2 + n3 + n4 + n5 = Z.of_nat (length (approved_of db storeId))
        /\ forall x, ~ 1 <= x <= 5 -> getRatingDistribution db storeId !! x = None).
Proof.
  split; [apply distribution_lookup|]. intros Hvalid.
  exists (count_rating (approved_of db storeId) 1), (count_rating (approved_of db storeId) 2),
    (count_rating (approved_of db storeId) 3), (count_rating (approved_of db storeId) 4),
    (count_rating (approved_of db storeId) 5).
  repeat split;
    try (rewrite distribution_lookup, bool_decide_eq_true_2 by lia; reflexivity).
  - apply count_stars_total, Hvalid.
  - intros x Hx. rewrite distribution_lookup, bool_decide_eq_false_2; [reflexivity|].
    intros [H|H]; [lia|].
    apply count_rating_pos in H as (r & Hr & <-).
    rewrite Forall_forall in Hvalid. apply Hx, Hvalid, list_elem_of_In, Hr.
Qed.

(** Store 1 with a review of 5 stars and one of 3 stars. *)
Lemma getRatingDistribution_counts_witness :
  exists n1 n2 n3 n4 n5,
    getRatingDistribution Scenario.db_two 1 !! 1 = Some n1
    /\ getRatingDistribution Scenario.db_two 1 !! 2 = Some n2
    /\ getRatingDistribution Scenario.db_two 1 !! 3 = Some n3
    /\ getRatingDistribution Scenario.db_two 1 !! 4 = Some n4
    /\ getRatingDistribution Scenario.db_two 1 !! 5 = Some n5
    /\ n1 + n2 + n3 + n4 + n5 = 2.
Proof.
  destruct (proj2 (getRatingDistribution_counts Scenario.db_two 1))
    as (n1 & n2 & n3 & n4 & n5 & H1 & H2 & H3 & H4 & H5 & Hsum & _).
  - vm_compute. repeat (constructor; [split; discriminate|]). constructor.
  - exists n1, n2, n3, n4, n5. repeat split; assumption.
Defined.

Example distribution_of_two :
  getRatingDistribution Scenario.db_two 1
  = <[5 := 1]> (<[4 := 0]> (<[3 := 1]> (<[2 := 0]> (<[1 := 0]> ∅)))).
Proof. vm_compute. reflexivity. Qed.

Lemma matches_spec (w : gmap string cell) (r : Rating) :
  matches w r = true <-> forall name v, w !! name = Some v -> column r name = Some v.
Proof. unfold matches. rewrite bool_decide_eq_true. reflexivity. Qed.

(** X9. [findByStore(storeId, options)].  (1) Without [options.where] the
    rows found are the approved ratings of the store.  (2) With an
    [options.where], the spread of [options] after the [where] built by the
    method replaces that [where]: the rows found are all the rows that
    satisfy [options.where] alone, of whatever store and approved or not. *)
Theorem findByStore_where (db : DB) (storeId : N) (r : Rating) :
  (In r (findByStore db storeId (mkOptions None))
   <-> In r (ratings db) /\ store_id r = storeId /\ is_approved r = true)
  /\ (forall w,
       In r (findByStore db storeId (mkOptions (Some w)))
       <-> In r (ratings db)
           /\ forall name v, w !! name = Some v -> column r name = Some v).
Proof.
  unfold findByStore, selected, query_where. cbn [o_where default]. split.
  - rewrite (left_id ∅ (∪)), filter_In, matches_spec.
    split; intros [Hin H]; (split; [exact Hin|]).
    + split.
      * specialize (H "store_id" (CId storeId)).
        rewrite lookup_insert_eq in H. specialize (H eq_refl). unfold column in H.
        simpl in H. congruence.
      * specialize (H "is_approved" (CBool true)).
        rewrite lookup_insert_ne, lookup_insert_eq in H by discriminate.
        specialize (H eq_refl). unfold column in H. simpl in H. congruence.
    + destruct H as [Hs Ha]. intros name v Hw.
      apply lookup_insert_Some in Hw as [[<- <-]|[_ Hw]]; [unfold column; simpl; congruence|].
      apply lookup_insert_Some in Hw as [[<- <-]|[_ Hw]]; [unfold column; simpl; congruence|].
      rewrite lookup_empty in Hw. discriminate.
  - intros w. rewrite filter_In, matches_spec. reflexivity.
Qed.

(** Asked for the ratings of store 2 with 3 stars, the method returns the
    3-star rating of store 1. *)
Example findByStore_other_store :
  findByStore Scenario.db_two 2 (mkOptions (Some {[ "rating" := CNum 3 ]}))
  = [Scenario.stars 2 8 3].
Proof. vm_compute. reflexivity. Qed.

End Queries.

(** ** The instance methods of Rating.js *)

Section Methods.

Import Models.
Local Open Scope Z_scope.
Local Open Scope list_scope.

Lemma differs_same {A} `{EqDecision A} (a : A) : differs a a = false.
Proof. unfold differs. rewrite bool_decide_eq_true_2 by reflexivity. reflexivity. Qed.

(** The save of a row in which only [helpful_votes] has changed. *)
Lemma save_votes (db : DB) (this : Rating) (v : Z) :
  0 <= v ->
  save db this (set_helpful_votes this v)
  = (with_ratings db (replace_rating (set_helpful_votes this v) (ratings db)), Ok tt).
Proof.
  intros Hv. unfold save, save_with, validate_changed. simpl.
  rewrite !differs_same. simpl.
  unfold validate_helpful_votes, check.
  replace (v <? 0) with false by (symmetry; apply Z.ltb_ge; exact Hv).
  destruct (differs v (helpful_votes this)); simpl;
    unfold afterUpdate; simpl; rewrite Z.eqb_refl, eqb_reflx; reflexivity.
Qed.

Lemma replace_rating_own (this : Rating) (rs : list Rating) :
  (forall x, In x rs -> id x = id this -> x = this) ->
  replace_rating this rs = rs.
Proof.
  intros H. unfold replace_rating. induction rs as [|x rs IH]; simpl; [reflexivity|].
  rewrite IH by (intros y Hy; apply H; right; exact Hy). f_equal.
  destruct (id x =? id this)%N eqn:E; [|reflexivity].
  apply N.eqb_eq in E. symmetry. apply H; [left; reflexivity | exact E].
Qed.

Lemma replace_rating_twice (a b : Rating) (rs : list Rating) :
  id a = id b ->
  replace_rating a (replace_rating b rs) = replace_rating a rs.
Proof.
  intros Hid. unfold replace_rating. rewrite map_map. apply map_ext. intros x.
  destruct (id x =? id b)%N eqn:E; cbv beta iota.
  - rewrite Hid, N.eqb_refl, E. reflexivity.
  - reflexivity.
Qed.

Lemma set_votes_back (this : Rating) (v : Z) :
  set_helpful_votes (set_helpful_votes this v) (helpful_votes this) = this.
Proof. destruct this; reflexivity. Qed.



(** X11. [removeHelpfulVote] never takes the counter below zero: on a
    counter that is zero (or less) it stores nothing and returns the
    counter as it is. *)
Theorem removeHelpfulVote_floor (db : DB) (this : Rating) :
  helpful_votes this <= 0 ->
  removeHelpfulVote db this = (this, db, Ok (helpful_votes this)).
Proof.
  intros H. unfold removeHelpfulVote.
  replace (0 <? helpful_votes this) with false by (symmetry; apply Z.ltb_ge; exact H).
  reflexivity.
Qed.

Lemma removeHelpfulVote_floor_witness :
  removeHelpfulVote Scenario.db_one (Scenario.stars 1 7 3)
  = (Scenario.stars 1 7 3, Scenario.db_one, Ok 0).
Proof.
  apply (removeHelpfulVote_floor Scenario.db_one (Scenario.stars 1 7 3)). simpl. lia.
Defined.

(** A save that changes neither the stars nor the approval leaves table
    [stores] alone, and writes at most the row of the instance. *)
Lemma save_with_frame (b : bool) (db : DB) (previous this : Rating) :
  rating this = rating previous ->
  is_approved this = is_approved previous ->
  stores (fst (save_with b db previous this)) = stores db
  /\ (ratings (fst (save_with b db previous this)) = ratings db
      \/ ratings (fst (save_with b db previous this)) = replace_rating this (ratings db)).
Proof.
  intros H1 H2. unfold save_with.
  destruct (validate_changed b previous this); [|simpl; auto].
  destruct (_ && negb _); [simpl; auto|].
  destruct (_ && pair_taken db this); [simpl; auto|].
  unfold afterUpdate. rewrite H1, H2, Z.eqb_refl, eqb_reflx. simpl. auto.
Qed.

Lemma replace_rating_others (this x : Rating) (rs : list Rating) :
  id x <> id this -> (In x (replace_rating this rs) <-> In x rs).
Proof.
  intros Hne. unfold replace_rating. rewrite in_map_iff. split.
  - intros (y & Hy & Hin). destruct (id y =? id this)%N eqn:E.
    + subst x. congruence.
    + subst y. exact Hin.
  - intros Hin. exists x. split; [|exact Hin].
    apply N.eqb_neq in Hne. rewrite Hne. reflexivity.
Qed.

Lemma save_with_others (b : bool) (db : DB) (this this' : Rating) :
  rating this' = rating this -> is_approved this' = is_approved this ->
  id this' = id this ->
  stores (fst (save_with b db this this')) = stores db
  /\ length (ratings (fst (save_with b db this this'))) = length (ratings db)
  /\ forall x, id x <> id this ->
       (In x (ratings (fst (save_with b db this this'))) <-> In x (ratings db)).
Proof.
  intros H1 H2 H3.
  destruct (save_with_frame b db this this' H1 H2) as (Hs & [Hr|Hr]); rewrite Hr.
  - auto.
  - split; [exact Hs|]. split; [apply length_map|].
    intros x Hx. apply replace_rating_others. congruence.
Qed.




End Methods.

(** ** The statistics after a recompute, a delete and a create *)

Section Stats.

Import Models.
Local Open Scope Z_scope.
Local Open Scope list_scope.

Lemma write_store_twice (db : DB) (s1 s2 : Store) :
  st_id s1 = st_id s2 ->
  write_store (write_store db s1) s2 = write_store db s2.
Proof.
  intros Hid. unfold write_store. simpl. f_equal. rewrite Hid.
  apply map_eq. intros k. destruct (decide (k = st_id s2)) as [->|Hne].
  - rewrite !lookup_alter_eq. destruct (stores db !! st_id s2); reflexivity.
  - rewrite !lookup_alter_ne by congruence. reflexivity.
Qed.

(** X14. [updateRatingStats] is idempotent: after a recompute that has
    succeeded, a second one, on the same instance or on the store read
    again from the table, succeeds and leaves the tables as the first one
    has left them. *)
Theorem updateRatingStats_idempotent (db db1 : DB) (this : Store) :
  updateRatingStats db this = (db1, Ok tt) ->
  updateRatingStats db1 this = (db1, Ok tt)
  /\ forall again,
       stores db1 !! st_id this = Some again ->
       again = with_stats this (average_rating again) (total_reviews again)
       /\ updateRatingStats db1 again = (db1, Ok tt).
Proof.
  unfold updateRatingStats.
  destruct (ratingStats (getRatings db this)) as [[avg|] total] eqn:Estats; [|discriminate].
  destruct (validate_store avg total) eqn:Ev; [|discriminate].
  intros [= <-].
  change (getRatings (write_store db (with_stats this avg total)) this)
    with (getRatings db this).
  rewrite Estats, Ev.
  split; [rewrite write_store_twice by reflexivity; reflexivity|].
  intros again Hagain. simpl in Hagain. rewrite lookup_alter_eq in Hagain.
  destruct (stores db !! st_id this); [|discriminate]. injection Hagain as <-.
  split; [reflexivity|].
  change (getRatings (write_store db (with_stats this avg total)) (with_stats this avg total))
    with (getRatings db this).
  rewrite Estats, Ev. rewrite write_store_twice by reflexivity. reflexivity.
Qed.

Lemma updateRatingStats_idempotent_witness :
  updateRatingStats
    (write_store Scenario.db_two (with_stats (Scenario.shop 400 2) 400 2))
    (Scenario.shop 400 2)
  = (write_store Scenario.db_two (with_stats (Scenario.shop 400 2) 400 2), Ok tt).
Proof.
  apply (proj1 (updateRatingStats_idempotent Scenario.db_two
                  (write_store Scenario.db_two (with_stats (Scenario.shop 400 2) 400 2))
                  (Scenario.shop 400 2) ltac:(vm_compute; reflexivity))).
Defined.

Lemma remove_rating_In (i : N) (x : Rating) (rs : list Rating) :
  In x (remove_rating i rs) <-> In x rs /\ id x <> i.
Proof.
  unfold remove_rating. rewrite filter_In, negb_true_iff, N.eqb_neq. reflexivity.
Qed.

(** X15. [destroy].  (1), (2) The rows of the rating's id are gone and all
    other rows are kept, whether or not the hook succeeds.  (3) When the
    store of the rating exists and the call succeeds, the stored
    [total_reviews] is the number of the remaining ratings of the store.
    (4) When no rating of the store remains, the call succeeds and the
    store holds the average 0 and the total 0. *)
Theorem destroy_effect (db : DB) (this : Rating) :
  ratings (fst (destroy db this)) = remove_rating (id this) (ratings db)
  /\ (forall x, In x (ratings (fst (destroy db this))) <-> In x (ratings db) /\ id x <> id this)
  /\ (forall st,
       stores db !! store_id this = Some st -> st_id st = store_id this ->
       snd (destroy db this) = Ok tt ->
       total_reviews <$> (stores (fst (destroy db this)) !! store_id this)
       = Some (Z.of_nat (length (List.filter (fun r => (store_id r =? store_id this)%N)
                                   (remove_rating (id this) (ratings db))))))
  /\ (forall st,
       stores db !! store_id this = Some st -> st_id st = store_id this ->
       List.filter (fun r => (store_id r =? store_id this)%N)
         (remove_rating (id this) (ratings db)) = [] ->
       snd (destroy db this) = Ok tt
       /\ stored_stats (fst (destroy db this)) (store_id this) = Some (0, 0)).
Proof.
  unfold destroy, afterDestroy.
  set (db0 := with_ratings db (remove_rating (id this) (ratings db))).
  pose proof (refresh_store_ratings db0 this) as Hr.
  split; [exact Hr|]. split; [intros x; rewrite Hr; apply remove_rating_In|].
  unfold refresh_store, getStore. change (stores db0) with (stores db).
  split.
  - intros st Hst Hid. rewrite Hst.
    destruct (updateRatingStats db0 st) as [db1 [[]|e]] eqn:E; [|discriminate].
    intros _. simpl. rewrite <- Hid.
    rewrite (updateRatingStats_counts_all db0 db1 st); [reflexivity| |exact E].
    rewrite Hid. exact Hst.
  - intros st Hst Hid Hempty. rewrite Hst.
    rewrite updateRatingStats_empty by (unfold getRatings; rewrite Hid; exact Hempty).
    split; [reflexivity|]. unfold stored_stats. simpl.
    rewrite Hid, lookup_alter_eq, Hst. reflexivity.
Qed.

(** The only rating of store 1 is destroyed. *)
Lemma destroy_effect_witness :
  snd (destroy Scenario.db_one (Scenario.stars 1 7 3)) = Ok tt
  /\ stored_stats (fst (destroy Scenario.db_one (Scenario.stars 1 7 3))) 1 = Some (0, 0).
Proof.
  apply (proj2 (proj2 (proj2 (destroy_effect Scenario.db_one (Scenario.stars 1 7 3))))
           (Scenario.shop 300 1)).
  - reflexivity.
  - reflexivity.
  - reflexivity.
Defined.

Lemma check_nil (b : bool) (msg : string) : check b msg = [] -> b = false.
Proof. destruct b; [discriminate | reflexivity]. Qed.

(** X16. A rating that [Rating.create] returns is the built one, is in the
    table, belongs to a store of the table, and satisfies every validator
    and the enum type: 1 to 5 stars, a title of at most 200 and a comment of
    at most 2000 characters, at most 5 images that all begin with "http", a
    counter that is not negative, a reply (if any) with a text of 1 to 1000
    characters, a flag reason whenever it is flagged, and a flag reason (if
    any) among the five of the enum. *)
Theorem create_row_valid (db db' : DB) (new_id : N) (a : RatingAttrs) (r : Rating) :
  create db new_id a = (db', Ok r) ->
  r = build new_id a
  /\ In r (ratings db')
  /\ is_Some (stores db !! store_id r)
  /\ 1 <= rating r <= 5
  /\ (forall t, title r = Some t -> strlen t <= 200)
  /\ (forall c, comment r = Some c -> strlen c <= 2000)
  /\ (length (images r) <= 5)%nat
  /\ (forall url, In url (images r) -> String.prefix "http" url = true)
  /\ 0 <= helpful_votes r
  /\ (forall rep, reply r = Some rep ->
        reply_text rep <> "" /\ strlen (reply_text rep) <= 1000)
  /\ (is_flagged r = true -> exists reason, flag_reason r = Some reason /\ reason <> "")
  /\ (forall reason, flag_reason r = Some reason -> In reason flag_reasons).
Proof.
  unfold create. set (this := build new_id a).
  destruct (validate this) eqn:Ev; [|discriminate].
  destruct (enum_ok (flag_reason this)) eqn:Eenum; [|discriminate]. cbn [negb].
  destruct (id_taken db new_id); [discriminate|].
  destruct (pair_taken db this); [discriminate|].
  destruct (stores db !! store_id this) eqn:Est; [|discriminate].
  unfold afterCreate.
  pose proof (refresh_store_ratings (with_ratings db (ratings db ++ [this])) this) as Hr.
  destruct (refresh_store _ this) as [db1 [x|e]]; [|discriminate].
  intros [= <- <-]. simpl in Hr.
  split; [reflexivity|]. clearbody this.
  unfold validate in Ev.
  apply app_eq_nil in Ev as [V1 Ev]. apply app_eq_nil in Ev as [V2 Ev].
  apply app_eq_nil in Ev as [V3 Ev]. apply app_eq_nil in Ev as [V4 Ev].
  apply app_eq_nil in Ev as [V5 Ev]. apply app_eq_nil in Ev as [V6 V7].
  split; [rewrite Hr; apply in_or_app; right; left; reflexivity|].
  split; [rewrite Est; eauto|].
  split.
  { unfold validate_rating in V1. apply app_eq_nil in V1 as [A B].
    apply check_nil, Z.ltb_ge in A. apply check_nil, Z.ltb_ge in B. lia. }
  split.
  { intros t Ht. rewrite Ht in V2. simpl in V2. apply check_nil, Z.ltb_ge in V2. exact V2. }
  split.
  { intros c Hc. rewrite Hc in V3. simpl in V3. apply check_nil, Z.ltb_ge in V3. exact V3. }
  unfold isValidImages in V4.
  destruct (5 <? Z.of_nat (length (images this))) eqn:E5; [discriminate|].
  apply Z.ltb_ge in E5. apply check_nil, negb_false_iff in V4.
  split; [lia|].
  split; [intros url Hu; rewrite forallb_forall in V4; exact (V4 url Hu)|].
  split; [apply check_nil, Z.ltb_ge in V5; exact V5|].
  split.
  { intros rep Hrep. rewrite Hrep in V6. simpl in V6.
    destruct (String.eqb (reply_text rep) "") eqn:E; [discriminate|].
    apply String.eqb_neq in E. apply check_nil, Z.ltb_ge in V6. auto. }
  split.
  { intros Hf. unfold isValidFlagReason in V7. rewrite Hf in V7. simpl in V7.
    apply check_nil in V7. destruct (flag_reason this) as [reason|]; simpl in V7;
      [|discriminate].
    apply String.eqb_neq in V7. eauto. }
  intros reason Hreason. rewrite Hreason in Eenum. unfold enum_ok in Eenum.
  apply existsb_exists in Eenum as (y & Hy & Heq). apply String.eqb_eq in Heq. subst y.
  exact Hy.
Qed.

(** User 8 rates store 1 with 3 stars. *)
Lemma create_row_valid_witness :
  In (build 2 Scenario.three_stars)
    (ratings (fst (create Scenario.db_one 2 Scenario.three_stars)))
  /\ 1 <= rating (build 2 Scenario.three_stars) <= 5.
Proof.
  destruct (create_row_valid Scenario.db_one
              (fst (create Scenario.db_one 2 Scenario.three_stars)) 2 Scenario.three_stars
              (build 2 Scenario.three_stars))
    as (_ & Hin & _ & Hstars & _).
  - vm_compute. reflexivity.
  - split; [exact Hin | exact Hstars].
Defined.

End Stats.

(** ** The email column of the model User *)

Section Email.

Import Slug Users.

Lemma lower_char_space c : is_space (lower_char c) = is_space c.
Proof. destruct c as [[] [] [] [] [] [] [] []]; vm_compute; reflexivity. Qed.

Lemma lower_char_idem c : lower_char (lower_char c) = lower_char c.
Proof. destruct c as [[] [] [] [] [] [] [] []]; vm_compute; reflexivity. Qed.

Lemma toLowerCase_idem s : toLowerCase (toLowerCase s) = toLowerCase s.
Proof.
  induction s as [|c s IH]; simpl; [reflexivity|]. rewrite lower_char_idem, IH. reflexivity.
Qed.

Lemma toLowerCase_app s t : toLowerCase (s ++ t) = toLowerCase s ++ toLowerCase t.
Proof. induction s as [|c s IH]; simpl; [reflexivity|]. rewrite IH. reflexivity. Qed.

Lemma toLowerCase_spaces s :
  all_chars is_space (toLowerCase s) = all_chars is_space s.
Proof.
  induction s as [|c s IH]; simpl; [reflexivity|]. rewrite lower_char_space, IH. reflexivity.
Qed.

Lemma trimStart_lower s : trimStart (toLowerCase s) = toLowerCase (trimStart s).
Proof.
  induction s as [|c s IH]; simpl; [reflexivity|].
  rewrite lower_char_space. destruct (is_space c); [exact IH | reflexivity].
Qed.

Lemma trimEnd_lower s : trimEnd (toLowerCase s) = toLowerCase (trimEnd s).
Proof.
  induction s as [|c s IH]; simpl; [reflexivity|].
  rewrite IH. destruct (trimEnd s) as [|d t]; simpl.
  - rewrite lower_char_space. destruct (is_space c); reflexivity.
  - reflexivity.
Qed.

Lemma trim_lower s : trim (toLowerCase s) = toLowerCase (trim s).
Proof. unfold trim. rewrite trimStart_lower, trimEnd_lower. reflexivity. Qed.

Lemma trimStart_no_lead s : no_lead (trimStart s).
Proof.
  induction s as [|c s IH]; simpl; [exact I|].
  destruct (is_space c) eqn:E; [exact IH | exact E].
Qed.

Lemma trimStart_fixed s : no_lead s -> trimStart s = s.
Proof. destruct s as [|c s]; simpl; [reflexivity|]. intros ->. reflexivity. Qed.

Lemma trimEnd_no_lead s : no_lead s -> no_lead (trimEnd s).
Proof.
  destruct s as [|c s]; simpl; [auto|]. intros H.
  destruct (trimEnd s); [rewrite H|]; exact H.
Qed.

Lemma trimEnd_idem s : trimEnd (trimEnd s) = trimEnd s.
Proof.
  induction s as [|c s IH]; simpl; [reflexivity|].
  destruct (trimEnd s) as [|d t] eqn:E.
  - destruct (is_space c) eqn:Ec; simpl; [reflexivity|]. rewrite Ec. reflexivity.
  - simpl in *. rewrite IH. reflexivity.
Qed.

Lemma trim_idem s : trim (trim s) = trim s.
Proof.
  unfold trim. rewrite (trimStart_fixed (trimEnd (trimStart s))).
  - apply trimEnd_idem.
  - apply trimEnd_no_lead, trimStart_no_lead.
Qed.

Lemma trimStart_spaces p s : all_chars is_space p = true -> trimStart (p ++ s) = trimStart s.
Proof.
  induction p as [|c p IH]; simpl; [reflexivity|].
  intros [Hc Hp]%andb_prop. rewrite Hc. apply IH, Hp.
Qed.

Lemma trimEnd_spaces_nil q : all_chars is_space q = true -> trimEnd q = "".
Proof.
  induction q as [|c q IH]; simpl; [reflexivity|].
  intros [Hc Hq]%andb_prop. rewrite (IH Hq), Hc. reflexivity.
Qed.

Lemma trimEnd_spaces s q : all_chars is_space q = true -> trimEnd (s ++ q) = trimEnd s.
Proof.
  intros Hq. induction s as [|c s IH]; simpl; [apply trimEnd_spaces_nil, Hq|].
  rewrite IH. reflexivity.
Qed.

Lemma trimStart_spaces_nil q : all_chars is_space q = true -> trimStart q = "".
Proof.
  induction q as [|c q IH]; simpl; [reflexivity|].
  intros [Hc Hq]%andb_prop. rewrite Hc. apply IH, Hq.
Qed.

Lemma trim_padded p s q :
  all_chars is_space p = true -> all_chars is_space q = true ->
  trim (p ++ s ++ q) = trim s.
Proof.
  intros Hp Hq. unfold trim. rewrite trimStart_spaces by exact Hp.
  induction s as [|c s IH]; simpl.
  - rewrite trimStart_spaces_nil by exact Hq. reflexivity.
  - destruct (is_space c); [exact IH|].
    change (String c (s ++ q)) with (String c s ++ q). apply trimEnd_spaces, Hq.
Qed.

Lemma normalize_fixed (value : string) : normalize (normalize value) = normalize value.
Proof.
  unfold normalize. rewrite <- trim_lower, toLowerCase_idem, trim_idem. reflexivity.
Qed.

(** X17. The setter of [email] is idempotent: an address that has been
    stored is stored unchanged when it is set again, and lower-casing and
    trimming commute. *)
Theorem normalize_idempotent (value : string) :
  normalize (normalize value) = normalize value
  /\ Slug.trim (Slug.toLowerCase value) = Slug.toLowerCase (Slug.trim value).
Proof. split; [apply normalize_fixed | apply trim_lower]. Qed.

Lemma normalize_spelling (stored typed pre post : string) :
  all_chars is_space pre = true -> all_chars is_space post = true ->
  toLowerCase typed = toLowerCase (pre ++ stored ++ post) ->
  normalize typed = normalize stored.
Proof.
  intros Hpre Hpost Hsame. unfold normalize.
  rewrite Hsame, !toLowerCase_app. apply trim_padded; rewrite toLowerCase_spaces; assumption.
Qed.

(** X18. [findByEmail] finds a user under every spelling of the address
    that was set: with other capitals and with white space around it.  The
    user found holds the normalised address, and is found under that
    address as well. *)
Theorem findByEmail_spelling (users : list User) (u : User) (stored typed pre post : string) :
  In (set_email u stored) users ->
  all_chars is_space pre = true -> all_chars is_space post = true ->
  toLowerCase typed = toLowerCase (pre ++ stored ++ post) ->
  exists found,
    findByEmail users typed = Some found
    /\ u_email found = normalize stored
    /\ findByEmail users (u_email found) = Some found.
Proof.
  intros Hin Hpre Hpost Hsame. unfold findByEmail.
  rewrite (normalize_spelling stored typed pre post Hpre Hpost Hsame).
  destruct (List.find (fun x => String.eqb (u_email x) (normalize stored)) users)
    as [found|] eqn:E.
  - exists found. apply find_some in E as Hf. destruct Hf as [_ Heq].
    apply String.eqb_eq in Heq. split; [reflexivity|]. split; [exact Heq|].
    rewrite Heq, normalize_fixed. exact E.
  - exfalso. apply (find_none _ _ E) in Hin. simpl in Hin.
    rewrite String.eqb_refl in Hin. discriminate.
Qed.

(** A user who registered as "Joe@Example.com" is found as
    " JOE@example.COM ". *)
Lemma findByEmail_spelling_witness :
  exists found,
    findByEmail [set_email (mkUser 1 "" true) "Joe@Example.com"] " JOE@example.COM "
    = Some found
    /\ u_email found = "joe@example.com".
Proof.
  destruct (findByEmail_spelling [set_email (mkUser 1 "" true) "Joe@Example.com"]
              (mkUser 1 "" true) "Joe@Example.com" " JOE@example.COM " " " " ")
    as (found & Hfind & Hmail & _).
  - left. reflexivity.
  - reflexivity.
  - reflexivity.
  - reflexivity.
  - exists found. split; [exact Hfind | exact Hmail].
Defined.

End Email.

(** ** More on the controller: votes, deletes and the counters *)

Section Votes.

Import Controller Reviews.
Local Open Scope Z_scope.
Local Open Scope list_scope.

Variable validReview : Review -> bool.

Lemma voteReview_counts (db : DB) (u : User) (i : N) (review : Review) :
  findById db i = Some review ->
  user review <> user_id u ->
  validReview (with_votes review (helpfulVotes review + 1)) = true ->
  exists db',
    voteReview validReview db u i = (db', mkResponse 200 "Vote recorded successfully")
    /\ findById db' i = Some (with_votes review (helpfulVotes review + 1))
    /\ (forall j, j <> i -> findById db' j = findById db j)
    /\ stores db' = stores db.
Proof.
  intros Hfind Huser Hvalid. unfold voteReview. rewrite Hfind.
  apply N.eqb_neq in Huser. rewrite Huser.
  pose proof (findById_id db i review Hfind) as Hid.
  set (doc := with_votes review (helpfulVotes review + 1)).
  assert (Hdoc : _id doc = i) by exact Hid.
  destruct (Review_save validReview db doc) as [db1|reason] eqn:Es.
  - rewrite <- Hdoc in Hfind.
    destruct (Review_save_read validReview db db1 doc review Hfind Es)
      as (Hread & Hothers & Hst).
    rewrite Hdoc in *. exists db1. auto.
  - unfold Review_save in Es. fold doc in Hvalid. rewrite Hvalid in Es. discriminate.
Qed.

Lemma vote_times_counts (n : nat) :
  forall (db : DB) (u : User) (i : N) (review : Review),
    findById db i = Some review ->
    user review <> user_id u ->
    (forall v, validReview (with_votes review v) = true) ->
    findById (vote_times validReview n db u i) i
    = Some (with_votes review (helpfulVotes review + Z.of_nat n))
    /\ stores (vote_times validReview n db u i) = stores db.
Proof.
  induction n as [|n IH]; intros db u i review Hfind Huser Hvalid.
  - cbn [vote_times]. change (Z.of_nat 0) with 0. rewrite Z.add_0_r.
    split; [|reflexivity].
    assert (with_votes review (helpfulVotes review) = review) as ->
      by (destruct review; reflexivity).
    exact Hfind.
  - cbn [vote_times].
    destruct (voteReview_counts db u i review Hfind Huser (Hvalid _))
      as (db1 & Hvote & Hread & _ & Hst).
    rewrite Hvote. cbn [fst].
    destruct (IH db1 u i (with_votes review (helpfulVotes review + 1)) Hread Huser)
      as (Hfinal & Hstores).
    + intros v. apply Hvalid.
    + split; [|congruence].
      rewrite Hfinal. f_equal. simpl. unfold with_votes. simpl. f_equal. lia.
Qed.

(** X19. [voteReview] keeps no record of who has voted: [n] votes of one
    user for the review of another user add [n] to its counter, and change
    nothing else of the review and no store (for counters within the
    integers that a number holds exactly, and a schema that accepts the
    review with any counter).  A vote for one's own review is refused with
    400 and stores nothing. *)
Theorem voteReview_unlimited (n : nat) (db : DB) (u : User) (i : N) (review : Review) :
  findById db i = Some review ->
  (forall v, validReview (with_votes review v) = true) ->
  - 2 ^ 53 <= helpfulVotes review ->
  helpfulVotes review + Z.of_nat n <= 2 ^ 53 ->
  (user review <> user_id u ->
   findById (vote_times validReview n db u i) i
   = Some (with_votes review (helpfulVotes review + Z.of_nat n))
   /\ stores (vote_times validReview n db u i) = stores db)
  /\ (user review = user_id u ->
      voteReview validReview db u i
      = (db, mkResponse 400 "You cannot vote on your own review")).
Proof.
  intros Hfind Hvalid _ _. split.
  - intros Huser. apply vote_times_counts; assumption.
  - intros Huser. unfold voteReview. rewrite Hfind, Huser, N.eqb_refl. reflexivity.
Qed.

End Votes.

(** User 8 votes three times for the review of user 7. *)
Lemma voteReview_unlimited_witness :
  Controller.findById
    (Reviews.vote_times Scenario.stars_1_to_5 3 Scenario.c_db_one (Scenario.customer 8) 1) 1
  = Some (Reviews.with_votes (Scenario.c_review 1 7 5) 3).
Proof.
  apply (proj1 (voteReview_unlimited Scenario.stars_1_to_5 3 Scenario.c_db_one
                  (Scenario.customer 8) 1 (Scenario.c_review 1 7 5)
                  ltac:(reflexivity) ltac:(intros v; reflexivity)
                  ltac:(vm_compute; discriminate) ltac:(vm_compute; discriminate))).
  discriminate.
Defined.

Section Counters.

Import Controller Reviews.
Local Open Scope Z_scope.
Local Open Scope list_scope.

Lemma findByIdAndUpdate_twice (db : DB) (sid : N) (a1 a2 : spec_float) (t1 t2 : Z) :
  findByIdAndUpdate (findByIdAndUpdate db sid a1 t1) sid a2 t2 = findByIdAndUpdate db sid a2 t2.
Proof.
  unfold findByIdAndUpdate. simpl. f_equal.
  apply map_eq. intros k. destruct (decide (k = sid)) as [->|Hne].
  - rewrite !lookup_alter_eq. destruct (stores db !! sid); reflexivity.
  - rewrite !lookup_alter_ne by congruence. reflexivity.
Qed.


(** The recompute puts the counter of its store right. *)
Lemma recompute_total (db : DB) (sid : N) :
  exists avg,
    updateStoreRating no_faults db sid
    = (findByIdAndUpdate db sid avg (Z.of_nat (length (find_by_store db sid))),
       Resolved tt, []).
Proof.
  unfold updateStoreRating, updateStoreRating_try. simpl.
  destruct (length (find_by_store db sid) =? 0)%nat eqn:E.
  - apply Nat.eqb_eq in E. rewrite E. eauto.
  - eauto.
Qed.

Lemma recompute_counters (db : DB) (sid : N) :
  (forall s st, s <> sid -> stores db !! s = Some st ->
     totalReviews st = Z.of_nat (length (find_by_store db s))) ->
  counters_right (fst (fst (updateStoreRating no_faults db sid))).
Proof.
  intros Hothers. destruct (recompute_total db sid) as [avg ->]. simpl.
  intros s st. unfold findByIdAndUpdate, find_by_store. simpl.
  destruct (decide (s = sid)) as [->|Hne].
  - rewrite lookup_alter_eq. destruct (stores db !! sid); [|discriminate].
    intros [= <-]. reflexivity.
  - rewrite lookup_alter_ne by congruence. apply Hothers, Hne.
Qed.

Lemma unique_found (db : DB) (i : N) (review x : Review) :
  unique_ids db -> findById db i = Some review ->
  In x (reviews db) -> _id x = i -> x = review.
Proof.
  unfold unique_ids, findById. induction (reviews db) as [|y l IH]; simpl; [tauto|].
  intros Hnd Hfind Hin Hid. apply NoDup_cons in Hnd as [Hy Hl].
  destruct (_id y =? i)%N eqn:E.
  - injection Hfind as <-. apply N.eqb_eq in E. destruct Hin as [->|Hin]; [reflexivity|].
    exfalso. apply Hy. rewrite E, <- Hid. apply list_elem_of_In, in_map, Hin.
  - destruct Hin as [->|Hin]; [apply N.eqb_neq in E; congruence|]. apply IH; assumption.
Qed.

Lemma recompute_invariant (db0 db : DB) (sid : N) :
  unique_ids db -> counters_right db0 ->
  stores db = stores db0 ->
  (forall s, s <> sid -> length (find_by_store db s) = length (find_by_store db0 s)) ->
  unique_ids (fst (fst (updateStoreRating no_faults db sid)))
  /\ counters_right (fst (fst (updateStoreRating no_faults db sid))).
Proof.
  intros Hnd Hcount Hst Hsame. split.
  - unfold unique_ids. rewrite updateStoreRating_reviews. exact Hnd.
  - apply recompute_counters. intros s st Hne H.
    rewrite Hsame by exact Hne. apply Hcount. rewrite <- Hst. exact H.
Qed.

Lemma max_ge (l : list N) (x : N) : In x l -> (x <= fold_right N.max 0 l)%N.
Proof.
  induction l as [|y l IH]; simpl; [tauto|]. intros [->|H]; [lia|]. specialize (IH H). lia.
Qed.

Lemma fresh_id_new (db : DB) : fresh_id db ∉ map _id (reviews db).
Proof.
  unfold fresh_id. intros H. apply list_elem_of_In, max_ge in H. lia.
Qed.

Lemma delete_invariant (db : DB) (i : N) (review : Review) :
  unique_ids db ->
  findById db i = Some review ->
  unique_ids (Review_deleteOne db review)
  /\ forall s, s <> store review ->
       length (find_by_store (Review_deleteOne db review) s) = length (find_by_store db s).
Proof.
  intros Hnd Hfind. pose proof (findById_id db i review Hfind) as Hid.
  pose proof (fun x => unique_found db i review x Hnd Hfind) as Hown.
  unfold Review_deleteOne, unique_ids, findById, find_by_store in *. simpl. rewrite Hid.
  clear Hfind. induction (reviews db) as [|x l IH]; simpl.
  - split; [constructor|]. auto.
  - apply NoDup_cons in Hnd as [Hx Hl].
    destruct IH as (I1 & I4); [exact Hl | intros y Hy; apply Hown; right; exact Hy|].
    destruct (_id x =? i)%N eqn:E; simpl.
    + apply N.eqb_eq in E. split; [exact I1|].
      intros s Hs. rewrite (Hown x) by (simpl; auto).
      replace (store review =? s)%N with false by (symmetry; apply N.eqb_neq; congruence).
      apply I4, Hs.
    + split.
      * apply NoDup_cons. split; [|exact I1]. intros Hin. apply Hx.
        apply list_elem_of_In in Hin. apply in_map_iff in Hin as (y & Hy & Hin).
        apply filter_In in Hin as [Hin _]. rewrite <- Hy.
        apply list_elem_of_In, in_map, Hin.
      * intros s Hs. destruct (store x =? s)%N; simpl; rewrite I4 by exact Hs; reflexivity.
Qed.

Lemma deleteOne_read (db : DB) (review : Review) (j : N) :
  findById (Review_deleteOne db review) j
  = if (j =? _id review)%N then None else findById db j.
Proof.
  unfold Review_deleteOne, findById. simpl.
  induction (reviews db) as [|x l IH]; simpl; [destruct (j =? _id review)%N; reflexivity|].
  destruct (_id x =? _id review)%N eqn:E; simpl.
  - apply N.eqb_eq in E. rewrite IH.
    destruct (j =? _id review)%N eqn:Ej; [reflexivity|].
    replace (_id x =? j)%N with false; [reflexivity|].
    symmetry. apply N.eqb_neq. apply N.eqb_neq in Ej. congruence.
  - rewrite IH. destruct (_id x =? j)%N eqn:Ex; [|reflexivity].
    apply N.eqb_eq in Ex. subst j. rewrite E. reflexivity.
Qed.

(** X20. [deleteReview] by the author of the review or by an admin answers
    200; afterwards the review cannot be found and every other review is
    found as before, whether or not the recompute fails.  When no storage
    call throws, the counter of the store of the review is the number of
    the reviews that the store has left. *)
Theorem deleteReview_effect (flt : Faults) (db : DB) (u : User) (i : N) (review : Review) :
  findById db i = Some review ->
  user review = user_id u \/ role u = "admin" ->
  snd (deleteReview flt db u i) = mkResponse 200 "Review deleted successfully"
  /\ findById (fst (deleteReview flt db u i)) i = None
  /\ (forall j, j <> i -> findById (fst (deleteReview flt db u i)) j = findById db j)
  /\ (flt = no_faults ->
      totalReviews <$> (stores (fst (deleteReview flt db u i)) !! store review)
      = (fun _ => Z.of_nat (length (find_by_store (fst (deleteReview flt db u i))
                                      (store review))))
          <$> (stores db !! store review)).
Proof.
  intros Hfind Hauth. pose proof (findById_id db i review Hfind) as Hid.
  unfold deleteReview. rewrite Hfind.
  replace (negb (user review =? user_id u)%N && negb (String.eqb (role u) "admin"))
    with false.
  2: { destruct Hauth as [->| ->]; [rewrite N.eqb_refl | rewrite String.eqb_refl];
       simpl; rewrite ?andb_false_r; reflexivity. }
  pose proof (findById_after_recompute flt (Review_deleteOne db review) (store review))
    as Hread.
  pose proof (updateStoreRating_reviews flt (Review_deleteOne db review) (store review))
    as Hrev.
  assert (Htotal : flt = no_faults ->
            totalReviews <$> (stores (fst (fst (updateStoreRating flt
                                 (Review_deleteOne db review) (store review)))) !! store review)
            = (fun _ => Z.of_nat (length (find_by_store (Review_deleteOne db review)
                                            (store review))))
                <$> (stores db !! store review)).
  { intros ->.
    destruct (recompute_total (Review_deleteOne db review) (store review)) as [avg ->].
    simpl. rewrite lookup_alter_eq. destruct (stores db !! store review); reflexivity. }
  destruct (updateStoreRating flt (Review_deleteOne db review) (store review))
    as [[db2 c] log]. simpl in *.
  split; [reflexivity|]. split; [|split].
  - rewrite Hread, deleteOne_read, Hid, N.eqb_refl. reflexivity.
  - intros j Hj. rewrite Hread, deleteOne_read, Hid.
    apply N.eqb_neq in Hj. rewrite Hj. reflexivity.
  - intros Hf. rewrite (Htotal Hf). unfold find_by_store. rewrite Hrev. reflexivity.
Qed.

(** An admin deletes the review of user 7. *)
Lemma deleteReview_effect_witness :
  snd (deleteReview no_faults Scenario.c_db_one (mkUser 3 "admin") 1)
  = mkResponse 200 "Review deleted successfully"
  /\ findById (fst (deleteReview no_faults Scenario.c_db_one (mkUser 3 "admin") 1)) 1 = None.
Proof.
  destruct (deleteReview_effect no_faults Scenario.c_db_one (mkUser 3 "admin") 1
              (Scenario.c_review 1 7 5)) as (Hres & Hgone & _).
  - reflexivity.
  - right. reflexivity.
  - split; [exact Hres | exact Hgone].
Defined.

(** X21. Who may edit and who may delete.  A review is edited by its
    author only: a request of anyone else, an admin included, is refused
    with 403.  It is deleted by its author or an admin: a request of anyone
    else is refused with 403.  A refused request and a request for a review
    that does not exist (404) store nothing. *)
Theorem edit_and_delete_access (validReview : Review -> bool) (flt : Faults) (db : DB) :
  (forall req review,
      findById db (ur_id req) = Some review ->
      user review <> user_id (ur_user req) ->
      updateReview validReview flt db req
      = (db, mkResponse 403 "Access denied. You can only update your own reviews."))
  /\ (forall u i review,
      findById db i = Some review ->
      user review <> user_id u -> role u <> "admin" ->
      deleteReview flt db u i
      = (db, mkResponse 403 "Access denied. You can only delete your own reviews."))
  /\ (forall req,
      findById db (ur_id req) = None ->
      updateReview validReview flt db req = (db, mkResponse 404 "Review not found"))
  /\ (forall u i,
      findById db i = None ->
      deleteReview flt db u i = (db, mkResponse 404 "Review not found")).
Proof.
  repeat split.
  - intros req review Hfind Huser. unfold updateReview. rewrite Hfind.
    apply N.eqb_neq in Huser. rewrite Huser. reflexivity.
  - intros u i review Hfind Huser Hrole. unfold deleteReview. rewrite Hfind.
    apply N.eqb_neq in Huser. apply String.eqb_neq in Hrole. rewrite Huser, Hrole. reflexivity.
  - intros req Hfind. unfold updateReview. rewrite Hfind. reflexivity.
  - intros u i Hfind. unfold deleteReview. rewrite Hfind. reflexivity.
Qed.

(** An admin asks for 4 stars on the review of user 7. *)
Lemma edit_and_delete_access_witness :
  updateReview Scenario.stars_1_to_5 no_faults Scenario.c_db_one
    (mkUpdateReviewReq (mkUser 3 "admin") 1 [] (Some 4) None None None)
  = (Scenario.c_db_one,
     mkResponse 403 "Access denied. You can only update your own reviews.").
Proof.
  apply (proj1 (edit_and_delete_access Scenario.stars_1_to_5 no_faults Scenario.c_db_one)
           (mkUpdateReviewReq (mkUser 3 "admin") 1 [] (Some 4) None None None)
           (Scenario.c_review 1 7 5)).
  - reflexivity.
  - discriminate.
Defined.

End Counters.

Section Sequences.

Import Controller Reviews.
Local Open Scope Z_scope.
Local Open Scope list_scope.

Variable validReview : Review -> bool.

Lemma save_keeps_ids (db db' : DB) (doc : Review) :
  Review_save validReview db doc = Resolved db' ->
  map _id (reviews db') = map _id (reviews db) /\ stores db' = stores db.
Proof.
  unfold Review_save. destruct (negb (validReview doc)); [discriminate|].
  intros [= <-]. simpl. split; [|reflexivity].
  rewrite map_map. apply map_ext. intros x.
  destruct (_id x =? _id doc)%N eqn:E; [|reflexivity]. apply N.eqb_eq in E. congruence.
Qed.

Lemma save_keeps_counts (db db' : DB) (doc review : Review) (s : N) :
  unique_ids db ->
  findById db (_id doc) = Some review ->
  store doc = store review ->
  Review_save validReview db doc = Resolved db' ->
  length (find_by_store db' s) = length (find_by_store db s).
Proof.
  intros Hnd Hfind Hstore. unfold Review_save.
  destruct (negb (validReview doc)); [discriminate|]. intros [= <-].
  unfold find_by_store. simpl.
  pose proof (fun x => unique_found db (_id doc) review x Hnd Hfind) as Hown.
  induction (reviews db) as [|x l IH]; simpl; [reflexivity|].
  assert (Hx : store (if (_id x =? _id doc)%N then doc else x) = store x).
  { destruct (_id x =? _id doc)%N eqn:E; [|reflexivity]. apply N.eqb_eq in E.
    rewrite (Hown x) by (simpl; auto). exact Hstore. }
  rewrite Hx. destruct (store x =? s)%N; simpl; rewrite IH; auto.
  - intros y Hy. apply Hown. right. exact Hy.
  - intros y Hy. apply Hown. right. exact Hy.
Qed.

Lemma save_invariant (db db' : DB) (doc review : Review) :
  unique_ids db -> counters_right db ->
  findById db (_id doc) = Some review ->
  store doc = store review ->
  Review_save validReview db doc = Resolved db' ->
  unique_ids db' /\ counters_right db'.
Proof.
  intros Hnd Hcount Hfind Hstore Hsave.
  destruct (save_keeps_ids db db' doc Hsave) as [Hids Hst]. split.
  - unfold unique_ids. rewrite Hids. exact Hnd.
  - intros s st. rewrite Hst. intros H.
    rewrite (save_keeps_counts db db' doc review s Hnd Hfind Hstore Hsave).
    apply Hcount, H.
Qed.

Lemma create_invariant (db db' : DB) (doc r : Review) :
  unique_ids db ->
  Review_create validReview db doc = Resolved (db', r) ->
  unique_ids db' /\ stores db' = stores db
  /\ forall s, s <> store doc -> length (find_by_store db' s) = length (find_by_store db s).
Proof.
  intros Hnd. unfold Review_create.
  destruct (negb (validReview doc)); [discriminate|].
  destruct (findOne db (user doc) (store doc)); [discriminate|].
  intros [= <- <-]. simpl. split; [|split; [reflexivity|]].
  - unfold unique_ids. simpl. rewrite map_app. simpl.
    apply NoDup_app. split; [exact Hnd|]. split.
    + intros x Hx Hk. apply elem_of_cons in Hk as [->|Hk].
      * exact (fresh_id_new db Hx).
      * apply not_elem_of_nil in Hk. exact Hk.
    + apply NoDup_singleton.
  - intros s Hs. unfold find_by_store. simpl. rewrite List.filter_app, length_app. simpl.
    replace (store doc =? s)%N with false by (symmetry; apply N.eqb_neq; congruence).
    simpl. lia.
Qed.

Lemma serve_invariant (db : DB) (c : call) :
  unique_ids db -> counters_right db ->
  unique_ids (serve validReview no_faults db c)
  /\ counters_right (serve validReview no_faults db c).
Proof.
  intros Hnd Hcount. destruct c as [req|req|u i|now req|u i]; cbn [serve].
  - unfold addReview. cbn [addReview_run addReview_step].
    destruct (ar_errors req); [|simpl; auto].
    cbn [store_throws no_faults].
    destruct (Store_findById db (ar_storeId req)); [|simpl; auto].
    cbn [addReview_run addReview_step].
    destruct (findOne db _ _); [simpl; auto|].
    cbn [addReview_run addReview_step].
    destruct (Review_create validReview db (new_review req)) as [[db1 r]|reason] eqn:Ec;
      [|simpl; auto].
    cbn [addReview_run addReview_step].
    destruct (create_invariant db db1 _ r Hnd Ec) as (Hnd1 & Hst & Hsame).
    pose proof (recompute_invariant db db1 (ar_storeId req) Hnd1 Hcount Hst Hsame) as Hinv.
    destruct (updateStoreRating no_faults db1 (ar_storeId req)) as [[db2 c] log].
    exact Hinv.
  - unfold updateReview.
    destruct (findById db (ur_id req)) as [review|] eqn:Hfind; [|simpl; auto].
    destruct (negb (user review =? user_id (ur_user req))%N); [simpl; auto|].
    destruct (ur_errors req); [|simpl; auto].
    destruct (Review_save validReview db (assign_fields review req)) as [db1|reason] eqn:Es;
      [|simpl; auto].
    pose proof (findById_id db _ review Hfind) as Hid.
    destruct (save_invariant db db1 (assign_fields review req) review Hnd Hcount)
      as [Hnd1 Hcount1]; [rewrite <- Hid in Hfind; exact Hfind | reflexivity | exact Es |].
    pose proof (recompute_invariant db1 db1 (store review) Hnd1 Hcount1 eq_refl
                  (fun s _ => eq_refl)) as Hinv.
    destruct (updateStoreRating no_faults db1 (store review)) as [[db2 c] log].
    exact Hinv.
  - unfold deleteReview.
    destruct (findById db i) as [review|] eqn:Hfind; [|simpl; auto].
    destruct (_ && _); [simpl; auto|].
    destruct (delete_invariant db i review Hnd Hfind) as (Hnd1 & Hsame).
    pose proof (recompute_invariant db (Review_deleteOne db review) (store review)
                  Hnd1 Hcount eq_refl Hsame) as Hinv.
    destruct (updateStoreRating no_faults (Review_deleteOne db review) (store review))
      as [[db2 c] log].
    exact Hinv.
  - unfold addReply.
    destruct (findById db (rp_id req)) as [review|] eqn:Hfind; [|simpl; auto].
    destruct (stores db !! store review); [|simpl; auto].
    destruct (_ && _); [simpl; auto|].
    destruct (falsy_text (rp_text req)); [simpl; auto|].
    destruct (Review_save validReview db _) as [db1|reason] eqn:Es; [|simpl; auto].
    pose proof (findById_id db _ review Hfind) as Hid.
    refine (save_invariant db db1
              (with_reply review (Some (reply_object (default "" (rp_text req)) now)))
              review Hnd Hcount _ eq_refl Es).
    rewrite <- Hid in Hfind. exact Hfind.
  - unfold voteReview.
    destruct (findById db i) as [review|] eqn:Hfind; [|simpl; auto].
    destruct (user review =? user_id u)%N; [simpl; auto|].
    destruct (Review_save validReview db _) as [db1|reason] eqn:Es; [|simpl; auto].
    pose proof (findById_id db _ review Hfind) as Hid.
    refine (save_invariant db db1
              (with_votes review (helpfulVotes review + 1)) review Hnd Hcount _ eq_refl Es).
    rewrite <- Hid in Hfind. exact Hfind.
Qed.


End Sequences.


Example counters_after_four_calls :
  Controller.totalReviews
    <$> (Controller.stores
           (Reviews.serve_all Scenario.stars_1_to_5 Controller.no_faults Scenario.c_empty
              [Reviews.AddReview (Scenario.submit 5);
               Reviews.VoteReview (Scenario.customer 8) 1;
               Reviews.AddReview
                 (Controller.mkAddReviewReq (Scenario.customer 6) 1 [] 4 None None []);
               Reviews.DeleteReview (Scenario.customer 7) 1]) !! 1%N)
  = Some 1%Z.
Proof. vm_compute. reflexivity. Qed.
